(** * safe-http: the request pipeline, the validator adapter and the client tree

    A shallow embedding of
      - [src/client-utils.ts]  (mergePath, replaceUrlParams, buildSearchParams,
                                isObject, deepMerge, getContentType, serializeBody),
      - [src/libs/parser.ts]   (createParseFn),
      - [src/client.ts]        (HttpClientRequest, createEndpoint,
                                isRouteDefinition, createClientFromRouteMap,
                                httpClient),
    followed by the properties of the specification proved about it.

    Conventions of the embedding.
      - A JavaScript string is a Rocq [string]: a sequence of 8-bit code
        units (the UTF-8 bytes of the text).
      - A JavaScript number is an integer [Z]; fractions, NaN and the
        infinities are outside the embedding.
      - An object is the list of its own enumerable properties in the order
        [Object.entries] lists them: the array indices first, in ascending
        order, then the other names in the order of their creation.  Its
        prototype is [Object.prototype] ([JObj]) unless an assignment to
        [__proto__] has replaced it ([JProto]).  The built-in members of
        the standard prototypes are functions and accessors the program
        does not read by name; of them only the accessor [__proto__] of
        [Object.prototype] is modelled, since a property loop can reach it.
      - A function value is a reference [JFun id props]; what a call does is
        given by the environment ([call_fn]), so all definitions stay
        executable.  A promise is identified with its outcome: [Ok v] for a
        returned or resolved value, [Err e] for a throw or a rejection. *)

From Stdlib Require Import Strings.String Strings.Ascii.
From Stdlib Require Import Lists.List.
From Stdlib Require Import ZArith Lia Bool.
From Stdlib Require Import Numbers.DecimalString.
From Stdlib Require Import Sorting.Permutation.
Import ListNotations.

Open Scope list_scope.
Open Scope string_scope.

(* ================================================================== *)
(** ** Strings *)
(* ================================================================== *)

Module Str.

Definition slash : ascii := "/"%char.
Definition colon : ascii := ":"%char.

Fixpoint all (p : ascii -> bool) (s : string) : bool :=
  match s with
  | EmptyString => true
  | String c s' => p c && all p s'
  end.

Fixpoint any (p : ascii -> bool) (s : string) : bool :=
  match s with
  | EmptyString => false
  | String c s' => p c || any p s'
  end.

(** [s.includes(c)] for a one-character needle. *)
Definition includes (c : ascii) (s : string) : bool := any (Ascii.eqb c) s.

Fixpoint repeat (c : ascii) (n : nat) : string :=
  match n with
  | O => EmptyString
  | S n' => String c (repeat c n')
  end.

Definition head (s : string) : option ascii :=
  match s with
  | EmptyString => None
  | String c _ => Some c
  end.

Fixpoint last (s : string) : option ascii :=
  match s with
  | EmptyString => None
  | String c EmptyString => Some c
  | String _ s' => last s'
  end.

Fixpoint join (sep : string) (l : list string) : string :=
  match l with
  | [] => ""
  | [x] => x
  | x :: xs => x ++ sep ++ join sep xs
  end.

Fixpoint chars (s : string) : list ascii :=
  match s with
  | EmptyString => []
  | String c s' => c :: chars s'
  end.

Definition is_upper (c : ascii) : bool :=
  let n := nat_of_ascii c in (65 <=? n)%nat && (n <=? 90)%nat.
Definition is_lower (c : ascii) : bool :=
  let n := nat_of_ascii c in (97 <=? n)%nat && (n <=? 122)%nat.
Definition is_digit (c : ascii) : bool :=
  let n := nat_of_ascii c in (48 <=? n)%nat && (n <=? 57)%nat.
Definition is_alnum (c : ascii) : bool := is_upper c || is_lower c || is_digit c.

Definition mem (c : ascii) (set : string) : bool := includes c set.

Fixpoint map (f : ascii -> ascii) (s : string) : string :=
  match s with
  | EmptyString => EmptyString
  | String c s' => String (f c) (map f s')
  end.

Definition to_upper_char (c : ascii) : ascii :=
  if is_lower c then ascii_of_nat (nat_of_ascii c - 32) else c.
Definition to_lower_char (c : ascii) : ascii :=
  if is_upper c then ascii_of_nat (nat_of_ascii c + 32) else c.

(** [toUpperCase] / ASCII lower-casing, on the ASCII letters. *)
Definition toUpperCase : string -> string := map to_upper_char.
Definition toLowerCase : string -> string := map to_lower_char.

Definition hex_digit (n : nat) : ascii :=
  match n with
  | 0 => "0" | 1 => "1" | 2 => "2" | 3 => "3" | 4 => "4" | 5 => "5"
  | 6 => "6" | 7 => "7" | 8 => "8" | 9 => "9" | 10 => "A" | 11 => "B"
  | 12 => "C" | 13 => "D" | 14 => "E" | _ => "F"
  end%char.

(** [%XX], upper-case hexadecimal, of one code unit. *)
Definition percent (c : ascii) : string :=
  let n := nat_of_ascii c in
  String "%" (String (hex_digit (n / 16)) (String (hex_digit (n mod 16)) "")).

Fixpoint concat_map (f : ascii -> string) (s : string) : string :=
  match s with
  | EmptyString => EmptyString
  | String c s' => f c ++ concat_map f s'
  end.

Definition of_Z (z : Z) : string := NilZero.string_of_int (Z.to_int z).
Definition of_nat (n : nat) : string := of_Z (Z.of_nat n).

End Str.

(* ================================================================== *)
(** ** Outcomes, values and errors *)
(* ================================================================== *)

Inductive Result (A E : Type) : Type :=
| Ok (a : A)
| Err (e : E).
Arguments Ok {A E} a.
Arguments Err {A E} e.

Definition FunId := nat.

(** The JavaScript values the pipeline handles. *)
#[local] Unset Elimination Schemes.
Inductive JsValue : Type :=
| JUndefined
| JNull
| JBool (b : bool)
| JNum (n : Z)
| JStr (s : string)
| JArr (items : list JsValue)
| JObj (fields : list (string * JsValue))
| JProto (proto : JsValue) (fields : list (string * JsValue))
| JFun (id : FunId) (fields : list (string * JsValue))
| JFormData (fields : list (string * string))
| JURLSearchParams (pairs : list (string * string))
| JBlob (bytes : string)
| JArrayBuffer (bytes : string).
#[local] Set Elimination Schemes.

(** Induction on values, through the lists of items and of properties. *)
Section JsValue_induction.

Variable P : JsValue -> Prop.

Definition atom (v : JsValue) : bool :=
  match v with
  | JArr _ | JObj _ | JProto _ _ | JFun _ _ => false
  | _ => true
  end.

Hypothesis H_atom : forall v, atom v = true -> P v.
Hypothesis H_arr : forall items, Forall P items -> P (JArr items).
Hypothesis H_obj : forall fs, Forall (fun kv => P (snd kv)) fs -> P (JObj fs).
Hypothesis H_fun : forall id fs, Forall (fun kv => P (snd kv)) fs -> P (JFun id fs).
Hypothesis H_proto :
  forall p fs, P p -> Forall (fun kv => P (snd kv)) fs -> P (JProto p fs).

Fixpoint JsValue_ind (v : JsValue) : P v :=
  let items_ind :=
    fix go (l : list JsValue) : Forall P l :=
      match l with
      | [] => Forall_nil P
      | x :: l' => Forall_cons x (JsValue_ind x) (go l')
      end in
  let fields_ind :=
    fix go (l : list (string * JsValue)) : Forall (fun kv => P (snd kv)) l :=
      match l with
      | [] => Forall_nil _
      | (k, x) :: l' =>
          @Forall_cons _ (fun kv => P (snd kv)) (k, x) l' (JsValue_ind x) (go l')
      end in
  match v with
  | JArr items => H_arr items (items_ind items)
  | JObj fs => H_obj fs (fields_ind fs)
  | JFun id fs => H_fun id fs (fields_ind fs)
  | JProto p fs => H_proto p fs (JsValue_ind p) (fields_ind fs)
  | JUndefined => H_atom JUndefined eq_refl
  | JNull => H_atom JNull eq_refl
  | JBool b => H_atom (JBool b) eq_refl
  | JNum n => H_atom (JNum n) eq_refl
  | JStr s => H_atom (JStr s) eq_refl
  | JFormData f => H_atom (JFormData f) eq_refl
  | JURLSearchParams p => H_atom (JURLSearchParams p) eq_refl
  | JBlob b => H_atom (JBlob b) eq_refl
  | JArrayBuffer b => H_atom (JArrayBuffer b) eq_refl
  end.

End JsValue_induction.

(** What a [throw] or a rejected promise carries. *)
Inductive JsError : Type :=
| Thrown (payload : JsValue)               (* a value thrown by user code  *)
| TypeError (msg : string)
| SyntaxError (msg : string)
| PlainError (msg : string)                (* [new Error(msg)]             *)
| StandardSchemaV1Error (issues : JsValue).

Definition Res (A : Type) : Type := Result A JsError.

Definition rbind {A B} (r : Res A) (k : A -> Res B) : Res B :=
  match r with
  | Ok a => k a
  | Err e => Err e
  end.

(* ================================================================== *)
(** ** Primitive operations of the language *)
(* ================================================================== *)

Definition Fields := list (string * JsValue).

(** Own property lookup in a property list. *)
Fixpoint lookup {A : Type} (k : string) (fs : list (string * A)) : option A :=
  match fs with
  | [] => None
  | (k', v) :: fs' => if String.eqb k k' then Some v else lookup k fs'
  end.

Definition has_key {A : Type} (k : string) (fs : list (string * A)) : bool :=
  match lookup k fs with Some _ => true | None => false end.

(** A keyed update: an existing entry keeps its place, a new one goes
    last.  This is [obj[k] = v] for a name [k] that is neither an array
    index nor [__proto__], and [Headers.set] on normalized names. *)
Fixpoint obj_set {A : Type} (k : string) (v : A) (fs : list (string * A))
  : list (string * A) :=
  match fs with
  | [] => [(k, v)]
  | (k', v') :: fs' =>
      if String.eqb k k' then (k, v) :: fs' else (k', v') :: obj_set k v fs'
  end.

Definition keys {A : Type} (fs : list (string * A)) : list string := List.map fst fs.

(** *** Property order *)

Definition digit_value (c : ascii) : N := N.of_nat (nat_of_ascii c) - 48.

Fixpoint digits_value (s : string) (acc : N) : option N :=
  match s with
  | EmptyString => Some acc
  | String c s' =>
      if Str.is_digit c then digits_value s' (acc * 10 + digit_value c)%N else None
  end.

(** An array index: the canonical decimal form (no sign, no leading zero)
    of an integer from 0 to 2^32 - 2. *)
Definition array_index (k : string) : option N :=
  match k with
  | EmptyString => None
  | String c rest =>
      if Ascii.eqb c "0" && negb (String.eqb rest "") then None
      else match digits_value k 0 with
           | Some n => if (n <? 4294967295)%N then Some n else None
           | None => None
           end
  end.

(** Where a new property [k] goes with respect to a property [k'] the
    object has: before it when [k] is an array index and [k'] is a larger
    index or no index at all. *)
Definition goes_before (k k' : string) : bool :=
  match array_index k with
  | None => false
  | Some n =>
      match array_index k' with
      | None => true
      | Some n' => (n <? n')%N
      end
  end.

Fixpoint insert_new {A : Type} (k : string) (v : A) (fs : list (string * A))
  : list (string * A) :=
  match fs with
  | [] => [(k, v)]
  | (k', v') :: fs' =>
      if goes_before k k' then (k, v) :: fs else (k', v') :: insert_new k v fs'
  end.

(** Defining the own property [k] of an object (an object literal, a
    spread, an assignment that no setter intercepts): an existing property
    keeps its place, a new one takes its place in the property order. *)
Definition obj_define {A : Type} (k : string) (v : A) (fs : list (string * A))
  : list (string * A) :=
  if has_key k fs then obj_set k v fs else insert_new k v fs.

(** Truthiness ([ToBoolean]). *)
Definition truthy (v : JsValue) : bool :=
  match v with
  | JUndefined | JNull => false
  | JBool b => b
  | JNum n => negb (Z.eqb n 0)
  | JStr s => negb (String.eqb s "")
  | _ => true
  end.

(** The [typeof] operator. *)
Definition typeof (v : JsValue) : string :=
  match v with
  | JUndefined => "undefined"
  | JBool _ => "boolean"
  | JNum _ => "number"
  | JStr _ => "string"
  | JFun _ _ => "function"
  | _ => "object"
  end.

Definition typeof_is (v : JsValue) (t : string) : bool := String.eqb (typeof v) t.

Definition is_undefined (v : JsValue) : bool :=
  match v with JUndefined => true | _ => false end.

Definition is_nullish (v : JsValue) : bool :=
  match v with JUndefined | JNull => true | _ => false end.

Definition Array_isArray (v : JsValue) : bool :=
  match v with JArr _ => true | _ => false end.

(** Index-keyed entries of an array-like: ["0"], ["1"], ... *)
Fixpoint indexed {A : Type} (i : nat) (xs : list A) : list (string * A) :=
  match xs with
  | [] => []
  | x :: xs' => (Str.of_nat i, x) :: indexed (S i) xs'
  end.

Definition char_values (s : string) : list JsValue :=
  List.map (fun c => JStr (String c "")) (Str.chars s).

(** Objects and functions, as opposed to primitive values. *)
Definition object_like (v : JsValue) : bool :=
  match v with
  | JUndefined | JNull | JBool _ | JNum _ | JStr _ => false
  | _ => true
  end.

(** The own enumerable string-keyed properties: what a spread [{...v}],
    [Object.entries] and a rest pattern see of a value. *)
Definition enumerable_entries (v : JsValue) : Fields :=
  match v with
  | JObj fs | JProto _ fs | JFun _ fs => fs
  | JArr items => indexed 0 items
  | JStr s => indexed 0 (char_values s)
  | _ => []
  end.

(** [Object.entries(v)] *)
Definition Object_entries (v : JsValue) : Res Fields :=
  match v with
  | JUndefined | JNull => Err (TypeError "Cannot convert undefined or null to object")
  | _ => Ok (enumerable_entries v)
  end.

(** Property read [v.k]: the own property, else the one inherited from a
    prototype that was set.  (None of the names the program reads this way
    is a built-in member of a standard prototype; the loop of [deepMerge],
    whose names come from its argument, reads through [merged_get].) *)
Fixpoint get_prop (v : JsValue) (k : string) : Res JsValue :=
  match v with
  | JUndefined | JNull => Err (TypeError "Cannot read properties of undefined or null")
  | JObj fs | JFun _ fs =>
      Ok (match lookup k fs with Some x => x | None => JUndefined end)
  | JProto p fs =>
      match lookup k fs with
      | Some x => Ok x
      | None => if object_like p then get_prop p k else Ok JUndefined
      end
  | JArr items =>
      if String.eqb k "length" then Ok (JNum (Z.of_nat (List.length items)))
      else Ok (match lookup k (indexed 0 items) with Some x => x | None => JUndefined end)
  | JStr s =>
      if String.eqb k "length" then Ok (JNum (Z.of_nat (String.length s)))
      else Ok (match lookup k (indexed 0 (char_values s)) with
               | Some x => x | None => JUndefined end)
  | _ => Ok JUndefined
  end.

(** The [in] operator: own and inherited properties; a TypeError on a
    primitive right operand. *)
Fixpoint prop_in (k : string) (v : JsValue) : Res bool :=
  match v with
  | JObj fs | JFun _ fs => Ok (has_key k fs)
  | JProto p fs =>
      if has_key k fs then Ok true
      else if object_like p then prop_in k p else Ok false
  | JArr items => Ok (String.eqb k "length" || has_key k (indexed 0 items))
  | JFormData _ | JURLSearchParams _ | JBlob _ | JArrayBuffer _ => Ok false
  | _ => Err (TypeError "Cannot use 'in' operator to search for a key in a primitive")
  end.

(** A property read that is known not to throw. *)
Definition field (v : JsValue) (k : string) : JsValue :=
  match get_prop v k with Ok x => x | Err _ => JUndefined end.

Definition is_null (v : JsValue) : bool :=
  match v with JNull => true | _ => false end.

(** *** Objects under construction *)

(** An object a loop builds by assignments: its prototype ([None] as long
    as it is [Object.prototype]) and its own properties. *)
Record Obj : Type := mkObj {
  prototype : option JsValue;
  properties : Fields
}.

Definition to_value (o : Obj) : JsValue :=
  match prototype o with
  | None => JObj (properties o)
  | Some p => JProto p (properties o)
  end.

(** [Object.prototype] as a value: no enumerable property, no prototype. *)
Definition Object_prototype : JsValue := JProto JNull [].

Definition proto_key : string := "__proto__".

Definition has_property (k : string) (v : JsValue) : bool :=
  match prop_in k v with Ok b => b | Err _ => false end.

(** The prototypes of a value lead to [Object.prototype]: no prototype on
    the way is [null]. *)
Fixpoint reaches_Object_prototype (v : JsValue) : bool :=
  match v with
  | JProto p _ => object_like p && reaches_Object_prototype p
  | _ => object_like v
  end.

(** A read of, or an assignment to, [__proto__] on the object reaches the
    accessor of [Object.prototype]: neither the object nor a prototype has
    a property of that name, and the prototypes lead to [Object.prototype]. *)
Definition accessor_reachable (o : Obj) : bool :=
  negb (has_key proto_key (properties o))
  && match prototype o with
     | None => true
     | Some p =>
         object_like p && negb (has_property proto_key p) && reaches_Object_prototype p
     end.

(** [merged[key]]: the getter of [__proto__] gives the prototype; the
    other built-in members of [Object.prototype] are functions, which read
    as [undefined] here ([isObject] rejects both). *)
Definition merged_get (o : Obj) (key : string) : JsValue :=
  if String.eqb key proto_key && accessor_reachable o
  then match prototype o with None => Object_prototype | Some p => p end
  else field (to_value o) key.

(** [merged[key] = v].  The setter of [__proto__] replaces the prototype
    by an object or by [null] and ignores any other value; elsewhere the
    own property is defined.  (The properties modelled are writable; the
    read-only built-in members of a function or platform object that was
    made the prototype are not modelled.) *)
Definition obj_assign (o : Obj) (key : string) (v : JsValue) : Obj :=
  if String.eqb key proto_key && accessor_reachable o
  then if object_like v || is_null v then mkObj (Some v) (properties o) else o
  else mkObj (prototype o) (obj_define key v (properties o)).

(** *** Percent-encodings *)

(** [encodeURIComponent] leaves the unreserved marks and the ASCII letters
    and digits, and writes every other code unit as [%XX]. *)
Definition uri_unreserved (c : ascii) : bool :=
  Str.is_alnum c || Str.mem c "-_.!~*'()".

Definition encode_uri_char (c : ascii) : string :=
  if uri_unreserved c then String c "" else Str.percent c.

Definition encodeURIComponent_string (s : string) : string :=
  Str.concat_map encode_uri_char s.

(** The application/x-www-form-urlencoded byte serializer. *)
Definition form_unreserved (c : ascii) : bool :=
  Str.is_alnum c || Str.mem c "*-._".

Definition form_encode_char (c : ascii) : string :=
  if form_unreserved c then String c ""
  else if Ascii.eqb c " " then "+"
  else Str.percent c.

Definition form_encode (s : string) : string := Str.concat_map form_encode_char s.

(** *** URLSearchParams *)

Definition URLSearchParams := list (string * string).

Definition usp_append (k v : string) (p : URLSearchParams) : URLSearchParams :=
  (p ++ [(k, v)])%list.

(** [set]: the first pair named [k] takes the value, the other pairs named
    [k] are removed; without such a pair, the pair is appended. *)
Fixpoint usp_set (k v : string) (p : URLSearchParams) : URLSearchParams :=
  match p with
  | [] => [(k, v)]
  | (k', v') :: p' =>
      if String.eqb k k'
      then (k, v) :: List.filter (fun kv => negb (String.eqb k (fst kv))) p'
      else (k', v') :: usp_set k v p'
  end.

Definition usp_pair (kv : string * string) : string :=
  form_encode (fst kv) ++ "=" ++ form_encode (snd kv).

(** [searchParams.toString()] *)
Definition usp_toString (p : URLSearchParams) : string :=
  Str.join "&" (List.map usp_pair p).

(** *** String(v) *)

(** [String(v)] / ToString.  Objects are plain (no [toString] of their own
    or of a prototype that was set); the source text of a function is not
    modelled. *)
Fixpoint ToString (v : JsValue) : string :=
  match v with
  | JUndefined => "undefined"
  | JNull => "null"
  | JBool true => "true"
  | JBool false => "false"
  | JNum n => Str.of_Z n
  | JStr s => s
  | JArr items =>
      Str.join ","
        (List.map (fun x => match x with
                            | JUndefined | JNull => ""
                            | _ => ToString x
                            end) items)
  | JObj _ | JProto _ _ => "[object Object]"
  | JFun _ _ => "function () { [code] }"
  | JFormData _ => "[object FormData]"
  | JURLSearchParams p => usp_toString p
  | JBlob _ => "[object Blob]"
  | JArrayBuffer _ => "[object ArrayBuffer]"
  end.

Definition encodeURIComponent (v : JsValue) : string :=
  encodeURIComponent_string (ToString v).

(* ================================================================== *)
(** ** client-utils.ts : mergePath *)
(* ================================================================== *)

(** [s.replace(/^\/+/, '')]: the pattern is anchored at the start, so the
    only match is the maximal run of slashes the string starts with. *)
Fixpoint strip_leading_slashes (s : string) : string :=
  match s with
  | String c s' => if Ascii.eqb c Str.slash then strip_leading_slashes s' else s
  | EmptyString => EmptyString
  end.

(** The pattern [\/+$] matches at a position iff everything from there to
    the end of the string is a non-empty run of slashes. *)
Definition slashes_to_end (s : string) : bool :=
  match s with
  | EmptyString => false
  | String _ _ => Str.all (Ascii.eqb Str.slash) s
  end.

(** [s.replace(/\/+$/, '')]: the leftmost position where the pattern
    matches is searched from the left; the match found there is deleted. *)
Fixpoint strip_trailing_slashes (s : string) : string :=
  match s with
  | EmptyString => EmptyString
  | String c s' =>
      if slashes_to_end s then EmptyString
      else String c (strip_trailing_slashes s')
  end.

Definition mergePath (base path : string) : string :=
  let base := strip_trailing_slashes base in
  let base := base ++ "/" in
  let path := strip_leading_slashes path in
  base ++ path.



(* ================================================================== *)
(** ** client-utils.ts : replaceUrlParams *)
(* ================================================================== *)

(** [strip_prefix p s] is the rest of [s] after the literal [p], when [s]
    starts with [p]. *)
Fixpoint strip_prefix (p s : string) : option string :=
  match p with
  | EmptyString => Some s
  | String a p' =>
      match s with
      | EmptyString => None
      | String b s' => if Ascii.eqb a b then strip_prefix p' s' else None
      end
  end.

Definition is_boundary (c : ascii) : bool :=
  Ascii.eqb c "/" || Ascii.eqb c "?" || Ascii.eqb c "#".

(** The lookahead [(?=\/|$|\?|#)] on the input that follows a match. *)
Definition lookahead (rest : string) : bool :=
  match rest with
  | EmptyString => true
  | String c _ => is_boundary c
  end.

(** Does the pattern [:key(?=\/|$|\?|#)] match at the start of [s]?  The
    key is spliced into the pattern as it is, so this is the pattern's
    meaning for a key free of regular-expression metacharacters
    ([regex_literal]). *)
Definition param_match (key s : string) : bool :=
  match strip_prefix (String Str.colon key) s with
  | Some rest => lookahead rest
  | None => false
  end.

Definition regex_meta : string := "\^$.|?*+()[]{}".

Definition regex_literal (key : string) : bool :=
  Str.all (fun c => negb (Str.mem c regex_meta)) key.

(** [s.replace(pattern, rep)] with the [g] flag: the input is scanned from
    the left; at a position where the pattern matches the replacement is
    written and the scan resumes behind the match ([skip] counts the code
    units of the match still to pass), elsewhere the code unit is copied. *)
Fixpoint replace_scan (key rep : string) (skip : nat) (s : string) : string :=
  match s with
  | EmptyString => EmptyString
  | String c s' =>
      match skip with
      | S n => replace_scan key rep n s'
      | O =>
          if param_match key s
          then rep ++ replace_scan key rep (String.length key) s'
          else String c (replace_scan key rep 0 s')
      end
  end.

Definition replace_param (key : string) (value : JsValue) (s : string) : string :=
  replace_scan key (encodeURIComponent value) 0 s.

(** The body of the [for] loop. *)
Definition replaceUrlParams_step (result : string) (kv : string * JsValue) : string :=
  let '(key, value) := kv in
  if negb (is_undefined value) then replace_param key value result else result.

Definition replaceUrlParams (urlString : string) (params : JsValue) : Res string :=
  rbind (Object_entries params) (fun entries =>
  Ok (List.fold_left replaceUrlParams_step entries urlString)).

(* ================================================================== *)
(** ** client-utils.ts : buildSearchParams *)
(* ================================================================== *)

(** The inner loop over the items of an array value. *)
Definition append_item (key : string) (sp : URLSearchParams) (item : JsValue)
  : URLSearchParams :=
  if negb (is_undefined item) && negb (match item with JNull => true | _ => false end)
  then usp_append key (ToString item) sp
  else sp.

(** The body of the outer loop. *)
Definition buildSearchParams_step (sp : URLSearchParams) (kv : string * JsValue)
  : URLSearchParams :=
  let '(key, value) := kv in
  match value with
  | JUndefined | JNull => sp                                  (* continue *)
  | JArr items => List.fold_left (append_item key) items sp
  | _ => usp_set key (ToString value) sp
  end.

Definition buildSearchParams (query : JsValue) : Res URLSearchParams :=
  rbind (Object_entries query) (fun entries =>
  Ok (List.fold_left buildSearchParams_step entries [])).

(* ================================================================== *)
(** ** client-utils.ts : isObject, deepMerge *)
(* ================================================================== *)

Definition isObject (value : JsValue) : bool :=
  typeof_is value "object"
  && negb (match value with JNull => true | _ => false end)
  && negb (Array_isArray value).

(** One round of the [for (const key in source)] loop of [deepMerge]; [rec]
    is the recursive call [deepMerge(merged[key], value)] as a function of
    [merged[key]]. *)
Definition deepMerge_step (rec : JsValue -> JsValue)
  (key : string) (value : JsValue) (merged : Obj) : Obj :=
  let cur := merged_get merged key in
  if isObject cur && isObject value
  then obj_assign merged key (rec cur)
  else obj_assign merged key value.

(** [for_in] is the loop [for (const key in source)]: the own enumerable
    properties of the source, then those of its prototype that no nearer
    object has ([seen]).  The enumerable members that the platform
    prototypes (of FormData, Blob, ...) contribute are not modelled. *)
Fixpoint deepMerge (target source : JsValue) {struct source} : JsValue :=
  if negb (isObject target) && negb (isObject source) then source
  else
    let merged := mkObj None (enumerable_entries target) in     (* { ...target } *)
    to_value
      ((fix for_in (src : JsValue) (seen : list string) (merged : Obj) {struct src} : Obj :=
          match src with
          | JObj fs | JFun _ fs =>
              (fix loop (l : Fields) (merged : Obj) : Obj :=
                 match l with
                 | [] => merged
                 | (key, value) :: l' =>
                     loop l'
                       (if existsb (String.eqb key) seen then merged
                        else deepMerge_step (fun t => deepMerge t value) key value merged)
                 end) fs merged
          | JProto p fs =>
              for_in p (seen ++ keys fs)%list
                ((fix loop (l : Fields) (merged : Obj) : Obj :=
                    match l with
                    | [] => merged
                    | (key, value) :: l' =>
                        loop l'
                          (if existsb (String.eqb key) seen then merged
                           else deepMerge_step (fun t => deepMerge t value) key value merged)
                    end) fs merged)
          | JArr items =>
              (fix loop (i : nat) (l : list JsValue) (merged : Obj) : Obj :=
                 match l with
                 | [] => merged
                 | value :: l' =>
                     loop (S i) l'
                       (if existsb (String.eqb (Str.of_nat i)) seen then merged
                        else deepMerge_step (fun t => deepMerge t value)
                               (Str.of_nat i) value merged)
                 end) 0%nat items merged
          | JStr str =>
              List.fold_left
                (fun m kv =>
                   if existsb (String.eqb (fst kv)) seen then m
                   else obj_assign m (fst kv) (snd kv))
                (indexed 0 (char_values str)) merged
          | _ => merged
          end) source [] merged).

(* ================================================================== *)
(** ** The Fetch API objects the client touches *)
(* ================================================================== *)

(** A [Headers] collection: names are compared without regard to ASCII
    case (kept lower-cased) and values lose surrounding HTTP whitespace.
    Names and values are taken to be legal header tokens; [Headers.set]
    raises a TypeError on others. *)
Definition Headers := list (string * string).

Definition http_whitespace (c : ascii) : bool :=
  Ascii.eqb c "009" || Ascii.eqb c "010" || Ascii.eqb c "013" || Ascii.eqb c " ".

Fixpoint strip_leading_ws (s : string) : string :=
  match s with
  | String c s' => if http_whitespace c then strip_leading_ws s' else s
  | EmptyString => EmptyString
  end.

Fixpoint strip_trailing_ws (s : string) : string :=
  match s with
  | EmptyString => EmptyString
  | String c s' =>
      if Str.all http_whitespace s then EmptyString
      else String c (strip_trailing_ws s')
  end.

Definition normalize_header_value (s : string) : string :=
  strip_trailing_ws (strip_leading_ws s).

Definition headers_set (name : string) (value : JsValue) (h : Headers) : Headers :=
  obj_set (Str.toLowerCase name) (normalize_header_value (ToString value)) h.

Definition headers_has (name : string) (h : Headers) : bool :=
  has_key (Str.toLowerCase name) h.

Definition headers_get (name : string) (h : Headers) : option string :=
  lookup (Str.toLowerCase name) h.

(** What the transport resolves to: the status code, the body text, and
    whether the body has been read already ([bodyUsed]). *)
Record Response : Type := mkResponse {
  status : Z;
  body_text : string;
  bodyUsed : bool
}.

(** The value of a property of the request descriptor: the [Headers]
    collection the pipeline assembles, or a plain value. *)
Inductive InitValue : Type :=
| IHeaders (h : Headers)
| IValue (v : JsValue).

(** The request descriptor handed to the transport: an object, by its
    properties. *)
Definition RequestInit : Type := list (string * InitValue).

(** The object literal [{ method, headers, body, ...init }]: the three
    properties the pipeline assembles, then the own properties of the
    pass-through options spread over them; one named [method], [headers]
    or [body] takes the place of the assembled value. *)
Definition request_init (methodName : string) (headers : Headers) (body init : JsValue)
  : RequestInit :=
  List.fold_left (fun d kv => obj_define (fst kv) (IValue (snd kv)) d)
    (enumerable_entries init)
    [("method", IValue (JStr methodName)); ("headers", IHeaders headers);
     ("body", IValue body)].

(** One invocation of the transport: the function used ([None] is the
    ambient [fetch]), the URL and the descriptor. *)
Definition FetchCall : Type := (option FunId * string * RequestInit)%type.

(** What a run can leave behind: transport invocations and [console.warn]
    lines, oldest first. *)
Record World : Type := mkWorld {
  fetch_log : list FetchCall;
  warn_log : list JsError
}.

Definition M (A : Type) : Type := World -> Res A * World.

Definition ret {A} (a : A) : M A := fun w => (Ok a, w).
Definition throw {A} (e : JsError) : M A := fun w => (Err e, w).
Definition bind {A B} (m : M A) (k : A -> M B) : M B :=
  fun w => match m w with
           | (Ok a, w') => k a w'
           | (Err e, w') => (Err e, w')
           end.
Definition lift {A} (r : Res A) : M A := fun w => (r, w).

(** [try { m } catch (error) { h error }] *)
Definition try_catch {A} (m : M A) (h : JsError -> M A) : M A :=
  fun w => match m w with
           | (Ok a, w') => (Ok a, w')
           | (Err e, w') => h e w'
           end.

Definition console_warn (e : JsError) : M unit :=
  fun w => (Ok tt, mkWorld (fetch_log w) (warn_log w ++ [e])%list).

Declare Scope js_scope.
Delimit Scope js_scope with js.
Notation "x <- m ;; k" := (bind m (fun x => k))
  (at level 61, m at next level, right associativity) : js_scope.
Notation "x <~ r ;; k" := (rbind r (fun x => k))
  (at level 61, r at next level, right associativity) : js_scope.
Open Scope js_scope.

(** A parameter with a default value: the default replaces [undefined]. *)
Definition default_param (v d : JsValue) : JsValue :=
  if is_undefined v then d else v.

(** The client tree: a callable bound to its route at a leaf, an object of
    sub-trees elsewhere. *)
#[local] Unset Elimination Schemes.
Inductive Client : Type :=
| Endpoint (baseUrl route baseOptions : JsValue)
| ClientObj (proto : option Client) (fields : list (string * Client)).
#[local] Set Elimination Schemes.

(** The client object under construction: its prototype ([None] as long as
    it is [Object.prototype]) and its own properties. *)
Definition ClientState : Type := (option Client * list (string * Client))%type.

(** The names an object cannot take by assignment once a function is among
    its prototypes: [name] and [length] are read-only properties of the
    function, [arguments] and [caller] accessors of [Function.prototype]
    whose setter throws. *)
Definition function_read_only : list string := ["name"; "length"; "arguments"; "caller"].

(** The object inherits [key] from a function: no object nearer in the
    chain of prototypes has a property of that name. *)
Fixpoint read_only_in (c : Client) (key : string) : bool :=
  match c with
  | Endpoint _ _ _ => existsb (String.eqb key) function_read_only
  | ClientObj proto cs =>
      if has_key key cs then false
      else match proto with
           | Some p => read_only_in p key
           | None => false
           end
  end.

(** [client[key] = c], the value being a function or an object, in strict
    mode.  The client starts empty and gets its properties by this
    assignment only, so it has no own property [__proto__]: that name
    reaches the setter of [Object.prototype], which makes [c] the
    prototype.  An assignment to a name inherited read-only from a function
    is a TypeError.  Elsewhere the own property is defined. *)
Definition client_assign (key : string) (c : Client) (client : ClientState)
  : Res ClientState :=
  if String.eqb key proto_key && negb (has_key proto_key (snd client))
  then Ok (Some c, snd client)
  else if negb (has_key key (snd client))
          && match fst client with
             | Some p => read_only_in p key
             | None => false
             end
  then Err (TypeError "Cannot assign to read only property")
  else Ok (fst client, obj_define key c (snd client)).

(** The request a leaf call constructs. *)
Record HttpClientRequest : Type := mkRequest {
  url : string;
  method : string;
  route : JsValue;
  baseOptions : JsValue
}.

(* ================================================================== *)
(** ** The program, over its environment *)
(* ================================================================== *)

Section Program.

(** What calling the function [id] with receiver [this] and one argument
    results in (a value, or the error thrown or rejected with). *)
Variable call_fn : FunId -> JsValue -> JsValue -> Res JsValue.

(** The transport: [None] is the ambient [fetch], [Some id] a configured one. *)
Variable transport : option FunId -> string -> RequestInit -> Res Response.

(** [JSON.parse] and [JSON.stringify]. *)
Variable JSON_parse : string -> Res JsValue.
Variable JSON_stringify : JsValue -> string.

(** A call [f.call(this, arg)] of a value: a TypeError unless it is a function. *)
Definition call_value (f this arg : JsValue) : Res JsValue :=
  match f with
  | JFun id _ => call_fn id this arg
  | _ => Err (TypeError "not a function")
  end.

(* ------------------------------------------------------------------ *)
(** *** client-utils.ts : getContentType, serializeBody *)

Definition getContentType (body : JsValue) : option string :=
  match body with
  | JStr s =>
      match JSON_parse s with
      | Ok _ => Some "application/json"
      | Err _ => Some "text/plain"
      end
  | JFormData _ => None
  | JURLSearchParams _ => Some "application/x-www-form-urlencoded"
  | _ => if isObject body then Some "application/json" else None
  end.

Definition serializeBody (body : JsValue) : JsValue :=
  match body with
  | JUndefined | JNull => JUndefined
  | JStr _ | JFormData _ | JURLSearchParams _ | JBlob _ | JArrayBuffer _ => body
  | _ =>
      if isObject body || Array_isArray body
      then JStr (JSON_stringify body)
      else JStr (ToString body)
  end.

(* ------------------------------------------------------------------ *)
(** *** libs/parser.ts : createParseFn *)

Definition ParseFn : Type := JsValue -> Res JsValue.

(** [typeof parser.name === "function"], with the function found. *)
Definition method_of (parser : JsValue) (name : string) : option FunId :=
  match get_prop parser name with
  | Ok (JFun id _) => Some id
  | _ => None
  end.

(** [f.bind(parser)] *)
Definition bound (id : FunId) (parser : JsValue) : ParseFn :=
  fun value => call_fn id parser value.

(** The parse function of the Standard Schema branch. *)
Definition standard_parse (parser : JsValue) : ParseFn :=
  fun value =>
    std <~ get_prop parser "~standard" ;;
    validate <~ get_prop std "validate" ;;
    result <~ call_value validate std value ;;
    issues <~ get_prop result "issues" ;;
    if truthy issues then Err (StandardSchemaV1Error issues)
    else get_prop result "value".

Definition createParseFn (schema : JsValue) : Res ParseFn :=
  match schema with
  | JNull => Ok (fun value => Ok value)
  | parser =>
      isStandardSchema <~ prop_in "~standard" parser ;;
      match parser, method_of parser "assert" with
      | JFun _ _, Some assert => Ok (bound assert parser)            (* ArkType *)
      | _, _ =>
      match parser, isStandardSchema with
      | JFun id _, false => Ok (fun value => call_fn id JUndefined value)
      | _, _ =>
      match method_of parser "parseAsync" with
      | Some f => Ok (bound f parser)
      | None =>
      match method_of parser "parse" with
      | Some f => Ok (bound f parser)
      | None =>
      match method_of parser "validateSync" with
      | Some f => Ok (bound f parser)
      | None =>
      match method_of parser "create" with
      | Some f => Ok (bound f parser)
      | None =>
      match method_of parser "assert" with
      | Some f => Ok (fun value => _ <~ call_fn f parser value ;; Ok value)
      | None =>
      if isStandardSchema then Ok (standard_parse parser)
      else Err (PlainError "Could not find a compatible parser method")
      end end end end end end end
  end.

(* ------------------------------------------------------------------ *)
(** *** client.ts : HttpClientRequest *)

Definition constructor (baseUrl route baseOptions : JsValue) : Res HttpClientRequest :=
  let baseOptions := default_param baseOptions (JObj []) in
  path <~ get_prop route "path" ;;
  match baseUrl, path with
  | JStr base, JStr path =>
      let url := mergePath base path in
      m <~ get_prop route "method" ;;
      match m with
      | JStr m => Ok (mkRequest url (Str.toUpperCase m) route baseOptions)
      | _ => Err (TypeError "route.method.toUpperCase is not a function")
      end
  | _, _ => Err (TypeError "replace is not a function")
  end.

(** [this.route.request?.slot] *)
Definition declared_validator (this : HttpClientRequest) (slot : string) : Res JsValue :=
  request <~ get_prop (route this) "request" ;;
  if is_nullish request then Ok JUndefined else get_prop request slot.

(** One of the four blocks of [validateRequest]; they differ in the slot
    name only. *)
Definition validateSlot (this : HttpClientRequest) (args : JsValue) (slot : string)
  (processedArgs : Fields) : Res Fields :=
  schema <~ declared_validator this slot ;;
  arg <~ get_prop args slot ;;
  if truthy schema && negb (is_undefined arg) then
    validator <~ createParseFn schema ;;
    v <~ validator arg ;;
    Ok (obj_set slot v processedArgs)
  else if truthy arg then
    Ok (obj_set slot arg processedArgs)
  else Ok processedArgs.

Definition validateRequest (this : HttpClientRequest) (args : JsValue) : Res JsValue :=
  let processedArgs : Fields := [] in
  processedArgs <~ validateSlot this args "params" processedArgs ;;
  processedArgs <~ validateSlot this args "query" processedArgs ;;
  processedArgs <~ validateSlot this args "body" processedArgs ;;
  processedArgs <~ validateSlot this args "headers" processedArgs ;;
  Ok (JObj processedArgs).

(** [response.clone()]: a TypeError when the body has been read already,
    else a response of the same status and body.  [.json()] reads the body
    of the clone. *)
Definition clone (response : Response) : Res Response :=
  if bodyUsed response then Err (TypeError "Response body is already used")
  else Ok response.
Definition json (response : Response) : Res JsValue := JSON_parse (body_text response).

Definition validateResponse (this : HttpClientRequest) (response : Response) : M Response :=
  let statusCode := Str.of_Z (status response) in
  responses <- lift (get_prop (route this) "responses") ;;
  responseDefinition <- lift (get_prop responses statusCode) ;;
  _ <- (if truthy responseDefinition && typeof_is responseDefinition "object"
           && truthy (field responseDefinition "schema")
        then
          clonedResponse <- lift (clone response) ;;
          try_catch
            (responseData <- lift (json clonedResponse) ;;
             validator <- lift (createParseFn (field responseDefinition "schema")) ;;
             _ <- lift (validator responseData) ;;
             ret tt)
            (fun error => console_warn error)
        else ret tt) ;;
  ret response.

(** Lines 51-65 of [execute]: URL parameters, then the query string. *)
Definition buildUrl (this : HttpClientRequest) (processedArgs : JsValue) : Res string :=
  let finalUrl := url this in
  params <~ get_prop processedArgs "params" ;;
  finalUrl <~ (if truthy params then replaceUrlParams finalUrl params else Ok finalUrl) ;;
  query <~ get_prop processedArgs "query" ;;
  if truthy query then
    searchParams <~ buildSearchParams query ;;
    if negb (String.eqb (usp_toString searchParams) "") then
      Ok (finalUrl ++ (if Str.includes "?" finalUrl then "&" else "?")
                   ++ usp_toString searchParams)
    else Ok finalUrl
  else Ok finalUrl.

Definition set_all (entries : Fields) (headers : Headers) : Headers :=
  List.fold_left (fun h kv => headers_set (fst kv) (snd kv) h) entries headers.

(** Lines 78-80: the configured headers, a producer being called and awaited. *)
Definition optionsHeaders (mergedOptions : JsValue) : Res JsValue :=
  h <~ get_prop mergedOptions "headers" ;;
  if typeof_is h "function" then call_value h mergedOptions JUndefined else Ok h.

(** Lines 67-86 of [execute]: request headers first, configured headers next. *)
Definition prepareHeaders (processedArgs mergedOptions : JsValue) : Res Headers :=
  let headers : Headers := [] in
  requestHeaders <~ get_prop processedArgs "headers" ;;
  headers <~ (if truthy requestHeaders
              then entries <~ Object_entries requestHeaders ;; Ok (set_all entries headers)
              else Ok headers) ;;
  optionsHeaders <~ optionsHeaders mergedOptions ;;
  if truthy optionsHeaders
  then entries <~ Object_entries optionsHeaders ;; Ok (set_all entries headers)
  else Ok headers.

(** Lines 88-102 of [execute]: the body and the inferred Content-Type. *)
Definition prepareBody (this : HttpClientRequest) (processedArgs : JsValue)
  (headers : Headers) : Res (JsValue * Headers) :=
  let shouldHaveBody :=
    negb (existsb (String.eqb (method this)) ["GET"; "HEAD"]) in
  b <~ get_prop processedArgs "body" ;;
  if shouldHaveBody && negb (is_undefined b) then
    let body := serializeBody b in
    if negb (headers_has "Content-Type" headers) then
      match getContentType b with
      | Some contentType =>
          if negb (String.eqb contentType "")
          then Ok (body, headers_set "Content-Type" (JStr contentType) headers)
          else Ok (body, headers)
      | None => Ok (body, headers)
      end
    else Ok (body, headers)
  else Ok (JUndefined, headers).

(** Lines 104-111 of [execute]: [mergedOptions.fetch || fetch], called on
    the URL and the descriptor. *)
Definition dispatch (mergedOptions : JsValue) (finalUrl : string)
  (methodName : string) (headers : Headers) (body : JsValue) : M Response :=
  fetchOpt <- lift (get_prop mergedOptions "fetch") ;;
  init <- lift (get_prop mergedOptions "init") ;;
  let descriptor := request_init methodName headers body init in
  match fetchOpt with
  | JFun id _ =>
      fun w => (transport (Some id) finalUrl descriptor,
                mkWorld (fetch_log w ++ [(Some id, finalUrl, descriptor)])%list (warn_log w))
  | other =>
      if truthy other then throw (TypeError "fetchFn is not a function")
      else
      fun w => (transport None finalUrl descriptor,
                mkWorld (fetch_log w ++ [(None, finalUrl, descriptor)])%list (warn_log w))
  end.

Definition execute (this : HttpClientRequest) (args options : JsValue) : M Response :=
  let args := default_param args (JObj []) in
  let options := default_param options (JObj []) in
  let mergedOptions := deepMerge (baseOptions this) options in
  processedArgs <- lift (validateRequest this args) ;;
  finalUrl <- lift (buildUrl this processedArgs) ;;
  headers <- lift (prepareHeaders processedArgs mergedOptions) ;;
  bh <- lift (prepareBody this processedArgs headers) ;;
  response <- dispatch mergedOptions finalUrl (method this) (snd bh) (fst bh) ;;
  validatedResponse <- validateResponse this response ;;
  ret validatedResponse.

(* ------------------------------------------------------------------ *)
(** *** client.ts : the client tree *)

(** [createEndpoint] returns the closure [Endpoint baseUrl route baseOptions];
    [call_endpoint] is what invoking it does. *)
Definition createEndpoint (baseUrl route baseOptions : JsValue) : Client :=
  Endpoint baseUrl route (default_param baseOptions (JObj [])).


Definition isRouteDefinition (value : JsValue) : bool :=
  isObject value
  && typeof_is (field value "path") "string"
  && typeof_is (field value "method") "string"
  && typeof_is (field value "responses") "object".

(** One round of the loop of [createClientFromRouteMap]; [rec] is the
    recursive call on the value. *)
Definition client_step (rec : Res Client) (baseUrl baseOptions : JsValue)
  (key : string) (value : JsValue) (client : ClientState) : Res ClientState :=
  if isRouteDefinition value then
    client_assign key (createEndpoint baseUrl value baseOptions) client
  else if isObject value then
    sub <~ rec ;; client_assign key sub client
  else Ok client.

Fixpoint createClientFromRouteMap (routeMap baseUrl baseOptions : JsValue)
  {struct routeMap} : Res Client :=
  let baseOptions := default_param baseOptions (JObj []) in
  match routeMap with
  | JUndefined | JNull => Err (TypeError "Cannot convert undefined or null to object")
  | JObj fs | JProto _ fs | JFun _ fs =>
      client <~
        (fix loop (src : Fields) (client : ClientState) :=
           match src with
           | [] => Ok client
           | (key, value) :: src' =>
               client <~ client_step (createClientFromRouteMap value baseUrl baseOptions)
                           baseUrl baseOptions key value client ;;
               loop src' client
           end) fs (None, []) ;;
      Ok (ClientObj (fst client) (snd client))
  | JArr items =>
      client <~
        (fix loop (i : nat) (src : list JsValue) (client : ClientState) :=
           match src with
           | [] => Ok client
           | value :: src' =>
               client <~ client_step (createClientFromRouteMap value baseUrl baseOptions)
                           baseUrl baseOptions (Str.of_nat i) value client ;;
               loop (S i) src' client
           end) 0%nat items (None, []) ;;
      Ok (ClientObj (fst client) (snd client))
  | _ => Ok (ClientObj None [])
  end.

(** [httpClient(routeMap, config = {})] *)
Definition httpClient (routeMap config : JsValue) : Res Client :=
  let config := default_param config (JObj []) in
  baseUrl <~ get_prop config "baseUrl" ;;
  let baseUrl := default_param baseUrl (JStr "") in
  headers <~ get_prop config "headers" ;;
  fetch <~ get_prop config "fetch" ;;
  let requestInit :=
    List.filter
      (fun kv => negb (existsb (String.eqb (fst kv)) ["baseUrl"; "headers"; "fetch"]))
      (enumerable_entries config) in
  let baseOptions :=
    JObj [("headers", headers); ("fetch", fetch); ("init", JObj requestInit)] in
  createClientFromRouteMap routeMap baseUrl baseOptions.

End Program.

(* ================================================================== *)
(** ** Vocabulary of the statements *)
(* ================================================================== *)

(** *** Well-formed objects *)

Fixpoint distinct (l : list string) : bool :=
  match l with
  | [] => true
  | x :: l' => negb (existsb (String.eqb x) l') && distinct l'
  end.

(** The property names of a JavaScript object are pairwise different. *)
Definition distinct_keys {A : Type} (fs : list (string * A)) : bool :=
  distinct (keys fs).

(** The names are listed in property order: no name would have gone before
    an earlier one. *)
Fixpoint property_order (ks : list string) : bool :=
  match ks with
  | [] => true
  | k :: ks' => forallb (fun k' => negb (goes_before k' k)) ks' && property_order ks'
  end.

(** *** Path templates *)

Definition ends_with_slash (s : string) : bool :=
  match Str.last s with Some c => Ascii.eqb c Str.slash | None => false end.

Definition starts_with_slash (s : string) : bool :=
  match Str.head s with Some c => Ascii.eqb c Str.slash | None => false end.

(** A path template cut into pieces: literal text and [:name] placeholders. *)
Inductive Piece : Type :=
| Text (s : string)
| Hole (name : string).

Definition render_piece (p : Piece) : string :=
  match p with
  | Text s => s
  | Hole name => String Str.colon name
  end.

Fixpoint render (t : list Piece) : string :=
  match t with
  | [] => ""
  | p :: t' => render_piece p ++ render t'
  end.

(** Code units that end a placeholder name or start another placeholder. *)
Definition stop_char (c : ascii) : bool := Ascii.eqb c Str.colon || is_boundary c.

(** A name a placeholder or a params key can have: free of stop characters
    and of regular-expression metacharacters. *)
Definition no_stop (s : string) : bool := Str.all (fun c => negb (stop_char c)) s.

Definition plain_name (name : string) : bool := no_stop name && regex_literal name.

Definition plain_keys (params : Fields) : bool :=
  forallb (fun kv => plain_name (fst kv)) params.

(** Literal text holds no colon; the name of a placeholder holds no stop
    character and the placeholder is bounded on the right by [/], [?], [#]
    or the end of the template. *)
Fixpoint well_formed (t : list Piece) : bool :=
  match t with
  | [] => true
  | Text s :: t' => negb (Str.includes Str.colon s) && well_formed t'
  | Hole name :: t' => no_stop name && lookahead (render t') && well_formed t'
  end.

(** The code units of [t] before its first stop character, and the rest. *)
Fixpoint name_prefix (t : string) : string :=
  match t with
  | EmptyString => EmptyString
  | String c t' => if stop_char c then EmptyString else String c (name_prefix t')
  end.

Fixpoint name_rest (t : string) : string :=
  match t with
  | EmptyString => EmptyString
  | String c t' => if stop_char c then t else name_rest t'
  end.

Definition cons_text (c : ascii) (ps : list Piece) : list Piece :=
  match ps with
  | Text t :: more => Text (String c t) :: more
  | _ => Text (String c "") :: ps
  end.

Definition cons_hole (ps : list Piece) : list Piece :=
  match ps with
  | Text t :: more => Hole (name_prefix t) :: Text (name_rest t) :: more
  | _ => Hole "" :: ps
  end.

(** The pieces of a URL string: every colon starts a placeholder, named by
    the code units up to the next stop character (the colon of [https://]
    starts a placeholder of empty name). *)
Fixpoint pieces (s : string) : list Piece :=
  match s with
  | EmptyString => []
  | String c s' =>
      if Ascii.eqb c Str.colon then cons_hole (pieces s') else cons_text c (pieces s')
  end.

(** Every placeholder of [s] is bounded on the right: behind each colon,
    the name (the code units up to the next stop character) is followed by
    [/], [?], [#] or the end of the string, not by another colon. *)
Fixpoint placeholders_bounded (s : string) : bool :=
  match s with
  | EmptyString => true
  | String c s' =>
      (if Ascii.eqb c Str.colon then lookahead (name_rest s') else true)
      && placeholders_bounded s'
  end.

(** In the pieces of a string a text is followed by a placeholder or by
    nothing. *)
Fixpoint alternating (ps : list Piece) : bool :=
  match ps with
  | Text _ :: ((Text _ :: _) as ps') => false
  | _ :: ps' => alternating ps'
  | [] => true
  end.

(** The value params gives a name: the first entry of that name that is
    not [undefined]. *)
Fixpoint param_value (name : string) (params : Fields) : option JsValue :=
  match params with
  | [] => None
  | (k, v) :: params' =>
      if String.eqb k name && negb (is_undefined v) then Some v
      else param_value name params'
  end.

(** Substitution keyed by name: every placeholder that params gives a value
    becomes that value, percent-encoded. *)
Definition fill_piece (params : Fields) (p : Piece) : Piece :=
  match p with
  | Text s => Text s
  | Hole name =>
      match param_value name params with
      | Some v => Text (encodeURIComponent v)
      | None => Hole name
      end
  end.

Definition fill (params : Fields) (t : list Piece) : list Piece :=
  List.map (fill_piece params) t.

(** The suffixes of a string, the string itself first. *)
Fixpoint suffixes (s : string) : list string :=
  match s with
  | EmptyString => [EmptyString]
  | String _ s' => s :: suffixes s'
  end.

(** [:key], bounded on the right, occurs somewhere in [s]. *)
Definition occurs_bounded (key s : string) : bool :=
  existsb (param_match key) (suffixes s).

(** *** Query strings *)

(** The pairs of a query object in the specification's words: nothing for
    [undefined] and [null], one pair per element for an array, one pair
    with the stringified value otherwise. *)
Definition query_pairs_per_element (entries : Fields) : list (string * string) :=
  List.flat_map
    (fun kv =>
       match snd kv with
       | JUndefined | JNull => []
       | JArr items => List.map (fun item => (fst kv, ToString item)) items
       | v => [(fst kv, ToString v)]
       end) entries.

(** The same with the elements of an array that are [undefined] or [null]
    left out. *)
Definition query_pairs (entries : Fields) : list (string * string) :=
  List.flat_map
    (fun kv =>
       match snd kv with
       | JUndefined | JNull => []
       | JArr items =>
           List.map (fun item => (fst kv, ToString item))
             (List.filter (fun item => negb (is_nullish item)) items)
       | v => [(fst kv, ToString v)]
       end) entries.

(** Appending a query string to a URL. *)
Definition with_query (u qs : string) : string :=
  if String.eqb qs "" then u
  else u ++ (if Str.includes "?" u then "&" else "?") ++ qs.

(** *** Route maps *)

Definition http_methods : list string := ["post"; "get"; "put"; "delete"; "patch"].

(** A value of the type [HttpRouteDefinition], as far as a run can tell. *)
Definition is_HttpRouteDefinition (v : JsValue) : bool :=
  match v with
  | JObj fs =>
      match lookup "path" fs, lookup "method" fs, lookup "responses" fs with
      | Some (JStr _), Some (JStr m), Some (JObj _) => existsb (String.eqb m) http_methods
      | _, _, _ => false
      end
  | _ => false
  end.

(** A value of the type [RouteMap]: an object each of whose values is a
    route definition or a route map. *)
Fixpoint is_RouteMap (v : JsValue) : bool :=
  match v with
  | JObj fs =>
      distinct_keys fs
      && forallb (fun kv => is_HttpRouteDefinition (snd kv) || is_RouteMap (snd kv)) fs
  | _ => false
  end.

(** The mirror image of a route map: an endpoint for a route definition, a
    sub-tree for a nested map, under the same keys in the same order. *)
Fixpoint mirror (baseUrl baseOptions : JsValue) (routeMap : JsValue) : Client :=
  match routeMap with
  | JObj fs =>
      ClientObj None
        (List.map
           (fun kv =>
              (fst kv,
               if is_HttpRouteDefinition (snd kv)
               then Endpoint baseUrl (snd kv) baseOptions
               else mirror baseUrl baseOptions (snd kv))) fs)
  | _ => ClientObj None []
  end.

(** The image of a value of a route map, and of one entry. *)
Definition image (baseUrl baseOptions : JsValue) (v : JsValue) : Client :=
  if is_HttpRouteDefinition v
  then Endpoint baseUrl v baseOptions
  else mirror baseUrl baseOptions v.

Definition mirror_entry (baseUrl baseOptions : JsValue) (kv : string * JsValue)
  : string * Client :=
  (fst kv, image baseUrl baseOptions (snd kv)).

(** What a tree holds at a path of keys. *)
Fixpoint route_at (path : list string) (v : JsValue) : option JsValue :=
  match path with
  | [] => Some v
  | k :: path' =>
      match v with
      | JObj fs =>
          if is_HttpRouteDefinition v then None
          else match lookup k fs with
               | Some x => route_at path' x
               | None => None
               end
      | _ => None
      end
  end.

(** A property of a client, its own or inherited from a prototype that
    was set. *)
Fixpoint client_property (c : Client) (k : string) : option Client :=
  match c with
  | Endpoint _ _ _ => None
  | ClientObj proto cs =>
      match lookup k cs with
      | Some x => Some x
      | None =>
          match proto with
          | Some p => client_property p k
          | None => None
          end
      end
  end.

(** The property read [c[k]], as far as it gives a part of the client
    tree: a property of the client, else, under the name [__proto__], the
    prototype that was set. *)
Definition client_get (c : Client) (k : string) : option Client :=
  match client_property c k with
  | Some x => Some x
  | None =>
      match c with
      | ClientObj (Some p) _ => if String.eqb k proto_key then Some p else None
      | _ => None
      end
  end.

Fixpoint client_at (path : list string) (c : Client) : option Client :=
  match path with
  | [] => Some c
  | k :: path' =>
      match client_get c k with
      | Some x => client_at path' x
      | None => None
      end
  end.

(** A condition on the properties of a route map that holds at every level
    of it. *)
Fixpoint every_level (p : Fields -> bool) (v : JsValue) : bool :=
  match v with
  | JObj fs =>
      if is_HttpRouteDefinition v then true
      else p fs && forallb (fun kv => every_level p (snd kv)) fs
  | _ => true
  end.

(** No key of the route map, at any level, is [__proto__]. *)
Definition proto_free (routeMap : JsValue) : bool :=
  every_level (fun fs => negb (has_key proto_key fs)) routeMap.

(** No property of the object, at any depth, is named [__proto__]. *)
Fixpoint no_proto_key (v : JsValue) : bool :=
  match v with
  | JObj fs | JProto _ fs =>
      negb (has_key proto_key fs) && forallb (fun kv => no_proto_key (snd kv)) fs
  | _ => true
  end.

(** The keys of the route map are listed in property order at every level. *)
Definition in_property_order (routeMap : JsValue) : bool :=
  every_level (fun fs => property_order (keys fs)) routeMap.

(** *** Validators *)

(** The validator reaches the last branch of [createParseFn]: it is not the
    null marker, it carries the [~standard] marker, and none of the five
    method names is a function on it. *)
Definition standard_convention (schema : JsValue) : bool :=
  negb (match schema with JNull => true | _ => false end)
  && match prop_in "~standard" schema with Ok true => true | _ => false end
  && forallb
       (fun name => match get_prop schema name with Ok (JFun _ _) => false | _ => true end)
       ["parseAsync"; "parse"; "validateSync"; "create"; "assert"].

(** The four request slots, in the order [validateRequest] handles them. *)
Definition slots : list string := ["params"; "query"; "body"; "headers"].

(** The slots handled before [slot]. *)
Fixpoint before (slot : string) (l : list string) : list string :=
  match l with
  | [] => []
  | x :: l' => if String.eqb x slot then [] else x :: before slot l'
  end.

Definition earlier (slot : string) : list string := before slot slots.

(** The validator declared for [slot] is run on the supplied value and
    throws (or rejects with) [e]. *)
Definition validator_throws (call_fn : FunId -> JsValue -> JsValue -> Res JsValue)
  (this : HttpClientRequest) (args : JsValue)
  (slot : string) (e : JsError) : Prop :=
  exists schema arg parse,
    declared_validator this slot = Ok schema
    /\ truthy schema = true
    /\ get_prop args slot = Ok arg
    /\ is_undefined arg = false
    /\ createParseFn call_fn schema = Ok parse
    /\ parse arg = Err e.

(** The block of [slot] ends in an error. *)
Definition slot_fails (call_fn : FunId -> JsValue -> JsValue -> Res JsValue)
  (this : HttpClientRequest) (args : JsValue) (slot : string) : bool :=
  match validateSlot call_fn this args slot [] with
  | Ok _ => false
  | Err _ => true
  end.

(** The outcome of the [try] block of [validateResponse], on the clone of
    the response. *)
Definition response_check (call_fn : FunId -> JsValue -> JsValue -> Res JsValue)
  (JSON_parse : string -> Res JsValue) (schema : JsValue) (response : Response) : Res JsValue :=
  rbind (json JSON_parse response) (fun responseData =>
  rbind (createParseFn call_fn schema) (fun validator =>
  validator responseData)).

(** What the block of [slot] assigns to the processed arguments, if it
    assigns anything. *)
Definition slot_value (call_fn : FunId -> JsValue -> JsValue -> Res JsValue)
  (this : HttpClientRequest) (args : JsValue) (slot : string) : Res (option JsValue) :=
  schema <~ declared_validator this slot ;;
  arg <~ get_prop args slot ;;
  if truthy schema && negb (is_undefined arg) then
    validator <~ createParseFn call_fn schema ;;
    v <~ validator arg ;;
    Ok (Some v)
  else if truthy arg then Ok (Some arg)
  else Ok None.

(** *** Dispatch *)

(** The options in effect for a call: the per-call options merged over the
    instance-level ones. *)
Definition merged_options (this : HttpClientRequest) (options : JsValue) : JsValue :=
  deepMerge (baseOptions this) (default_param options (JObj [])).

(** The transport that [mergedOptions.fetch || fetch] selects: the
    configured function, or the ambient one ([None]) for a falsy value;
    a truthy value that is no function selects nothing, it cannot be
    called. *)
Definition fetch_used (fetchOpt : JsValue) : option (option FunId) :=
  match fetchOpt with
  | JFun id _ => Some (Some id)
  | other => if truthy other then None else Some None
  end.


(** *** A sample environment *)

Module Sample.

(** Function 1 returns its argument, function 2 throws it, function 3 is a
    Standard Schema [validate] that reports an empty issue list, function 4
    produces the header map [{A: "2"}], function 5 is a Standard Schema
    [validate] that accepts its argument. *)
Definition call_fn (id : FunId) (this arg : JsValue) : Res JsValue :=
  match id with
  | 1%nat => Ok arg
  | 2%nat => Err (Thrown arg)
  | 3%nat => Ok (JObj [("issues", JArr []); ("value", arg)])
  | 4%nat => Ok (JObj [("A", JStr "2")])
  | 5%nat => Ok (JObj [("value", arg)])
  | _ => Ok JUndefined
  end.

Definition transport (f : option FunId) (u : string) (init : RequestInit) : Res Response :=
  Ok (mkResponse 200 "not json" false).

Definition JSON_parse (s : string) : Res JsValue :=
  if String.eqb s "{}" then Ok (JObj []) else Err (SyntaxError "Unexpected token").

Definition JSON_stringify (v : JsValue) : string :=
  match v with
  | JArr [] => "[]"
  | JObj [] => "{}"
  | _ => "[1]"
  end.

Definition identity_validator : JsValue := JFun 1 [].
Definition rejecting_validator : JsValue := JFun 2 [].
Definition standard_validator : JsValue :=
  JObj [("~standard", JObj [("version", JNum 1); ("validate", JFun 3 [])])].
Definition accepting_standard_validator : JsValue :=
  JObj [("~standard", JObj [("version", JNum 1); ("validate", JFun 5 [])])].

Definition route (method : string) (request : Fields) (responses : Fields) : JsValue :=
  JObj [("path", JStr "/users/:id"); ("method", JStr method);
        ("request", JObj request); ("responses", JObj responses)].

Definition request (method : string) (request : Fields) (responses : Fields)
  (baseOptions : JsValue) : HttpClientRequest :=
  mkRequest "https://api.example.com/users/:id" (Str.toUpperCase method)
    (route method request responses) baseOptions.

Definition world0 : World := mkWorld [] [].

End Sample.

(* ================================================================== *)
(** ** Vocabulary of the further properties *)
(* ================================================================== *)

(** The number of code units of [s] that satisfy [p]. *)
Fixpoint count (p : ascii -> bool) (s : string) : nat :=
  match s with
  | EmptyString => O
  | String c s' => (if p c then 1 else 0) + count p s'
  end.

(** The method names [createParseFn] tries on a validator, in its order,
    before [assert] and the Standard Schema marker. *)
Definition method_order : list string := ["parseAsync"; "parse"; "validateSync"; "create"].

(** The first of [names] that is a function on [parser]. *)
Fixpoint first_method (parser : JsValue) (names : list string) : option FunId :=
  match names with
  | [] => None
  | name :: names' =>
      match method_of parser name with
      | Some f => Some f
      | None => first_method parser names'
      end
  end.

(** A value [createClientFromRouteMap] gives a key to. *)
Definition qualifies (value : JsValue) : bool :=
  isRouteDefinition value || isObject value.

(** Plain data: objects with pairwise different keys all the way down, no
    object with a prototype of its own and no platform object (FormData,
    URLSearchParams, Blob, ArrayBuffer) among the values of an object. *)
Fixpoint plain_data (v : JsValue) : bool :=
  match v with
  | JObj fs => distinct_keys fs && forallb (fun kv => plain_data (snd kv)) fs
  | JProto _ _ | JFormData _ | JURLSearchParams _ | JBlob _ | JArrayBuffer _ => false
  | _ => true
  end.

Definition is_array_index (k : string) : bool :=
  match array_index k with Some _ => true | None => false end.

(** The loop of [deepMerge] over the entries of an object source: one round. *)
Definition merge_entry (merged : Obj) (kv : string * JsValue) : Obj :=
  deepMerge_step (fun cur => deepMerge cur (snd kv)) (fst kv) (snd kv) merged.

(** What [deepMerge] leaves under a key the source sets to [v], the target
    holding [cur] there. *)
Definition merged_value (cur v : JsValue) : JsValue :=
  if isObject cur && isObject v then deepMerge cur v else v.


Module Sample2.

(** A transport that fails, as [fetch] does when the network is down. *)
Definition failing_transport (f : option FunId) (u : string) (init : RequestInit)
  : Res Response :=
  Err (TypeError "Failed to fetch").

(** A transport whose response has been read before it is handed over. *)
Definition consumed_transport (f : option FunId) (u : string) (init : RequestInit)
  : Res Response :=
  Ok (mkResponse 200 "{}" true).

(** A validator object in the style of Zod: [parse], [parseAsync] and the
    Standard Schema marker at once. *)
Definition zod_like : JsValue :=
  JObj [("parse", JFun 2 []); ("parseAsync", JFun 1 []);
        ("~standard", JObj [("version", JNum 1); ("validate", JFun 3 [])])].

End Sample2.

(* ================================================================== *)
(** ** Properties: strings *)
(* ================================================================== *)

Lemma append_nil_r (s : string) : s ++ "" = s.
Proof. induction s; simpl; congruence. Qed.

Lemma append_assoc (a b c : string) : (a ++ b) ++ c = a ++ (b ++ c).
Proof. induction a; simpl; congruence. Qed.

Lemma append_length (a b : string) :
  String.length (a ++ b) = (String.length a + String.length b)%nat.
Proof. induction a; simpl; congruence. Qed.

Lemma repeat_length (c : ascii) (n : nat) : String.length (Str.repeat c n) = n.
Proof. induction n; simpl; congruence. Qed.

Lemma all_append (p : ascii -> bool) (a b : string) :
  Str.all p (a ++ b) = Str.all p a && Str.all p b.
Proof. induction a; simpl; [reflexivity | rewrite IHa, andb_assoc; reflexivity]. Qed.

Lemma any_append (p : ascii -> bool) (a b : string) :
  Str.any p (a ++ b) = Str.any p a || Str.any p b.
Proof. induction a; simpl; [reflexivity | rewrite IHa, orb_assoc; reflexivity]. Qed.

Lemma last_cons (c : ascii) (s : string) :
  s <> "" -> Str.last (String c s) = Str.last s.
Proof. destruct s; [congruence | reflexivity]. Qed.

(* ================================================================== *)
(** ** Properties: mergePath *)
(* ================================================================== *)

Lemma strip_leading_slashes_run (n : nat) (p : string) :
  starts_with_slash p = false ->
  strip_leading_slashes (Str.repeat Str.slash n ++ p) = p.
Proof.
  intros Hp. induction n as [|n IH]; simpl.
  - destruct p as [|c p]; [reflexivity|].
    unfold starts_with_slash in Hp. simpl in Hp. simpl. now rewrite Hp.
  - exact IH.
Qed.

Lemma slashes_to_end_run (n : nat) :
  slashes_to_end (Str.repeat Str.slash (S n)) = true.
Proof.
  unfold slashes_to_end. cbn [Str.repeat].
  induction n as [|n IH]; [reflexivity | exact IH].
Qed.

Lemma not_all_slashes (b r : string) :
  b <> "" -> ends_with_slash b = false ->
  Str.all (Ascii.eqb Str.slash) (b ++ r) = false.
Proof.
  intros Hne He. rewrite all_append.
  enough (H : Str.all (Ascii.eqb Str.slash) b = false) by now rewrite H.
  induction b as [|c b IH]; [congruence|].
  destruct b as [|c' b].
  - unfold ends_with_slash in He. cbn [Str.last] in He.
    cbn [Str.all]. rewrite Ascii.eqb_sym, He. reflexivity.
  - change (Str.all (Ascii.eqb Str.slash) (String c (String c' b)))
      with (Ascii.eqb Str.slash c && Str.all (Ascii.eqb Str.slash) (String c' b)).
    rewrite IH; [apply andb_false_r | congruence |].
    unfold ends_with_slash in *. rewrite last_cons in He by congruence. exact He.
Qed.

Lemma strip_trailing_slashes_run (b : string) (m : nat) :
  ends_with_slash b = false ->
  strip_trailing_slashes (b ++ Str.repeat Str.slash m) = b.
Proof.
  induction b as [|c b IH]; intros He.
  - destruct m as [|m]; [reflexivity|].
    cbn [append]. cbn [Str.repeat strip_trailing_slashes].
    change (String Str.slash (Str.repeat Str.slash m)) with (Str.repeat Str.slash (S m)).
    now rewrite slashes_to_end_run.
  - cbn [append strip_trailing_slashes].
    assert (Hs : slashes_to_end (String c (b ++ Str.repeat Str.slash m)) = false).
    { unfold slashes_to_end.
      change (String c (b ++ Str.repeat Str.slash m))
        with (String c b ++ Str.repeat Str.slash m).
      apply not_all_slashes; [congruence | exact He]. }
    rewrite Hs. f_equal. apply IH.
    destruct b as [|c' b]; [reflexivity|].
    unfold ends_with_slash in *. rewrite last_cons in He by congruence. exact He.
Qed.

Lemma mergePath_join (b p : string) (m n : nat) :
  ends_with_slash b = false -> starts_with_slash p = false ->
  mergePath (b ++ Str.repeat Str.slash m) (Str.repeat Str.slash n ++ p) = b ++ "/" ++ p.
Proof.
  intros Hb Hp. unfold mergePath.
  rewrite strip_trailing_slashes_run, strip_leading_slashes_run by assumption.
  apply append_assoc.
Qed.

Lemma repeat_slash_inj (n : nat) (p : string) :
  starts_with_slash p = false ->
  String Str.slash p = Str.repeat Str.slash n ++ p -> n = 1%nat.
Proof.
  intros Hp H.
  assert (L := f_equal String.length H).
  cbn [String.length] in L. rewrite append_length, repeat_length in L. lia.
Qed.

(** C8, amended.  The URL prefix computed when an endpoint's request is
    constructed is the base URL and the path joined with exactly one [/],
    whatever the number of slashes the base URL ends with and the path
    starts with.  With the empty base URL the result is [/] followed by the
    path without its leading slashes; it is the path itself exactly when
    the path starts with one single slash. *)
Theorem mergePath_exactly_one_separator :
  forall (b p : string) (m n : nat),
    ends_with_slash b = false ->
    starts_with_slash p = false ->
    mergePath (b ++ Str.repeat Str.slash m) (Str.repeat Str.slash n ++ p) = b ++ "/" ++ p
    /\ (forall route baseOptions req,
          get_prop route "path" = Ok (JStr (Str.repeat Str.slash n ++ p)) ->
          constructor (JStr (b ++ Str.repeat Str.slash m)) route baseOptions = Ok req ->
          url req = b ++ "/" ++ p)
    /\ mergePath "" (Str.repeat Str.slash n ++ p) = "/" ++ p
    /\ (mergePath "" (Str.repeat Str.slash n ++ p) = Str.repeat Str.slash n ++ p
        <-> n = 1%nat).
Proof.
  intros b p m n Hb Hp.
  assert (J := mergePath_join b p m n Hb Hp).
  assert (E : mergePath "" (Str.repeat Str.slash n ++ p) = "/" ++ p).
  { exact (mergePath_join "" p 0 n eq_refl Hp). }
  split; [exact J|]. split; [|split; [exact E|]].
  - intros route baseOptions req Hpath Hc.
    unfold constructor in Hc. rewrite Hpath in Hc. cbn [rbind] in Hc.
    destruct (get_prop route "method") as [mv|e]; cbn [rbind] in Hc; [|discriminate].
    destruct mv; try discriminate.
    injection Hc as <-. cbn [url]. exact J.
  - rewrite E. split.
    + intros H. apply (repeat_slash_inj n p Hp). exact H.
    + intros ->. reflexivity.
Qed.

Lemma mergePath_exactly_one_separator_witness :
  mergePath "https://api.example.com//" "///users/:id"
  = "https://api.example.com/users/:id".
Proof.
  exact (proj1 (mergePath_exactly_one_separator
                  "https://api.example.com" "users/:id" 2 3 eq_refl eq_refl)).
Defined.

(** C8 as stated fails: with the empty base URL and the path [users] the
    URL of the constructed request is [/users], not the path itself. *)
Lemma mergePath_empty_base_counterexample :
  exists req,
    constructor (JStr "")
      (JObj [("path", JStr "users"); ("method", JStr "get"); ("responses", JObj [])])
      JUndefined = Ok req
    /\ url req = mergePath "" "users"
    /\ url req = "/users"
    /\ url req <> "users".
Proof.
  eexists. split; [reflexivity|]. repeat split. discriminate.
Qed.

(* ================================================================== *)
(** ** Properties: replaceUrlParams *)
(* ================================================================== *)

Lemma replace_scan_skip (key rep a r : string) :
  replace_scan key rep (String.length a) (a ++ r) = replace_scan key rep 0 r.
Proof.
  induction a as [|c a IH]; cbn [String.length append].
  - reflexivity.
  - cbn [replace_scan]. exact IH.
Qed.

Lemma param_match_not_colon (key : string) (c : ascii) (s : string) :
  Ascii.eqb Str.colon c = false -> param_match key (String c s) = false.
Proof.
  intros H. unfold param_match. cbn [strip_prefix]. now rewrite H.
Qed.

Lemma replace_scan_text (key rep a r : string) :
  Str.includes Str.colon a = false ->
  replace_scan key rep 0 (a ++ r) = a ++ replace_scan key rep 0 r.
Proof.
  unfold Str.includes.
  induction a as [|c a IH]; intros H; cbn [append]; [reflexivity|].
  cbn [Str.any] in H. apply orb_false_elim in H as [Hc Ha].
  cbn [replace_scan]. rewrite param_match_not_colon by exact Hc.
  now rewrite IH.
Qed.

Lemma replace_scan_no_occurrence (key rep s : string) :
  occurs_bounded key s = false -> replace_scan key rep 0 s = s.
Proof.
  unfold occurs_bounded.
  induction s as [|c s IH]; intros H; [reflexivity|].
  cbn [suffixes existsb] in H. apply orb_false_elim in H as [Hm Hs].
  cbn [replace_scan]. rewrite Hm. now rewrite IH.
Qed.

Lemma plain_name_no_stop (n : string) : plain_name n = true -> no_stop n = true.
Proof. unfold plain_name. intros H. now apply andb_prop in H as [H _]. Qed.

Lemma no_stop_no_colon (n : string) :
  no_stop n = true -> Str.includes Str.colon n = false.
Proof.
  unfold no_stop, Str.includes.
  induction n as [|c n IH]; intros H; [reflexivity|].
  cbn [Str.all] in H. apply andb_prop in H as [Hc Hn].
  cbn [Str.any]. rewrite IH by exact Hn.
  unfold stop_char in Hc. apply negb_true_iff in Hc.
  apply orb_false_elim in Hc as [Hc _].
  rewrite Ascii.eqb_sym, Hc. reflexivity.
Qed.

Lemma stop_char_boundary (c : ascii) : stop_char c = false -> is_boundary c = false.
Proof. unfold stop_char. intros H. now apply orb_false_elim in H as [_ H]. Qed.

(** At a placeholder, the pattern for [k] matches iff [k] is its name. *)
Lemma match_after_colon (k n r : string) :
  no_stop k = true -> no_stop n = true -> lookahead r = true ->
  match strip_prefix k (n ++ r) with
  | Some rest => lookahead rest
  | None => false
  end = String.eqb k n.
Proof.
  unfold no_stop. revert n.
  induction k as [|a k IH]; intros n Hk Hn Hr.
  - destruct n as [|c n]; cbn [strip_prefix append String.eqb]; [exact Hr|].
    cbn [Str.all] in Hn. apply andb_prop in Hn as [Hc _].
    apply negb_true_iff in Hc. cbn [lookahead]. now apply stop_char_boundary.
  - cbn [Str.all] in Hk. apply andb_prop in Hk as [Ha Hk].
    apply negb_true_iff in Ha.
    destruct n as [|c n]; cbn [strip_prefix append String.eqb].
    + destruct r as [|c r]; [reflexivity|].
      cbn [lookahead] in Hr.
      destruct (Ascii.eqb_spec a c) as [->|]; [|reflexivity].
      apply stop_char_boundary in Ha. congruence.
    + cbn [Str.all] in Hn. apply andb_prop in Hn as [_ Hn].
      destruct (Ascii.eqb a c); [now apply IH | reflexivity].
Qed.

Lemma param_match_hole (k n r : string) :
  no_stop k = true -> no_stop n = true -> lookahead r = true ->
  param_match k (String Str.colon n ++ r) = String.eqb k n.
Proof.
  intros Hk Hn Hr. unfold param_match. cbn [append strip_prefix].
  rewrite Ascii.eqb_refl. now apply match_after_colon.
Qed.

Lemma replace_scan_hole (k rep n r : string) :
  no_stop k = true -> no_stop n = true -> lookahead r = true ->
  replace_scan k rep 0 (String Str.colon n ++ r)
  = if String.eqb k n then rep ++ replace_scan k rep 0 r
    else String Str.colon n ++ replace_scan k rep 0 r.
Proof.
  intros Hk Hn Hr.
  assert (M := param_match_hole k n r Hk Hn Hr).
  cbn [append] in *. cbn [replace_scan]. rewrite M.
  destruct (String.eqb_spec k n) as [->|_].
  - now rewrite replace_scan_skip.
  - now rewrite replace_scan_text by now apply no_stop_no_colon.
Qed.

Lemma encode_uri_char_no_colon (c : ascii) :
  Str.includes Str.colon (encode_uri_char c) = false.
Proof.
  destruct c as [[] [] [] [] [] [] [] []]; reflexivity.
Qed.

Lemma encodeURIComponent_no_colon (v : JsValue) :
  Str.includes Str.colon (encodeURIComponent v) = false.
Proof.
  unfold encodeURIComponent, encodeURIComponent_string, Str.includes.
  induction (ToString v) as [|c s IH]; [reflexivity|].
  cbn [Str.concat_map]. rewrite any_append, IH.
  pose proof (encode_uri_char_no_colon c) as E. unfold Str.includes in E.
  now rewrite E.
Qed.

Lemma lookahead_render_fill (params : Fields) (t : list Piece) :
  lookahead (render t) = true -> lookahead (render (fill params t)) = true.
Proof.
  induction t as [|p t IH]; intros H; [reflexivity|].
  destruct p as [s|n]; cbn [fill List.map fill_piece render render_piece] in *.
  - destruct s as [|c s]; [now apply IH | exact H].
  - cbn [append lookahead] in H. discriminate.
Qed.

Lemma well_formed_fill (params : Fields) (t : list Piece) :
  well_formed t = true -> well_formed (fill params t) = true.
Proof.
  induction t as [|p t IH]; intros H; [reflexivity|].
  destruct p as [s|n]; cbn [fill List.map fill_piece well_formed] in *.
  - apply andb_prop in H as [Hs Ht]. rewrite Hs. now apply IH.
  - apply andb_prop in H as [H Ht]. apply andb_prop in H as [Hn Hl].
    destruct (param_value n params) as [v|]; cbn [well_formed].
    + rewrite encodeURIComponent_no_colon. now apply IH.
    + rewrite Hn. fold (fill params t).
      rewrite (lookahead_render_fill params t Hl). now apply IH.
Qed.

(** One round of the loop on a rendered template is the substitution of
    one name. *)
Lemma replace_param_render (k : string) (v : JsValue) (t : list Piece) :
  plain_name k = true -> is_undefined v = false -> well_formed t = true ->
  replace_param k v (render t) = render (fill [(k, v)] t).
Proof.
  intros Hk Hv. apply plain_name_no_stop in Hk. unfold replace_param.
  induction t as [|p t IH]; intros Ht; [reflexivity|].
  destruct p as [s|n]; cbn [well_formed] in Ht.
  - apply andb_prop in Ht as [Hs Ht]. apply negb_true_iff in Hs.
    cbn [fill List.map fill_piece render render_piece].
    rewrite replace_scan_text by exact Hs. f_equal. now apply IH.
  - apply andb_prop in Ht as [H Ht]. apply andb_prop in H as [Hn Hl].
    cbn [fill List.map fill_piece render render_piece param_value].
    rewrite replace_scan_hole by assumption.
    rewrite Hv. cbn [negb]. rewrite andb_true_r.
    destruct (String.eqb k n); cbn [render_piece]; f_equal; now apply IH.
Qed.

Lemma fill_undefined (k : string) (v : JsValue) (t : list Piece) :
  is_undefined v = true -> fill [(k, v)] t = t.
Proof.
  intros Hv. induction t as [|p t IH]; [reflexivity|].
  cbn [fill List.map]. fold (fill [(k, v)] t). rewrite IH. f_equal.
  destruct p as [s|n]; [reflexivity|].
  cbn [fill_piece param_value]. rewrite Hv. cbn [negb]. now rewrite andb_false_r.
Qed.

Lemma fill_fill (k : string) (v : JsValue) (params : Fields) (t : list Piece) :
  fill params (fill [(k, v)] t) = fill ((k, v) :: params) t.
Proof.
  unfold fill. rewrite List.map_map. apply List.map_ext. intros [s|n]; [reflexivity|].
  cbn [fill_piece param_value].
  destruct (String.eqb k n && negb (is_undefined v)); reflexivity.
Qed.

Lemma replaceUrlParams_render (params : Fields) (t : list Piece) :
  plain_keys params = true -> well_formed t = true ->
  List.fold_left replaceUrlParams_step params (render t) = render (fill params t).
Proof.
  revert t. induction params as [|[k v] params IH]; intros t Hk Ht.
  - cbn [List.fold_left]. unfold fill. rewrite List.map_ext with (g := fun p => p).
    + now rewrite List.map_id.
    + intros [s|n]; reflexivity.
  - cbn [plain_keys forallb fst] in Hk. apply andb_prop in Hk as [Hk Hks].
    cbn [List.fold_left replaceUrlParams_step].
    rewrite <- fill_fill.
    destruct (is_undefined v) eqn:Hv; cbn [negb].
    + rewrite fill_undefined by exact Hv. now apply IH.
    + rewrite replace_param_render by assumption.
      apply IH; [exact Hks | now apply well_formed_fill].
Qed.

Lemma existsb_eqb_In (x : string) (l : list string) :
  existsb (String.eqb x) l = true <-> In x l.
Proof.
  rewrite existsb_exists. split.
  - intros [y [Hy E]]. apply String.eqb_eq in E. now subst.
  - intros H. exists x. split; [exact H | apply String.eqb_refl].
Qed.

Lemma distinct_NoDup (l : list string) : distinct l = true <-> NoDup l.
Proof.
  induction l as [|x l IH]; cbn [distinct].
  - split; [constructor | reflexivity].
  - rewrite andb_true_iff, negb_true_iff, IH. split.
    + intros [Hx Hl]. constructor; [|exact Hl].
      intros Hin. apply existsb_eqb_In in Hin. congruence.
    + intros H. inversion H as [|? ? Hx Hl]; subst. split; [|exact Hl].
      destruct (existsb (String.eqb x) l) eqn:E; [|reflexivity].
      apply existsb_eqb_In in E. contradiction.
Qed.

(** With distinct keys, the value of a name is the entry of that name,
    unless it is [undefined]. *)
Lemma param_value_In (n : string) (v : JsValue) (params : Fields) :
  NoDup (keys params) ->
  (param_value n params = Some v <-> In (n, v) params /\ is_undefined v = false).
Proof.
  induction params as [|[k x] params IH]; intros Hnd.
  - cbn. split; [discriminate | intros [[] _]].
  - cbn [keys List.map fst] in Hnd. inversion Hnd as [|? ? Hk Hnd']; subst.
    cbn [param_value]. destruct (String.eqb_spec k n) as [->|Hkn]; cbn [andb].
    + destruct (is_undefined x) eqn:Hx; cbn [negb].
      * rewrite (IH Hnd'). split.
        -- intros [Hin _]. exfalso. apply Hk.
           change n with (fst (n, v)). now apply List.in_map.
        -- intros [[E|Hin] Hv]; [congruence|].
           exfalso. apply Hk. change n with (fst (n, v)). now apply List.in_map.
      * split.
        -- intros E. injection E as <-. split; [now left | exact Hx].
        -- intros [[E|Hin] _]; [congruence|].
           exfalso. apply Hk. change n with (fst (n, v)). now apply List.in_map.
    + rewrite (IH Hnd'). split.
      * intros [Hin Hv]. split; [now right | exact Hv].
      * intros [[E|Hin] Hv]; [congruence | now split].
Qed.

Lemma param_value_permutation (n : string) (params params' : Fields) :
  NoDup (keys params) -> Permutation params params' ->
  param_value n params = param_value n params'.
Proof.
  intros Hnd Hp.
  assert (Hnd' : NoDup (keys params')).
  { unfold keys. eapply Permutation_NoDup; [|exact Hnd]. now apply Permutation_map. }
  destruct (param_value n params) as [v|] eqn:E1.
  - apply (param_value_In n v params Hnd) in E1 as [Hin Hv].
    symmetry. apply (param_value_In n v params' Hnd').
    split; [eapply Permutation_in; eassumption | exact Hv].
  - destruct (param_value n params') as [v|] eqn:E2; [|reflexivity].
    apply (param_value_In n v params' Hnd') in E2 as [Hin Hv].
    assert (E : param_value n params = Some v).
    { apply (param_value_In n v params Hnd).
      split; [|exact Hv]. eapply Permutation_in; [|exact Hin]. now symmetry. }
    congruence.
Qed.

Lemma fill_permutation (params params' : Fields) (t : list Piece) :
  NoDup (keys params) -> Permutation params params' ->
  fill params t = fill params' t.
Proof.
  intros Hnd Hp. unfold fill. apply List.map_ext. intros [s|n]; [reflexivity|].
  cbn [fill_piece]. now rewrite (param_value_permutation n params params' Hnd Hp).
Qed.

Lemma plain_keys_permutation (params params' : Fields) :
  Permutation params params' -> plain_keys params = true -> plain_keys params' = true.
Proof.
  unfold plain_keys. intros Hp H. rewrite forallb_forall in *.
  intros x Hx. apply H. eapply Permutation_in; [|exact Hx]. now symmetry.
Qed.

Lemma replaceUrlParams_no_occurrence (s : string) (params : Fields) :
  forallb (fun kv => negb (occurs_bounded (fst kv) s)) params = true ->
  List.fold_left replaceUrlParams_step params s = s.
Proof.
  induction params as [|[k v] params IH]; intros H; [reflexivity|].
  cbn [forallb fst] in H. apply andb_prop in H as [Hk Hks].
  apply negb_true_iff in Hk.
  cbn [List.fold_left replaceUrlParams_step].
  destruct (negb (is_undefined v)); [|now apply IH].
  unfold replace_param. rewrite replace_scan_no_occurrence by exact Hk. now apply IH.
Qed.

Lemma name_split (t : string) : name_prefix t ++ name_rest t = t.
Proof.
  induction t as [|c t IH]; [reflexivity|].
  cbn [name_prefix name_rest]. destruct (stop_char c); [reflexivity|].
  cbn [append]. now rewrite IH.
Qed.

(** Cutting a string into pieces loses nothing. *)
Lemma render_pieces (s : string) : render (pieces s) = s.
Proof.
  induction s as [|c s IH]; [reflexivity|].
  cbn [pieces]. destruct (Ascii.eqb_spec c Str.colon) as [->|_].
  - unfold cons_hole. destruct (pieces s) as [|[t|n] more];
      cbn [render render_piece append] in *; try now rewrite IH.
    rewrite <- IH, <- append_assoc, name_split. reflexivity.
  - unfold cons_text. destruct (pieces s) as [|[t|n] more];
      cbn [render render_piece append] in *; now rewrite IH.
Qed.

Lemma alternating_pieces (s : string) : alternating (pieces s) = true.
Proof.
  induction s as [|c s IH]; [reflexivity|].
  cbn [pieces]. destruct (Ascii.eqb c Str.colon).
  - unfold cons_hole. destruct (pieces s) as [|[t|n] more]; [reflexivity| |exact IH].
    destruct more as [|[t'|n'] more]; [reflexivity | discriminate | exact IH].
  - unfold cons_text. destruct (pieces s) as [|[t|n] more]; [reflexivity| |exact IH].
    destruct more as [|[t'|n'] more]; [reflexivity | discriminate | exact IH].
Qed.

Lemma no_stop_name_prefix (t : string) : no_stop (name_prefix t) = true.
Proof.
  unfold no_stop. induction t as [|c t IH]; [reflexivity|].
  cbn [name_prefix]. destruct (stop_char c) eqn:E; [reflexivity|].
  cbn [Str.all]. now rewrite E, IH.
Qed.

Lemma includes_colon_name_rest (t : string) :
  Str.includes Str.colon (name_rest t) = Str.includes Str.colon t.
Proof.
  rewrite <- (name_split t) at 2. unfold Str.includes. rewrite any_append.
  pose proof (no_stop_no_colon _ (no_stop_name_prefix t)) as H.
  unfold Str.includes in H. now rewrite H.
Qed.

Lemma name_rest_append (t r : string) :
  Str.includes Str.colon t = false ->
  lookahead (name_rest (t ++ r))
  = match name_rest t with
    | EmptyString => lookahead (name_rest r)
    | String c _ => is_boundary c
    end.
Proof.
  unfold Str.includes.
  induction t as [|c t IH]; intros H; [reflexivity|].
  cbn [Str.any] in H. apply orb_false_elim in H as [Hc Ht].
  cbn [append name_rest]. destruct (stop_char c) eqn:E; [reflexivity | now apply IH].
Qed.

Lemma lookahead_hole_head (ps : list Piece) :
  match ps with Text _ :: _ => False | _ => True end ->
  lookahead (render ps) = lookahead (name_rest (render ps)).
Proof.
  destruct ps as [|[t|n] more]; [reflexivity | intros [] | intros _].
  cbn [render render_piece append name_rest lookahead].
  unfold stop_char. now rewrite Ascii.eqb_refl.
Qed.

(** The pieces of a string are well formed exactly when its placeholders
    are bounded. *)
Lemma well_formed_pieces (s : string) :
  well_formed (pieces s) = placeholders_bounded s.
Proof.
  induction s as [|c s IH]; [reflexivity|].
  pose proof (alternating_pieces s) as Alt. pose proof (render_pieces s) as Ren.
  cbn [pieces placeholders_bounded]. rewrite <- IH.
  destruct (Ascii.eqb_spec c Str.colon) as [->|Hc].
  - unfold cons_hole. destruct (pieces s) as [|[t|n] more].
    + cbn [render] in Ren. subst s. reflexivity.
    + cbn [well_formed render render_piece]. rewrite no_stop_name_prefix.
      rewrite includes_colon_name_rest. cbn [andb].
      destruct (Str.includes Str.colon t) eqn:Et; cbn [negb andb].
      { now rewrite !andb_false_r. }
      f_equal. rewrite <- Ren. cbn [render render_piece].
      rewrite (name_rest_append t (render more) Et).
      destruct (name_rest t) as [|d rest] eqn:Er; [|reflexivity].
      cbn [append]. apply lookahead_hole_head.
      destruct more as [|[t'|n'] more]; [exact I | discriminate | exact I].
    + cbn [well_formed]. change (no_stop "") with true. cbn [andb].
      f_equal. rewrite <- Ren. now apply lookahead_hole_head.
  - unfold cons_text. cbn [andb].
    assert (Hc' : Ascii.eqb Str.colon c = false).
    { rewrite Ascii.eqb_sym. now apply Ascii.eqb_neq. }
    destruct (pieces s) as [|[t|n] more]; cbn [well_formed];
      unfold Str.includes; cbn [Str.any]; now rewrite Hc'.
Qed.

(** C6, amended.  For a URL whose placeholders are all bounded on the right
    (behind every colon the name is followed by [/], [?], [#] or the end of
    the string, not by another colon) and a params object whose keys are
    plain names, URL parameter substitution replaces every placeholder
    [:name] by the percent-encoded params value of that name and leaves
    the placeholders without a (defined) value; the result does not depend
    on the order of the params entries.  On any string, a key whose [:key] has
    no right-bounded occurrence leaves the string as it is.  In particular
    [/users/:id/:idx] with [{id:"5", idx:"9"}] yields [/users/5/9], and
    [:identity] is not touched by a params entry [id]. *)
Theorem replaceUrlParams_keyed_by_name :
  forall (s : string) (params : Fields),
    placeholders_bounded s = true ->
    plain_keys params = true ->
    replaceUrlParams s (JObj params) = Ok (render (fill params (pieces s)))
    /\ (forall params',
          distinct_keys params = true -> Permutation params params' ->
          replaceUrlParams s (JObj params') = replaceUrlParams s (JObj params))
    /\ (forall s',
          forallb (fun kv => negb (occurs_bounded (fst kv) s')) params = true ->
          replaceUrlParams s' (JObj params) = Ok s')
    /\ replaceUrlParams "/users/:id/:idx" (JObj [("id", JStr "5"); ("idx", JStr "9")])
       = Ok "/users/5/9"
    /\ (forall v, replaceUrlParams "/users/:identity" (JObj [("id", v)])
                  = Ok "/users/:identity").
Proof.
  intros s params Ht Hk. rewrite <- well_formed_pieces in Ht.
  assert (R : forall ps, plain_keys ps = true ->
                replaceUrlParams s (JObj ps) = Ok (render (fill ps (pieces s)))).
  { intros ps Hps. unfold replaceUrlParams. cbn [Object_entries enumerable_entries rbind].
    rewrite <- (render_pieces s) at 1. now rewrite replaceUrlParams_render. }
  split; [now apply R|]. split; [|split; [|split]].
  - intros params' Hd Hp.
    rewrite (R params') by (eapply plain_keys_permutation; eassumption).
    rewrite (R params) by exact Hk.
    rewrite (fill_permutation params params' (pieces s)); [reflexivity | | exact Hp].
    now apply distinct_NoDup.
  - intros s' Hs. unfold replaceUrlParams.
    cbn [Object_entries enumerable_entries rbind].
    now rewrite replaceUrlParams_no_occurrence.
  - reflexivity.
  - intros v. unfold replaceUrlParams. cbn [Object_entries enumerable_entries rbind].
    now rewrite replaceUrlParams_no_occurrence.
Qed.

Lemma replaceUrlParams_keyed_by_name_witness :
  replaceUrlParams "https://api.example.com:8080/users/:id/:idx?full"
    (JObj [("idx", JStr "9"); ("unused", JStr "u"); ("id", JStr "a b")])
  = Ok "https://api.example.com:8080/users/a%20b/9?full".
Proof.
  exact (proj1 (replaceUrlParams_keyed_by_name
                  "https://api.example.com:8080/users/:id/:idx?full"
                  [("idx", JStr "9"); ("unused", JStr "u"); ("id", JStr "a b")]
                  eq_refl eq_refl)).
Defined.

(** C6 as stated fails: on the template [/:a:b] the two orders of the same
    params entries give different results, and the key [ax], which names
    no placeholder of the template, is substituted in one of them. *)
Lemma replaceUrlParams_order_counterexample :
  Permutation [("b", JStr "x"); ("ax", JStr "y")] [("ax", JStr "y"); ("b", JStr "x")]
  /\ replaceUrlParams "/:a:b" (JObj [("b", JStr "x"); ("ax", JStr "y")]) = Ok "/y"
  /\ replaceUrlParams "/:a:b" (JObj [("ax", JStr "y"); ("b", JStr "x")]) = Ok "/:ax"
  /\ replaceUrlParams "/:a:b" (JObj [("b", JStr "x"); ("ax", JStr "y")])
     <> replaceUrlParams "/:a:b" (JObj [("ax", JStr "y"); ("b", JStr "x")]).
Proof.
  split; [apply perm_swap|]. repeat split. discriminate.
Qed.

(* ================================================================== *)
(** ** Properties: buildSearchParams *)
(* ================================================================== *)

Lemma keys_app {A : Type} (a b : list (string * A)) :
  keys (a ++ b)%list = (keys a ++ keys b)%list.
Proof. unfold keys. apply List.map_app. Qed.

Lemma filter_fresh (k : string) (p : URLSearchParams) :
  ~ In k (keys p) ->
  List.filter (fun kv => negb (String.eqb k (fst kv))) p = p.
Proof.
  induction p as [|[k' v'] p IH]; intros H; [reflexivity|].
  cbn [List.filter fst]. cbn [keys List.map fst] in H.
  destruct (String.eqb_spec k k') as [->|_].
  - exfalso. apply H. now left.
  - cbn [negb]. f_equal. apply IH. intros Hin. apply H. now right.
Qed.

(** On a name the collection does not hold yet, [set] appends. *)
Lemma usp_set_fresh (k v : string) (p : URLSearchParams) :
  ~ In k (keys p) -> usp_set k v p = usp_append k v p.
Proof.
  unfold usp_append.
  induction p as [|[k' v'] p IH]; intros H; [reflexivity|].
  cbn [keys List.map fst] in H. cbn [usp_set].
  destruct (String.eqb_spec k k') as [->|_].
  - exfalso. apply H. now left.
  - cbn [List.app]. f_equal. apply IH. intros Hin. apply H. now right.
Qed.

Lemma append_items (k : string) (items : list JsValue) (sp : URLSearchParams) :
  List.fold_left (append_item k) items sp
  = (sp ++ List.map (fun item => (k, ToString item))
             (List.filter (fun item => negb (is_nullish item)) items))%list.
Proof.
  revert sp. induction items as [|item items IH]; intros sp.
  - cbn. now rewrite List.app_nil_r.
  - cbn [List.fold_left List.filter]. rewrite IH. unfold append_item, usp_append.
    destruct item; cbn [is_undefined is_nullish negb andb List.map];
      try reflexivity; now rewrite <- List.app_assoc.
Qed.

(** The pairs one entry contributes all carry the key of the entry. *)
Lemma step_pairs (sp : URLSearchParams) (k : string) (v : JsValue) :
  ~ In k (keys sp) ->
  exists l : URLSearchParams,
    buildSearchParams_step sp (k, v) = (sp ++ l)%list
    /\ query_pairs [(k, v)] = l
    /\ (forall x, In x (keys l) -> x = k).
Proof.
  intros Hk. unfold query_pairs. cbn [List.flat_map fst snd]. rewrite List.app_nil_r.
  assert (S1 : forall w : string, (forall x, In x (keys [(k, w)]) -> x = k)).
  { intros w x [E|[]]. now symmetry. }
  destruct v; cbn [buildSearchParams_step];
    try (eexists; split; [apply usp_set_fresh; exact Hk|]; split; [reflexivity|];
         apply S1).
  - exists []. split; [now rewrite List.app_nil_r|]. split; [reflexivity|]. intros x [].
  - exists []. split; [now rewrite List.app_nil_r|]. split; [reflexivity|]. intros x [].
  - eexists. split; [apply append_items|]. split; [reflexivity|].
    intros x Hx. unfold keys in Hx. rewrite List.map_map in Hx. cbn [fst] in Hx.
    apply List.in_map_iff in Hx as [y [E _]]. now symmetry.
Qed.

Lemma query_pairs_cons (kv : string * JsValue) (entries : Fields) :
  query_pairs (kv :: entries) = (query_pairs [kv] ++ query_pairs entries)%list.
Proof.
  unfold query_pairs. cbn [List.flat_map]. now rewrite List.app_nil_r.
Qed.

Lemma buildSearchParams_fold (entries : Fields) (sp : URLSearchParams) :
  NoDup (keys entries) ->
  (forall k, In k (keys entries) -> ~ In k (keys sp)) ->
  List.fold_left buildSearchParams_step entries sp = (sp ++ query_pairs entries)%list.
Proof.
  revert sp. induction entries as [|[k v] entries IH]; intros sp Hnd Hfresh.
  - cbn. now rewrite List.app_nil_r.
  - cbn [keys List.map fst] in Hnd, Hfresh.
    inversion Hnd as [|? ? Hk Hnd']; subst.
    destruct (step_pairs sp k v) as [l [Hstep [Hl Hkeys]]].
    { apply Hfresh. now left. }
    cbn [List.fold_left]. rewrite Hstep, query_pairs_cons, Hl.
    rewrite IH; [now rewrite List.app_assoc | exact Hnd' |].
    intros x Hx Hin. rewrite keys_app in Hin. apply List.in_app_or in Hin as [Hin|Hin].
    + apply (Hfresh x); [now right | exact Hin].
    + apply Hkeys in Hin. subst x. contradiction.
Qed.

Lemma buildSearchParams_pairs (entries : Fields) :
  distinct_keys entries = true ->
  buildSearchParams (JObj entries) = Ok (query_pairs entries).
Proof.
  intros Hd. unfold buildSearchParams. cbn [Object_entries enumerable_entries rbind].
  rewrite buildSearchParams_fold; [reflexivity | now apply distinct_NoDup |].
  intros k _ [].
Qed.

(** C7, amended.  For every query object, serialization omits the entries
    whose value is undefined or null, gives for an array value one
    key=stringified-element pair per element that is neither undefined nor
    null, in array order, and one pair with the stringified value for any
    other value; [{page:1, tags:["a","b"], x:undefined}] yields
    [page=1&tags=a&tags=b].  A non-empty result is appended to the URL with
    [&] if the URL already contains [?], else with [?]; an empty result
    leaves the URL as it is. *)
Theorem buildSearchParams_serialization :
  forall (entries : Fields),
    distinct_keys entries = true ->
    buildSearchParams (JObj entries) = Ok (query_pairs entries)
    /\ (forall (this : HttpClientRequest) (processedArgs : Fields) (u : string),
          lookup "query" processedArgs = Some (JObj entries) ->
          (if truthy (field (JObj processedArgs) "params")
           then replaceUrlParams (url this) (field (JObj processedArgs) "params")
           else Ok (url this)) = Ok u ->
          buildUrl this (JObj processedArgs)
          = Ok (with_query u (usp_toString (query_pairs entries))))
    /\ usp_toString
         (query_pairs [("page", JNum 1); ("tags", JArr [JStr "a"; JStr "b"]);
                       ("x", JUndefined)])
       = "page=1&tags=a&tags=b".
Proof.
  intros entries Hd.
  assert (B := buildSearchParams_pairs entries Hd).
  split; [exact B|]. split; [|reflexivity].
  intros this processedArgs u Hq Hu.
  unfold buildUrl, field in *. cbn [get_prop rbind] in *.
  rewrite Hu. cbn [rbind]. rewrite Hq. cbn [truthy]. rewrite B. cbn [rbind].
  unfold with_query.
  destruct (String.eqb (usp_toString (query_pairs entries)) ""); reflexivity.
Qed.

Lemma buildSearchParams_serialization_witness :
  buildSearchParams
    (JObj [("page", JNum 1); ("tags", JArr [JStr "a"; JNull; JStr "b c"]); ("x", JNull)])
  = Ok [("page", "1"); ("tags", "a"); ("tags", "b c")].
Proof.
  exact (proj1 (buildSearchParams_serialization
                  [("page", JNum 1); ("tags", JArr [JStr "a"; JNull; JStr "b c"]);
                   ("x", JNull)] eq_refl)).
Defined.

(** C7 as stated fails: an array with a null element gives fewer pairs than
    elements. *)
Lemma buildSearchParams_null_item_counterexample :
  buildSearchParams (JObj [("tags", JArr [JStr "a"; JNull])]) = Ok [("tags", "a")]
  /\ query_pairs_per_element [("tags", JArr [JStr "a"; JNull])]
     = [("tags", "a"); ("tags", "null")]
  /\ buildSearchParams (JObj [("tags", JArr [JStr "a"; JNull])])
     <> Ok (query_pairs_per_element [("tags", JArr [JStr "a"; JNull])]).
Proof.
  repeat split. discriminate.
Qed.

(* ================================================================== *)
(** ** Properties: property lists *)
(* ================================================================== *)

Lemma lookup_In {A : Type} (k : string) (x : A) (fs : list (string * A)) :
  lookup k fs = Some x -> In (k, x) fs.
Proof.
  induction fs as [|[k' v] fs IH]; cbn [lookup]; [discriminate|].
  destruct (String.eqb_spec k k') as [->|_].
  - intros E. injection E as ->. now left.
  - intros H. right. now apply IH.
Qed.

Lemma obj_set_fresh {A : Type} (k : string) (x : A) (fs : list (string * A)) :
  ~ In k (keys fs) -> obj_set k x fs = (fs ++ [(k, x)])%list.
Proof.
  induction fs as [|[k' v] fs IH]; intros H; [reflexivity|].
  cbn [keys List.map fst] in H. cbn [obj_set].
  destruct (String.eqb_spec k k') as [->|_].
  - exfalso. apply H. now left.
  - cbn [List.app]. f_equal. apply IH. intros Hin. apply H. now right.
Qed.

Lemma lookup_obj_set {A : Type} (k k' : string) (v : A) (fs : list (string * A)) :
  lookup k (obj_set k' v fs) = if String.eqb k k' then Some v else lookup k fs.
Proof.
  induction fs as [|[k0 v0] fs IH]; cbn [obj_set lookup].
  - destruct (String.eqb k k'); reflexivity.
  - destruct (String.eqb_spec k' k0) as [->|Hne]; cbn [lookup].
    + destruct (String.eqb k k0); reflexivity.
    + destruct (String.eqb_spec k k0) as [->|Hne'].
      * destruct (String.eqb_spec k0 k'); [congruence | reflexivity].
      * exact IH.
Qed.

Lemma not_in_keys_lookup {A : Type} (k : string) (fs : list (string * A)) :
  ~ In k (keys fs) -> lookup k fs = None.
Proof.
  induction fs as [|[k' v] fs IH]; intros H; [reflexivity|].
  cbn [keys List.map fst] in H. cbn [lookup].
  destruct (String.eqb_spec k k') as [->|_]; [exfalso; apply H; now left|].
  apply IH. intros Hin. apply H. now right.
Qed.

Lemma keys_obj_set {A : Type} (k : string) (x : A) (fs : list (string * A)) :
  keys (obj_set k x fs) = if has_key k fs then keys fs else (keys fs ++ [k])%list.
Proof.
  unfold has_key, keys. induction fs as [|[k' v] fs IH]; [reflexivity|].
  cbn [obj_set lookup]. destruct (String.eqb_spec k k') as [->|_]; [reflexivity|].
  cbn [List.map fst]. rewrite IH.
  destruct (lookup k fs); reflexivity.
Qed.

Lemma has_key_obj_set {A : Type} (k k' : string) (x : A) (fs : list (string * A)) :
  has_key k (obj_set k' x fs) = String.eqb k k' || has_key k fs.
Proof.
  unfold has_key. rewrite lookup_obj_set.
  destruct (String.eqb k k'); [reflexivity|]. now destruct (lookup k fs).
Qed.

Lemma In_lookup {A : Type} (k : string) (x : A) (fs : list (string * A)) :
  NoDup (keys fs) -> In (k, x) fs -> lookup k fs = Some x.
Proof.
  induction fs as [|[k' v] fs IH]; intros Hnd Hin; [destruct Hin|].
  cbn [keys List.map fst] in Hnd. inversion Hnd as [|? ? Hk Hnd']; subst.
  cbn [lookup]. destruct Hin as [E|Hin].
  - injection E as -> ->. now rewrite String.eqb_refl.
  - destruct (String.eqb_spec k k') as [->|_]; [|now apply IH].
    exfalso. apply Hk. change k' with (fst (k', x)). now apply List.in_map.
Qed.

Lemma obj_set_same {A : Type} (k : string) (x : A) (fs : list (string * A)) :
  lookup k fs = Some x -> obj_set k x fs = fs.
Proof.
  induction fs as [|[k' v] fs IH]; [discriminate|].
  cbn [lookup obj_set]. destruct (String.eqb_spec k k') as [->|_].
  - intros E. now injection E as ->.
  - intros H. now rewrite IH.
Qed.

Lemma has_key_In {A : Type} (k : string) (fs : list (string * A)) :
  has_key k fs = true <-> In k (keys fs).
Proof.
  unfold has_key. split.
  - destruct (lookup k fs) as [x|] eqn:E; [|discriminate]. intros _.
    apply lookup_In in E. apply (List.in_map fst) in E. exact E.
  - intros H. destruct (lookup k fs) eqn:E; [reflexivity|].
    exfalso. revert H E. clear. induction fs as [|[k' v] fs IH]; [intros []|].
    cbn [keys List.map fst lookup]. destruct (String.eqb_spec k k') as [->|Hne].
    + discriminate.
    + intros [->|H]; [congruence | now apply IH].
Qed.

Lemma has_key_cons {A : Type} (k k0 : string) (v : A) (fs : list (string * A)) :
  has_key k ((k0, v) :: fs) = String.eqb k k0 || has_key k fs.
Proof. unfold has_key. cbn [lookup]. now destruct (String.eqb k k0). Qed.

Lemma has_key_In_false {A : Type} (k : string) (fs : list (string * A)) :
  has_key k fs = false -> ~ In k (keys fs).
Proof. intros H Hin. apply has_key_In in Hin. congruence. Qed.

Lemma lookup_insert_new {A : Type} (k k' : string) (v : A) (fs : list (string * A)) :
  has_key k' fs = false ->
  lookup k (insert_new k' v fs) = if String.eqb k k' then Some v else lookup k fs.
Proof.
  unfold has_key.
  induction fs as [|[k0 v0] fs IH]; cbn [insert_new lookup]; intros H; [reflexivity|].
  destruct (String.eqb_spec k' k0) as [->|Hne]; [discriminate|].
  destruct (goes_before k' k0); cbn [lookup]; [reflexivity|].
  destruct (String.eqb_spec k k0) as [->|_].
  - destruct (String.eqb_spec k0 k'); [congruence | reflexivity].
  - now apply IH.
Qed.

Lemma lookup_obj_define {A : Type} (k k' : string) (v : A) (fs : list (string * A)) :
  lookup k (obj_define k' v fs) = if String.eqb k k' then Some v else lookup k fs.
Proof.
  unfold obj_define. destruct (has_key k' fs) eqn:E.
  - apply lookup_obj_set.
  - now apply lookup_insert_new.
Qed.

Lemma has_key_obj_define {A : Type} (k k' : string) (v : A) (fs : list (string * A)) :
  has_key k (obj_define k' v fs) = String.eqb k k' || has_key k fs.
Proof.
  unfold has_key at 1. rewrite lookup_obj_define. unfold has_key.
  destruct (String.eqb k k'); reflexivity.
Qed.

(** A name that goes last in the property order is appended. *)
Lemma insert_new_last {A : Type} (k : string) (v : A) (fs : list (string * A)) :
  property_order (keys fs ++ [k])%list = true ->
  insert_new k v fs = (fs ++ [(k, v)])%list.
Proof.
  induction fs as [|[k0 v0] fs IH]; intros H; [reflexivity|].
  cbn [keys List.map fst List.app property_order] in H.
  apply andb_prop in H as [H0 H]. rewrite forallb_forall in H0.
  cbn [insert_new].
  assert (G : goes_before k k0 = false).
  { apply negb_true_iff. apply H0. apply List.in_or_app. right. now left. }
  rewrite G. cbn [List.app]. f_equal. now apply IH.
Qed.

Lemma obj_define_last {A : Type} (k : string) (v : A) (fs : list (string * A)) :
  has_key k fs = false ->
  property_order (keys fs ++ [k])%list = true ->
  obj_define k v fs = (fs ++ [(k, v)])%list.
Proof.
  intros Hk Ho. unfold obj_define. rewrite Hk. now apply insert_new_last.
Qed.

Lemma property_order_app (a b : list string) :
  property_order (a ++ b)%list = true -> property_order a = true.
Proof.
  induction a as [|x a IH]; [reflexivity|]. cbn [List.app property_order].
  intros H. apply andb_prop in H as [H0 H]. rewrite (IH H), andb_true_r.
  rewrite forallb_forall in *. intros y Hy. apply H0. apply List.in_or_app. now left.
Qed.

(* ================================================================== *)
(** ** Properties: the client tree *)
(* ================================================================== *)

Lemma default_param_object (v : JsValue) :
  default_param (default_param v (JObj [])) (JObj []) = default_param v (JObj []).
Proof. destruct v; reflexivity. Qed.


(** A typed route definition passes the run-time test. *)
Lemma route_definition_duck (v : JsValue) :
  is_HttpRouteDefinition v = true -> isRouteDefinition v = true.
Proof.
  destruct v; try discriminate. cbn [is_HttpRouteDefinition].
  unfold isRouteDefinition, field. cbn [get_prop isObject].
  destruct (lookup "path" fields) as [[]|]; try discriminate.
  destruct (lookup "method" fields) as [[]|]; try discriminate.
  destruct (lookup "responses" fields) as [[]|]; try discriminate.
  reflexivity.
Qed.

Lemma typed_value_is_object (v : JsValue) :
  is_HttpRouteDefinition v || is_RouteMap v = true -> exists fs, v = JObj fs.
Proof. destruct v; try discriminate. intros _. now eexists. Qed.

(** A typed route map fails the run-time test and is an object. *)
Lemma route_map_duck (v : JsValue) :
  is_RouteMap v = true -> isRouteDefinition v = false /\ isObject v = true.
Proof.
  destruct v; try discriminate. cbn [is_RouteMap]. intros H.
  apply andb_prop in H as [_ H]. rewrite forallb_forall in H.
  split; [|reflexivity].
  unfold isRouteDefinition, field. cbn [get_prop isObject].
  destruct (lookup "path" fields) as [x|] eqn:E; [|reflexivity].
  apply lookup_In in E. apply H in E. cbn [snd] in E.
  apply typed_value_is_object in E as [fs ->]. reflexivity.
Qed.

Lemma typed_value_duck (v : JsValue) :
  is_HttpRouteDefinition v || is_RouteMap v = true ->
  isRouteDefinition v = is_HttpRouteDefinition v.
Proof.
  intros H. destruct (is_HttpRouteDefinition v) eqn:E.
  - now apply route_definition_duck.
  - cbn [orb] in H. now apply route_map_duck in H as [H _].
Qed.


Lemma route_map_not_definition (v : JsValue) :
  is_RouteMap v = true -> is_HttpRouteDefinition v = false.
Proof.
  intros H. destruct (is_HttpRouteDefinition v) eqn:E; [|reflexivity].
  apply route_definition_duck in E. apply route_map_duck in H as [H _]. congruence.
Qed.

Lemma client_get_plain (cs : list (string * Client)) (k : string) :
  client_get (ClientObj None cs) k = lookup k cs.
Proof.
  unfold client_get. cbn [client_property]. now destruct (lookup k cs).
Qed.

Lemma every_level_map (p : Fields -> bool) (fs : Fields) :
  is_RouteMap (JObj fs) = true ->
  every_level p (JObj fs)
  = p fs && forallb (fun kv => every_level p (snd kv)) fs.
Proof.
  intros H. apply route_map_not_definition in H.
  cbn [every_level]. now rewrite H.
Qed.

(** The loop of [createClientFromRouteMap] over typed entries whose keys
    are not yet in the client under construction, none of them
    [__proto__], and which follow its keys in property order. *)
Lemma client_loop_mirror (baseUrl baseOptions : JsValue) (fs : Fields) :
  Forall (fun kv =>
            is_RouteMap (snd kv) = true ->
            proto_free (snd kv) = true ->
            in_property_order (snd kv) = true ->
            createClientFromRouteMap (snd kv) baseUrl baseOptions
            = Ok (mirror baseUrl baseOptions (snd kv))) fs ->
  default_param baseOptions (JObj []) = baseOptions ->
  forallb (fun kv => is_HttpRouteDefinition (snd kv) || is_RouteMap (snd kv)) fs = true ->
  forallb (fun kv => proto_free (snd kv)) fs = true ->
  forallb (fun kv => in_property_order (snd kv)) fs = true ->
  NoDup (keys fs) ->
  ~ In proto_key (keys fs) ->
  forall client,
    (forall k, In k (keys fs) -> ~ In k (keys client)) ->
    property_order (keys client ++ keys fs)%list = true ->
    (fix loop (src : Fields) (client : ClientState) :=
       match src with
       | [] => Ok client
       | (key, value) :: src' =>
           rbind (client_step (createClientFromRouteMap value baseUrl baseOptions)
                    baseUrl baseOptions key value client)
                 (fun client => loop src' client)
       end) fs (None, client)
    = Ok (None, (client ++ List.map (mirror_entry baseUrl baseOptions) fs)%list).
Proof.
  intros HF Hopt.
  induction fs as [|[k v] fs IH]; intros Hty Hpf Hpo Hnd Hnp client Hfresh Hord.
  - cbn. now rewrite List.app_nil_r.
  - inversion HF as [|? ? Hv HF']; subst. cbn [snd] in Hv.
    cbn [forallb snd] in Hty, Hpf, Hpo.
    apply andb_prop in Hty as [Hvty Hty]. apply andb_prop in Hpf as [Hvpf Hpf].
    apply andb_prop in Hpo as [Hvpo Hpo].
    cbn [keys List.map fst] in Hnd, Hfresh, Hnp, Hord.
    inversion Hnd as [|? ? Hk Hnd']; subst.
    assert (Hkp : String.eqb k proto_key = false).
    { apply String.eqb_neq. intros ->. apply Hnp. now left. }
    assert (Hset : forall c,
               client_assign k c (None, client)
               = Ok (None, (client ++ [(k, c)])%list)).
    { intros c. unfold client_assign. rewrite Hkp. cbn [andb fst snd].
      rewrite andb_false_r. do 2 f_equal.
      apply obj_define_last.
      - destruct (has_key k client) eqn:E; [|reflexivity].
        apply has_key_In in E. exfalso. apply (Hfresh k); [now left | exact E].
      - apply (property_order_app _ (keys fs)).
        rewrite <- List.app_assoc. exact Hord. }
    assert (Hstep :
      client_step (createClientFromRouteMap v baseUrl baseOptions)
        baseUrl baseOptions k v (None, client)
      = Ok (None, (client ++ [mirror_entry baseUrl baseOptions (k, v)])%list)).
    { unfold client_step, mirror_entry, image. cbn [fst snd].
      rewrite (typed_value_duck v Hvty).
      destruct (is_HttpRouteDefinition v) eqn:E.
      - unfold createEndpoint. rewrite Hopt. now rewrite Hset.
      - cbn [orb] in Hvty. destruct (route_map_duck v Hvty) as [_ ->].
        rewrite (Hv Hvty Hvpf Hvpo). cbn [rbind]. now rewrite Hset. }
    rewrite Hstep. cbn [rbind].
    rewrite (IH HF' Hty Hpf Hpo Hnd').
    + cbn [List.map]. now rewrite <- List.app_assoc.
    + intros Hin. apply Hnp. now right.
    + intros x Hx Hin. rewrite keys_app in Hin.
      apply List.in_app_or in Hin as [Hin|[<-|[]]].
      * apply (Hfresh x); [now right | exact Hin].
      * contradiction.
    + rewrite keys_app. cbn [keys List.map fst]. rewrite <- List.app_assoc. exact Hord.
Qed.

Lemma createClientFromRouteMap_mirror (routeMap baseUrl baseOptions : JsValue) :
  default_param baseOptions (JObj []) = baseOptions ->
  is_RouteMap routeMap = true ->
  proto_free routeMap = true ->
  in_property_order routeMap = true ->
  createClientFromRouteMap routeMap baseUrl baseOptions
  = Ok (mirror baseUrl baseOptions routeMap).
Proof.
  intros Hopt.
  induction routeMap as [v Hv | items IH | fs IH | id fs IH | p fs IHp IH]
    using JsValue_ind; try discriminate.
  - destruct v; discriminate.
  - intros Hty Hpf Hpo.
    unfold proto_free in Hpf. unfold in_property_order in Hpo.
    rewrite (every_level_map _ fs Hty) in Hpf.
    rewrite (every_level_map _ fs Hty) in Hpo.
    apply andb_prop in Hpf as [Hnp Hpf]. apply andb_prop in Hpo as [Hord Hpo].
    cbn [is_RouteMap] in Hty. apply andb_prop in Hty as [Hd Hty].
    cbn [createClientFromRouteMap mirror]. rewrite Hopt.
    rewrite (client_loop_mirror baseUrl baseOptions fs IH Hopt Hty Hpf Hpo).
    + reflexivity.
    + now apply distinct_NoDup.
    + intros Hin. apply has_key_In in Hin. rewrite Hin in Hnp. discriminate.
    + intros k _ [].
    + exact Hord.
Qed.

Lemma createClientFromRouteMap_default (routeMap baseUrl baseOptions : JsValue) :
  createClientFromRouteMap routeMap baseUrl baseOptions
  = createClientFromRouteMap routeMap baseUrl (default_param baseOptions (JObj [])).
Proof.
  destruct routeMap; cbn [createClientFromRouteMap];
    now rewrite ?default_param_object.
Qed.

Lemma lookup_map {A B : Type} (f : A -> B) (k : string) (fs : list (string * A)) :
  lookup k (List.map (fun kv => (fst kv, f (snd kv))) fs) = option_map f (lookup k fs).
Proof.
  induction fs as [|[k' v] fs IH]; [reflexivity|].
  cbn [List.map lookup fst snd]. destruct (String.eqb k k'); [reflexivity | exact IH].
Qed.

(** The mirror image holds at a path the image of what the route map holds
    there. *)
Lemma client_at_image (baseUrl baseOptions : JsValue) (path : list string) :
  forall v,
    is_HttpRouteDefinition v || is_RouteMap v = true ->
    client_at path (image baseUrl baseOptions v)
    = option_map (image baseUrl baseOptions) (route_at path v).
Proof.
  induction path as [|k path IH]; intros v Hv; [reflexivity|].
  destruct (typed_value_is_object v Hv) as [fs ->].
  unfold image at 1. cbn [route_at].
  destruct (is_HttpRouteDefinition (JObj fs)) eqn:E; [reflexivity|].
  cbn [orb] in Hv. cbn [mirror client_at]. rewrite client_get_plain.
  change (fun kv : string * JsValue =>
            (fst kv,
             if is_HttpRouteDefinition (snd kv)
             then Endpoint baseUrl (snd kv) baseOptions
             else mirror baseUrl baseOptions (snd kv)))
    with (fun kv : string * JsValue => (fst kv, image baseUrl baseOptions (snd kv))).
  rewrite lookup_map.
  destruct (lookup k fs) as [x|] eqn:Ex; [|reflexivity].
  cbn [option_map]. apply IH.
  cbn [is_RouteMap] in Hv. apply andb_prop in Hv as [_ Hv].
  rewrite forallb_forall in Hv. apply lookup_In in Ex. exact (Hv _ Ex).
Qed.

(** X23.  For every route map (an object whose values are route
    definitions or route maps, to any depth) none of whose keys, at any
    level, is [__proto__], the keys being listed in property order as
    [Object.entries] lists them, the client built is its mirror image: the
    same keys in the same order at every level, an endpoint bound to the
    route definition where the map holds a route definition, a sub-tree
    where it holds a nested map; so the client holds something at a path
    exactly when the map does, and an endpoint exactly at the paths of the
    route definitions.  On the values of a route map the run-time test
    (object with string path, string method, object responses) agrees
    with the type.  [httpClient] returns such a mirror image for every
    configuration object. *)
Theorem client_mirrors_route_map :
  forall (routeMap baseUrl baseOptions : JsValue),
    is_RouteMap routeMap = true ->
    proto_free routeMap = true ->
    in_property_order routeMap = true ->
    exists client,
      createClientFromRouteMap routeMap baseUrl baseOptions = Ok client
      /\ client = mirror baseUrl (default_param baseOptions (JObj [])) routeMap
      /\ (forall path,
            client_at path client
            = option_map (image baseUrl (default_param baseOptions (JObj [])))
                (route_at path routeMap))
      /\ (forall v,
            is_HttpRouteDefinition v || is_RouteMap v = true ->
            isRouteDefinition v = is_HttpRouteDefinition v)
      /\ (forall config,
            exists url options,
              httpClient routeMap (JObj config) = Ok (mirror url options routeMap)).
Proof.
  intros routeMap baseUrl baseOptions Hty Hpf Hpo.
  exists (mirror baseUrl (default_param baseOptions (JObj [])) routeMap).
  split; [|split; [reflexivity|split; [|split]]].
  - rewrite createClientFromRouteMap_default.
    apply createClientFromRouteMap_mirror;
      [apply default_param_object | exact Hty | exact Hpf | exact Hpo].
  - intros path.
    rewrite <- client_at_image by (rewrite Hty; apply orb_true_r).
    unfold image. now rewrite (route_map_not_definition routeMap Hty).
  - exact typed_value_duck.
  - intros config. unfold httpClient. cbn [default_param is_undefined get_prop rbind].
    do 2 eexists.
    apply createClientFromRouteMap_mirror; [reflexivity | exact Hty | exact Hpf | exact Hpo].
Qed.

Lemma client_mirrors_route_map_witness :
  exists client,
    createClientFromRouteMap
      (JObj [("a", JObj [("b", JObj [("c", Sample.route "get" [] [])]);
                         ("d", JObj [])]);
             ("e", Sample.route "post" [] [])])
      (JStr "https://api.example.com") JUndefined = Ok client
    /\ client_at ["a"; "b"; "c"] client
       = Some (Endpoint (JStr "https://api.example.com") (Sample.route "get" [] [])
                 (JObj []))
    /\ client_at ["a"; "d"] client = Some (ClientObj None [])
    /\ client_at ["a"; "b"; "c"; "path"] client = None.
Proof.
  destruct (client_mirrors_route_map
              (JObj [("a", JObj [("b", JObj [("c", Sample.route "get" [] [])]);
                                 ("d", JObj [])]);
                     ("e", Sample.route "post" [] [])])
              (JStr "https://api.example.com") JUndefined eq_refl eq_refl eq_refl)
    as [client [H1 [_ [H3 _]]]].
  exists client. split; [exact H1|]. rewrite !H3. repeat split.
Defined.

(** C9, at an input where the program departs from it.  A route map that
    holds a route definition under the key [__proto__] (as [JSON.parse]
    or a computed key make it) gets no key of that name in the client:
    the assignment [client[key] = ...] makes the endpoint the prototype of
    the client object instead, and the client lists the other keys only.
    Under a nested map of that name the client answers at a path where
    the route map holds nothing. *)
Theorem proto_key_route_becomes_prototype :
  is_RouteMap (JObj [("__proto__", Sample.route "get" [] []);
                     ("b", Sample.route "post" [] [])]) = true
  /\ createClientFromRouteMap
       (JObj [("__proto__", Sample.route "get" [] []);
              ("b", Sample.route "post" [] [])]) (JStr "") JUndefined
     = Ok (ClientObj
             (Some (Endpoint (JStr "") (Sample.route "get" [] []) (JObj [])))
             [("b", Endpoint (JStr "") (Sample.route "post" [] []) (JObj []))])
  /\ is_RouteMap (JObj [("__proto__", JObj [("x", Sample.route "get" [] [])])]) = true
  /\ route_at ["x"] (JObj [("__proto__", JObj [("x", Sample.route "get" [] [])])]) = None
  /\ exists client,
       createClientFromRouteMap
         (JObj [("__proto__", JObj [("x", Sample.route "get" [] [])])])
         (JStr "") JUndefined = Ok client
       /\ client_at ["x"] client
          = Some (Endpoint (JStr "") (Sample.route "get" [] []) (JObj [])).
Proof.
  split; [reflexivity|]. split; [reflexivity|]. split; [reflexivity|].
  split; [reflexivity|]. eexists. split; reflexivity.
Qed.


(* ================================================================== *)
(** ** Properties: createParseFn *)
(* ================================================================== *)

Section Adapter.

Variable call_fn : FunId -> JsValue -> JsValue -> Res JsValue.

Lemma no_method (schema : JsValue) (name : string) :
  match get_prop schema name with Ok (JFun _ _) => false | _ => true end = true ->
  method_of schema name = None.
Proof.
  unfold method_of. destruct (get_prop schema name) as [[]|]; try reflexivity.
  discriminate.
Qed.

(** A validator of the Standard Schema convention gets the parse function
    of the last branch. *)
Lemma createParseFn_standard (schema : JsValue) :
  standard_convention schema = true ->
  createParseFn call_fn schema = Ok (standard_parse call_fn schema).
Proof.
  unfold standard_convention. intros H.
  apply andb_prop in H as [H Hm]. apply andb_prop in H as [Hnull Hin].
  cbn [forallb] in Hm.
  repeat match type of Hm with
         | _ && _ = true => let Hx := fresh "Hx" in apply andb_prop in Hm as [Hx Hm]
         end.
  apply no_method in Hx, Hx0, Hx1, Hx2, Hx3.
  destruct (prop_in "~standard" schema) as [[]|] eqn:Ein; try discriminate.
  unfold createParseFn.
  destruct schema; try discriminate;
    rewrite Ein; cbn [rbind]; rewrite ?Hx3, ?Hx, ?Hx0, ?Hx1, ?Hx2; reflexivity.
Qed.

Lemma get_prop_defined (v : JsValue) (k : string) :
  is_nullish v = false -> exists x, get_prop v k = Ok x.
Proof.
  induction v as [v Hv | items IH | fs IH | id fs IH | p fs IHp IH] using JsValue_ind;
    intros Hn; cbn [get_prop]; try (eexists; reflexivity).
  - destruct v; try discriminate; cbn [get_prop]; try (eexists; reflexivity).
    destruct (String.eqb k "length"); eexists; reflexivity.
  - destruct (String.eqb k "length"); eexists; reflexivity.
  - destruct (lookup k fs); [eexists; reflexivity|].
    destruct (object_like p) eqn:E; [|eexists; reflexivity].
    apply IHp. now destruct p.
Qed.

Lemma prop_in_object_like (k : string) (v : JsValue) :
  object_like v = true -> exists b, prop_in k v = Ok b.
Proof.
  induction v as [v Hv | items IH | fs IH | id fs IH | p fs IHp IH] using JsValue_ind;
    intros Ho; cbn [prop_in]; try (eexists; reflexivity).
  - destruct v; try discriminate; eexists; reflexivity.
  - destruct (has_key k fs); [eexists; reflexivity|].
    destruct (object_like p) eqn:E; [now apply IHp | eexists; reflexivity].
Qed.

Lemma get_prop_total (v : JsValue) (k k' : string) (x : JsValue) :
  get_prop v k = Ok x -> exists y, get_prop v k' = Ok y.
Proof.
  intros H. apply get_prop_defined. now destruct v.
Qed.

(** C5, amended.  For every validator of the Standard Schema convention and
    every input, the adapter's parse function calls the negotiated validate
    entry point and then fails with the structured validation error
    wrapping the issues if and only if the [issues] field of the result is
    truthy, which every issues array is, the empty one included; otherwise
    it returns the [value] field of the result. *)
Theorem standard_schema_adapter :
  forall (schema : JsValue),
    standard_convention schema = true ->
    exists parse,
      createParseFn call_fn schema = Ok parse
      /\ forall input std validate result issues,
           get_prop schema "~standard" = Ok std ->
           get_prop std "validate" = Ok validate ->
           call_value call_fn validate std input = Ok result ->
           get_prop result "issues" = Ok issues ->
           (truthy issues = true -> parse input = Err (StandardSchemaV1Error issues))
           /\ (truthy issues = false -> parse input = get_prop result "value")
           /\ ((exists e, parse input = Err (StandardSchemaV1Error e))
               <-> truthy issues = true)
           /\ (forall items, issues = JArr items ->
                             parse input = Err (StandardSchemaV1Error issues)).
Proof.
  intros schema Hs. exists (standard_parse call_fn schema).
  split; [now apply createParseFn_standard|].
  intros input std validate result issues Hstd Hval Hcall Hiss.
  assert (T : truthy issues = true ->
              standard_parse call_fn schema input = Err (StandardSchemaV1Error issues)).
  { intros Ht. unfold standard_parse.
    rewrite Hstd. cbn [rbind]. rewrite Hval. cbn [rbind]. rewrite Hcall. cbn [rbind].
    rewrite Hiss. cbn [rbind]. now rewrite Ht. }
  assert (F : truthy issues = false ->
              standard_parse call_fn schema input = get_prop result "value").
  { intros Ht. unfold standard_parse.
    rewrite Hstd. cbn [rbind]. rewrite Hval. cbn [rbind]. rewrite Hcall. cbn [rbind].
    rewrite Hiss. cbn [rbind]. now rewrite Ht. }
  split; [exact T|]. split; [exact F|]. split.
  - split.
    + intros [e He]. destruct (truthy issues) eqn:Ht; [reflexivity|].
      rewrite (F eq_refl) in He.
      destruct (get_prop_total result "issues" "value" issues Hiss) as [y Hy].
      congruence.
    + intros Ht. exists issues. now apply T.
  - intros items ->. now apply T.
Qed.

End Adapter.

Lemma standard_schema_adapter_witness :
  exists parse,
    createParseFn Sample.call_fn Sample.accepting_standard_validator = Ok parse
    /\ parse (JStr "ok") = Ok (JStr "ok").
Proof.
  destruct (standard_schema_adapter Sample.call_fn
              Sample.accepting_standard_validator eq_refl) as [parse [Hc Hp]].
  exists parse. split; [exact Hc|].
  destruct (Hp (JStr "ok")
              (JObj [("version", JNum 1); ("validate", JFun 5 [])])
              (JFun 5 []) (JObj [("value", JStr "ok")]) JUndefined
              eq_refl eq_refl eq_refl eq_refl) as [_ [F _]].
  exact (F eq_refl).
Defined.

(** C5 as stated fails: a validate result whose issues collection is empty
    makes the parse function fail all the same. *)
Lemma standard_schema_empty_issues_counterexample :
  standard_convention Sample.standard_validator = true
  /\ Sample.call_fn 3 (JObj [("version", JNum 1); ("validate", JFun 3 [])]) (JStr "x")
     = Ok (JObj [("issues", JArr []); ("value", JStr "x")])
  /\ exists parse,
       createParseFn Sample.call_fn Sample.standard_validator = Ok parse
       /\ parse (JStr "x") = Err (StandardSchemaV1Error (JArr [])).
Proof.
  split; [reflexivity|]. split; [reflexivity|].
  eexists. split; reflexivity.
Qed.

(* ================================================================== *)
(** ** Properties: deepMerge *)
(* ================================================================== *)

Lemma deepMerge_objects (t s : Fields) :
  deepMerge (JObj t) (JObj s) = to_value (List.fold_left merge_entry s (mkObj None t)).
Proof.
  cbn [deepMerge isObject typeof_is typeof String.eqb Ascii.eqb Bool.eqb
       Array_isArray negb andb enumerable_entries].
  f_equal. generalize (mkObj None t).
  induction s as [|[k v] s IH]; intros o; [reflexivity|].
  cbn [List.fold_left existsb]. rewrite <- IH. reflexivity.
Qed.

(** A round of the loop leaves the own properties of other names. *)
Lemma lookup_merge_entry_other (o : Obj) (kv : string * JsValue) (k : string) :
  String.eqb k (fst kv) = false ->
  lookup k (properties (merge_entry o kv)) = lookup k (properties o).
Proof.
  intros H. unfold merge_entry, deepMerge_step, obj_assign.
  destruct (isObject (merged_get o (fst kv)) && isObject (snd kv));
    destruct (String.eqb (fst kv) proto_key && accessor_reachable o);
    try (destruct (object_like _ || is_null _)); cbn [properties]; try reflexivity;
    rewrite lookup_obj_define, H; reflexivity.
Qed.

Lemma fold_merge_other (s : Fields) (k : string) :
  ~ In k (keys s) ->
  forall o,
    lookup k (properties (List.fold_left merge_entry s o)) = lookup k (properties o).
Proof.
  induction s as [|[k0 v0] s IH]; intros H o; [reflexivity|].
  cbn [keys List.map fst] in H. cbn [List.fold_left].
  rewrite IH by (intros Hin; apply H; now right).
  apply lookup_merge_entry_other. cbn [fst].
  apply String.eqb_neq. intros ->. apply H. now left.
Qed.

(** A value that is no object, under a name other than [__proto__],
    becomes the own property of that name. *)
Lemma fold_merge_own (s : Fields) :
  NoDup (keys s) ->
  forall o k v,
    lookup k s = Some v ->
    String.eqb k proto_key = false ->
    isObject v = false ->
    lookup k (properties (List.fold_left merge_entry s o)) = Some v.
Proof.
  induction s as [|[k0 v0] s IH]; intros Hnd o k v Hl Hk Hv; [discriminate|].
  cbn [keys List.map fst] in Hnd. inversion Hnd as [|? ? Hk0 Hnd']; subst.
  cbn [List.fold_left]. cbn [lookup] in Hl.
  destruct (String.eqb_spec k k0) as [->|Hne].
  - injection Hl as ->. rewrite (fold_merge_other s k0 Hk0).
    unfold merge_entry, deepMerge_step, obj_assign. cbn [fst snd].
    rewrite Hv, andb_false_r, Hk. cbn [andb properties].
    now rewrite lookup_obj_define, String.eqb_refl.
  - now apply IH.
Qed.

Lemma get_prop_to_value_own (o : Obj) (k : string) (x : JsValue) :
  lookup k (properties o) = Some x -> get_prop (to_value o) k = Ok x.
Proof.
  intros H. unfold to_value. destruct (prototype o); cbn [get_prop]; now rewrite H.
Qed.

(** As long as no assignment reaches the setter of [__proto__], a round of
    the loop defines the own property of the name. *)
Lemma merge_entry_plain (t : Fields) (k : string) (v : JsValue) :
  String.eqb k proto_key && negb (has_key proto_key t) = false ->
  merge_entry (mkObj None t) (k, v)
  = mkObj None (obj_define k (merged_value (field (JObj t) k) v) t).
Proof.
  unfold merge_entry, deepMerge_step, merged_get, obj_assign, accessor_reachable,
    merged_value.
  cbn [fst snd prototype properties to_value]. rewrite andb_true_r. intros ->.
  destruct (isObject (field (JObj t) k) && isObject v); reflexivity.
Qed.

Lemma fold_merge_plain (s : Fields) :
  NoDup (keys s) ->
  forall t,
    has_key proto_key s && negb (has_key proto_key t) = false ->
    exists t',
      List.fold_left merge_entry s (mkObj None t) = mkObj None t'
      /\ forall k,
           lookup k t'
           = match lookup k s with
             | Some v => Some (merged_value (field (JObj t) k) v)
             | None => lookup k t
             end.
Proof.
  induction s as [|[k0 v0] s IH]; intros Hnd t Hp.
  - exists t. split; reflexivity.
  - cbn [keys List.map fst] in Hnd. inversion Hnd as [|? ? Hk Hnd']; subst.
    cbn [List.fold_left]. rewrite merge_entry_plain.
    2:{ rewrite has_key_cons, String.eqb_sym in Hp.
        destruct (String.eqb k0 proto_key); [exact Hp | reflexivity]. }
    destruct (IH Hnd' (obj_define k0 (merged_value (field (JObj t) k0) v0) t))
      as [t' [Hf Hl]].
    { rewrite has_key_obj_define. rewrite has_key_cons in Hp.
      destruct (String.eqb proto_key k0); cbn [orb] in *.
      - now rewrite andb_false_r.
      - exact Hp. }
    exists t'. split; [exact Hf|]. intros k. rewrite Hl. cbn [lookup].
    destruct (String.eqb_spec k k0) as [->|Hne].
    + rewrite (not_in_keys_lookup k0 s Hk), lookup_obj_define, String.eqb_refl.
      reflexivity.
    + unfold field. cbn [get_prop]. rewrite lookup_obj_define.
      destruct (String.eqb_spec k k0); [contradiction | reflexivity].
Qed.

(** X4.  Merging an object source (its keys pairwise different, none of
    them [__proto__]) onto an object target, key by key: a key the source
    does not set keeps the value of the target; a key the source sets
    takes the source's value, except that when the target's and the
    source's values are both objects the two are merged in turn.  So the
    source wins on scalars, and an explicit [undefined] in the source
    erases the target's value. *)
Theorem deepMerge_key_by_key :
  forall (t s : Fields),
    distinct_keys s = true ->
    has_key proto_key s = false ->
    forall k,
      field (deepMerge (JObj t) (JObj s)) k
      = match lookup k s with
        | Some v =>
            if isObject (field (JObj t) k) && isObject v
            then deepMerge (field (JObj t) k) v
            else v
        | None => field (JObj t) k
        end.
Proof.
  intros t s Hd Hp k. apply distinct_NoDup in Hd.
  rewrite deepMerge_objects.
  destruct (fold_merge_plain s Hd t) as [t' [-> Hl]]; [now rewrite Hp|].
  unfold field at 1. cbn [to_value prototype properties get_prop].
  rewrite Hl. destruct (lookup k s); reflexivity.
Qed.

Lemma deepMerge_key_by_key_witness :
  field (deepMerge (JObj [("headers", JObj [("B", JStr "2")]); ("fetch", JFun 7 [])])
           (JObj [("headers", JObj [("A", JStr "1")]); ("fetch", JUndefined)]))
    "headers"
  = deepMerge (JObj [("B", JStr "2")]) (JObj [("A", JStr "1")]).
Proof.
  exact (deepMerge_key_by_key
           [("headers", JObj [("B", JStr "2")]); ("fetch", JFun 7 [])]
           [("headers", JObj [("A", JStr "1")]); ("fetch", JUndefined)]
           eq_refl eq_refl "headers").
Defined.

Lemma obj_define_set {A : Type} (k : string) (v : A) (fs : list (string * A)) :
  has_key k fs || negb (is_array_index k) = true ->
  obj_define k v fs = obj_set k v fs.
Proof.
  unfold obj_define. destruct (has_key k fs) eqn:E; [reflexivity|].
  cbn [orb]. unfold is_array_index. intros H.
  assert (G : forall k', goes_before k k' = false).
  { intros k'. unfold goes_before. now destruct (array_index k). }
  clear H. apply has_key_In_false in E.
  rewrite obj_set_fresh by exact E. clear E.
  induction fs as [|[k0 v0] fs IH]; [reflexivity|].
  cbn [insert_new]. rewrite G. cbn [List.app]. now f_equal.
Qed.

Lemma fold_merge_keys (s : Fields) :
  NoDup (keys s) ->
  forall t,
    has_key proto_key s = false ->
    forallb (fun k => has_key k t || negb (is_array_index k)) (keys s) = true ->
    exists t',
      List.fold_left merge_entry s (mkObj None t) = mkObj None t'
      /\ keys t' = (keys t ++ List.filter (fun k => negb (has_key k t)) (keys s))%list.
Proof.
  induction s as [|[k0 v0] s IH]; intros Hnd t Hp Hi.
  - exists t. split; [reflexivity|]. cbn. now rewrite List.app_nil_r.
  - cbn [keys List.map fst] in Hnd. inversion Hnd as [|? ? Hk Hnd']; subst.
    cbn [keys List.map fst forallb] in Hi. apply andb_prop in Hi as [Hi0 Hi].
    rewrite has_key_cons in Hp. apply orb_false_elim in Hp as [Hne Hp].
    cbn [List.fold_left]. rewrite merge_entry_plain.
    2:{ rewrite String.eqb_sym, Hne. reflexivity. }
    rewrite (obj_define_set _ _ _ Hi0).
    destruct (IH Hnd' (obj_set k0 (merged_value (field (JObj t) k0) v0) t))
      as [t' [Hf Hkeys]].
    + exact Hp.
    + rewrite forallb_forall in *. intros k Hin. rewrite has_key_obj_set.
      specialize (Hi k Hin). destruct (String.eqb k k0); [reflexivity | exact Hi].
    + exists t'. split; [exact Hf|]. rewrite Hkeys, keys_obj_set.
      cbn [keys List.map fst List.filter].
      assert (F : List.filter
                    (fun k => negb (has_key k
                       (obj_set k0 (merged_value (field (JObj t) k0) v0) t))) (keys s)
                  = List.filter (fun k => negb (has_key k t)) (keys s)).
      { apply List.filter_ext_in. intros k Hin. rewrite has_key_obj_set.
        destruct (String.eqb_spec k k0) as [->|_]; [contradiction | reflexivity]. }
      unfold keys in F. unfold keys. rewrite F.
      destruct (has_key k0 t); cbn [negb]; [reflexivity|].
      now rewrite <- List.app_assoc.
Qed.

(** X5.  When no key of the source is [__proto__] and the keys only the
    source has are no array indices, the merged object lists the keys of
    the target first, in the target's order, then the keys only the source
    has, in the source's order: no key is lost and none is listed twice.
    (A new array index would go before the other names.) *)
Theorem deepMerge_key_order :
  forall (t s : Fields),
    distinct_keys s = true ->
    has_key proto_key s = false ->
    forallb (fun k => has_key k t || negb (is_array_index k)) (keys s) = true ->
    exists merged,
      deepMerge (JObj t) (JObj s) = JObj merged
      /\ keys merged
         = (keys t ++ List.filter (fun k => negb (has_key k t)) (keys s))%list.
Proof.
  intros t s Hd Hp Hi. apply distinct_NoDup in Hd.
  destruct (fold_merge_keys s Hd t Hp Hi) as [t' [Hf Hk]].
  exists t'. split; [|exact Hk]. rewrite deepMerge_objects, Hf. reflexivity.
Qed.

Lemma deepMerge_key_order_witness :
  exists merged,
    deepMerge (JObj [("headers", JObj []); ("init", JObj [])])
      (JObj [("fetch", JFun 7 []); ("headers", JObj [("A", JStr "1")])]) = JObj merged
    /\ keys merged = ["headers"; "init"; "fetch"].
Proof.
  exact (deepMerge_key_order [("headers", JObj []); ("init", JObj [])]
           [("fetch", JFun 7 []); ("headers", JObj [("A", JStr "1")])]
           eq_refl eq_refl eq_refl).
Defined.

Lemma fold_merge_same (s t : Fields) :
  Forall (fun kv => plain_data (snd kv) = true ->
                    deepMerge (snd kv) (snd kv) = snd kv) s ->
  forallb (fun kv => plain_data (snd kv)) s = true ->
  (forall k v, In (k, v) s -> lookup k t = Some v) ->
  List.fold_left merge_entry s (mkObj None t) = mkObj None t.
Proof.
  induction s as [|[k v] s IH]; intros HF Hp Hin; [reflexivity|].
  inversion HF as [|? ? Hv HF']; subst. cbn [snd] in Hv.
  cbn [forallb snd] in Hp. apply andb_prop in Hp as [Hpv Hp].
  assert (L : lookup k t = Some v) by (apply Hin; now left).
  cbn [List.fold_left]. rewrite merge_entry_plain.
  2:{ destruct (String.eqb_spec k proto_key) as [->|_]; [|reflexivity].
      unfold has_key. now rewrite L. }
  assert (E : merged_value (field (JObj t) k) v = v).
  { unfold merged_value, field. cbn [get_prop]. rewrite L.
    destruct (isObject v && isObject v); [now apply Hv | reflexivity]. }
  rewrite E. unfold obj_define, has_key. rewrite L, (obj_set_same k v t L).
  apply IH; [exact HF' | exact Hp |]. intros k' v' H. apply Hin. now right.
Qed.

(** X6.  Merging plain data onto itself gives it back: [deepMerge] adds
    nothing of its own. *)
Theorem deepMerge_idempotent :
  forall (v : JsValue), plain_data v = true -> deepMerge v v = v.
Proof.
  induction v as [v Hv | items IH | fs IH | id fs IH | p fs IHp IH] using JsValue_ind;
    intros Hp.
  - destruct v; try discriminate; reflexivity.
  - reflexivity.
  - cbn [plain_data] in Hp. apply andb_prop in Hp as [Hd Hp].
    rewrite deepMerge_objects.
    rewrite fold_merge_same; [reflexivity | exact IH | exact Hp |].
    intros k v. apply In_lookup. now apply distinct_NoDup.
  - reflexivity.
  - discriminate.
Qed.

Lemma deepMerge_idempotent_witness :
  deepMerge
    (JObj [("headers", JObj [("A", JStr "1")]); ("fetch", JFun 7 []);
           ("init", JObj [("mode", JStr "cors"); ("tags", JArr [JNum 1])])])
    (JObj [("headers", JObj [("A", JStr "1")]); ("fetch", JFun 7 []);
           ("init", JObj [("mode", JStr "cors"); ("tags", JArr [JNum 1])])])
  = JObj [("headers", JObj [("A", JStr "1")]); ("fetch", JFun 7 []);
          ("init", JObj [("mode", JStr "cors"); ("tags", JArr [JNum 1])])].
Proof.
  exact (deepMerge_idempotent
           (JObj [("headers", JObj [("A", JStr "1")]); ("fetch", JFun 7 []);
                  ("init", JObj [("mode", JStr "cors"); ("tags", JArr [JNum 1])])])
           eq_refl).
Defined.

(** X26.  [deepMerge] gives its result no own property named [__proto__]
    that the target did not have: the assignment under that name reaches
    the prototype accessor.  A source holding that key alone leaves the
    own properties of the target as they are; a value that is neither an
    object nor [null] is ignored altogether. *)
Theorem deepMerge_prototype_entry :
  forall (t : Fields) (v : JsValue),
    has_key proto_key t = false ->
    enumerable_entries (deepMerge (JObj t) (JObj [(proto_key, v)])) = t
    /\ (object_like v || is_null v = false ->
        deepMerge (JObj t) (JObj [(proto_key, v)]) = JObj t).
Proof.
  intros t v Ht. rewrite deepMerge_objects. cbn [List.fold_left].
  unfold merge_entry, deepMerge_step, merged_get, obj_assign, accessor_reachable.
  cbn [fst snd properties prototype]. rewrite Ht, String.eqb_refl.
  cbn [negb andb]. split.
  - destruct (isObject Object_prototype && isObject v).
    + destruct (object_like _ || is_null _); reflexivity.
    + destruct (object_like v || is_null v); reflexivity.
  - intros Hv. replace (isObject v) with false.
    + rewrite andb_false_r, Hv. reflexivity.
    + destruct v; try reflexivity; discriminate.
Qed.

Lemma deepMerge_prototype_entry_witness :
  deepMerge (JObj [("A", JStr "1")]) (JObj [("__proto__", JNum 5)])
  = JObj [("A", JStr "1")].
Proof.
  exact (proj2 (deepMerge_prototype_entry [("A", JStr "1")] (JNum 5) eq_refl) eq_refl).
Defined.

(* ================================================================== *)
(** ** Properties: the request pipeline *)
(* ================================================================== *)

Section Pipeline.

Variable call_fn : FunId -> JsValue -> JsValue -> Res JsValue.
Variable transport : option FunId -> string -> RequestInit -> Res Response.
Variable JSON_parse : string -> Res JsValue.
Variable JSON_stringify : JsValue -> string.


Lemma validateSlot_throws this args slot e processedArgs :
  validator_throws call_fn this args slot e ->
  validateSlot call_fn this args slot processedArgs = Err e.
Proof.
  intros (schema & arg & parse & Hs & Ht & Ha & Hu & Hc & Hp).
  unfold validateSlot. rewrite Hs. cbn [rbind]. rewrite Ha. cbn [rbind].
  rewrite Ht, Hu. cbn [negb andb]. rewrite Hc. cbn [rbind]. now rewrite Hp.
Qed.

(** Whether a block fails does not depend on the slots processed so far. *)
Lemma validateSlot_passes this args slot processedArgs :
  slot_fails call_fn this args slot = false ->
  exists processedArgs', validateSlot call_fn this args slot processedArgs = Ok processedArgs'.
Proof.
  unfold slot_fails, validateSlot.
  destruct (declared_validator this slot) as [schema|]; cbn [rbind]; [|discriminate].
  destruct (get_prop args slot) as [arg|]; cbn [rbind]; [|discriminate].
  destruct (truthy schema && negb (is_undefined arg)).
  - destruct (createParseFn call_fn schema) as [parse|]; cbn [rbind]; [|discriminate].
    destruct (parse arg); cbn [rbind]; [|discriminate]. intros _. now eexists.
  - destruct (truthy arg); intros _; now eexists.
Qed.

Lemma validateRequest_throws this args slot e :
  In slot slots ->
  validator_throws call_fn this args slot e ->
  (exists e', validateRequest call_fn this args = Err e')
  /\ ((forall s, In s (earlier slot) -> slot_fails call_fn this args s = false) ->
      validateRequest call_fn this args = Err e).
Proof.
  intros Hin Hthrow.
  assert (T := fun pa => validateSlot_throws this args slot e pa Hthrow).
  assert (P := fun s pa => validateSlot_passes this args s pa).
  unfold validateRequest.
  destruct Hin as [<-|[<-|[<-|[<-|[]]]]]; unfold earlier; cbn [before slots String.eqb Ascii.eqb Bool.eqb].
  - rewrite T. cbn [rbind]. split; [now eexists | reflexivity].
  - split.
    + destruct (validateSlot call_fn this args "params" []); cbn [rbind]; [|now eexists].
      rewrite T. now eexists.
    + intros He. destruct (P "params" [] (He _ (or_introl eq_refl))) as [p1 ->].
      cbn [rbind]. now rewrite T.
  - split.
    + destruct (validateSlot call_fn this args "params" []); cbn [rbind]; [|now eexists].
      destruct (validateSlot call_fn this args "query" a); cbn [rbind]; [|now eexists].
      rewrite T. now eexists.
    + intros He. destruct (P "params" [] (He _ (or_introl eq_refl))) as [p1 ->].
      cbn [rbind].
      destruct (P "query" p1 (He _ (or_intror (or_introl eq_refl)))) as [p2 ->].
      cbn [rbind]. now rewrite T.
  - split.
    + destruct (validateSlot call_fn this args "params" []); cbn [rbind]; [|now eexists].
      destruct (validateSlot call_fn this args "query" a); cbn [rbind]; [|now eexists].
      destruct (validateSlot call_fn this args "body" a0); cbn [rbind]; [|now eexists].
      rewrite T. now eexists.
    + intros He. destruct (P "params" [] (He _ (or_introl eq_refl))) as [p1 ->].
      cbn [rbind].
      destruct (P "query" p1 (He _ (or_intror (or_introl eq_refl)))) as [p2 ->].
      cbn [rbind].
      destruct (P "body" p2 (He _ (or_intror (or_intror (or_introl eq_refl)))))
        as [p3 ->].
      cbn [rbind]. now rewrite T.
Qed.

(** C2.  If the validator of a supplied slot throws or rejects, the call
    rejects and leaves the world as it was: the transport is not invoked.
    The error is the error of that validator, the blocks of the slots
    handled before it having passed (a validator is only run then). *)
Theorem validation_failure_aborts :
  forall (this : HttpClientRequest) (args options : JsValue) (w : World)
         (slot : string) (e : JsError),
    In slot slots ->
    validator_throws call_fn this (default_param args (JObj [])) slot e ->
    (exists e', execute call_fn transport JSON_parse JSON_stringify this args options w = (Err e', w))
    /\ ((forall s, In s (earlier slot) ->
                   slot_fails call_fn this (default_param args (JObj [])) s = false) ->
        execute call_fn transport JSON_parse JSON_stringify this args options w = (Err e, w)).
Proof.
  intros this args options w slot e Hin Hthrow.
  destruct (validateRequest_throws this _ slot e Hin Hthrow) as [[e' He'] Hfirst].
  split.
  - exists e'. unfold execute, bind, lift. now rewrite He'.
  - intros Hearlier. unfold execute, bind, lift.
    now rewrite (Hfirst Hearlier).
Qed.

(** What [validateRequest] does with one slot, case by case. *)
Lemma validateSlot_cases this args slot processedArgs schema arg :
  declared_validator this slot = Ok schema ->
  get_prop args slot = Ok arg ->
  validateSlot call_fn this args slot processedArgs
  = if truthy schema && negb (is_undefined arg)
    then rbind (createParseFn call_fn schema) (fun validator =>
         rbind (validator arg) (fun v => Ok (obj_set slot v processedArgs)))
    else if truthy arg then Ok (obj_set slot arg processedArgs)
    else Ok processedArgs.
Proof.
  intros Hs Ha. unfold validateSlot. rewrite Hs. cbn [rbind]. rewrite Ha. reflexivity.
Qed.

Lemma validateSlot_slot_value this args slot processedArgs :
  validateSlot call_fn this args slot processedArgs
  = rbind (slot_value call_fn this args slot) (fun assigned =>
      Ok (match assigned with
          | Some v => obj_set slot v processedArgs
          | None => processedArgs
          end)).
Proof.
  unfold validateSlot, slot_value.
  destruct (declared_validator this slot) as [schema|]; cbn [rbind]; [|reflexivity].
  destruct (get_prop args slot) as [arg|]; cbn [rbind]; [|reflexivity].
  destruct (truthy schema && negb (is_undefined arg)).
  - destruct (createParseFn call_fn schema) as [validator|]; cbn [rbind]; [|reflexivity].
    destruct (validator arg); reflexivity.
  - destruct (truthy arg); reflexivity.
Qed.

(** The processed arguments hold, slot by slot, what the block of the slot
    assigned: the validator's result for a declared validator and a
    supplied value, a supplied truthy value where no validator is declared,
    and nothing else. *)
Lemma validateRequest_slots this args processedArgs :
  validateRequest call_fn this args = Ok processedArgs ->
  exists fields,
    processedArgs = JObj fields
    /\ forall slot, In slot slots ->
                    slot_value call_fn this args slot = Ok (lookup slot fields).
Proof.
  unfold validateRequest. rewrite !validateSlot_slot_value.
  destruct (slot_value call_fn this args "params") as [[p|]|] eqn:Ep; cbn [rbind];
    try discriminate;
    rewrite !validateSlot_slot_value;
    destruct (slot_value call_fn this args "query") as [[q|]|] eqn:Eq; cbn [rbind];
    try discriminate;
    rewrite !validateSlot_slot_value;
    destruct (slot_value call_fn this args "body") as [[b|]|] eqn:Eb; cbn [rbind];
    try discriminate;
    rewrite !validateSlot_slot_value;
    destruct (slot_value call_fn this args "headers") as [[h|]|] eqn:Eh; cbn [rbind];
    try discriminate;
    intros E; injection E as <-; eexists; (split; [reflexivity|]);
    intros slot [<-|[<-|[<-|[<-|[]]]]];
    first [ rewrite Ep; reflexivity | rewrite Eq; reflexivity
          | rewrite Eb; reflexivity | rewrite Eh; reflexivity ].
Qed.

(** C1, at the input where the code departs from it.  The route declares
    no validator for the body (the null marker) and the caller supplies
    the body [0], or the empty string, or [false], or [null]: the
    processed arguments hold no body.  On the sibling path, with a
    validator declared that returns its input, the same body is kept. *)
Theorem unvalidated_falsy_body_dropped :
  Forall
    (fun body =>
       validateRequest call_fn (Sample.request "post" [("body", JNull)] [] (JObj []))
         (JObj [("body", body)]) = Ok (JObj [])
       /\ validateRequest Sample.call_fn
            (Sample.request "post" [("body", Sample.identity_validator)] [] (JObj []))
            (JObj [("body", body)]) = Ok (JObj [("body", body)]))
    [JNum 0; JStr ""; JBool false; JNull]
  /\ validateRequest call_fn (Sample.request "post" [("body", JNull)] [] (JObj []))
       (JObj [("body", JNum 7)]) = Ok (JObj [("body", JNum 7)]).
Proof.
  split; [|reflexivity]. repeat constructor.
Qed.

(* ------------------------------------------------------------------ *)
(** *** Response validation *)

Lemma validateResponse_returns this response w responses desc :
  get_prop (route this) "responses" = Ok responses ->
  get_prop responses (Str.of_Z (status response)) = Ok desc ->
  bodyUsed response = false ->
  exists w',
    validateResponse call_fn JSON_parse this response w = (Ok response, w')
    /\ fetch_log w' = fetch_log w
    /\ warn_log w'
       = (warn_log w
          ++ if truthy desc && typeof_is desc "object" && truthy (field desc "schema")
             then match response_check call_fn JSON_parse (field desc "schema") response with
                  | Ok _ => []
                  | Err e => [e]
                  end
             else [])%list.
Proof.
  intros Hr Hd Hu.
  unfold validateResponse, response_check, bind, lift, ret, try_catch, clone.
  rewrite Hr, Hd, Hu.
  destruct (truthy desc && typeof_is desc "object" && truthy (field desc "schema")).
  - destruct (json JSON_parse response) as [data|e]; cbn [rbind].
    + destruct (createParseFn call_fn (field desc "schema")) as [validator|e];
        cbn [rbind].
      * destruct (validator data) as [v|e].
        -- exists w. now rewrite List.app_nil_r.
        -- eexists. split; [reflexivity|]. split; reflexivity.
      * eexists. split; [reflexivity|]. split; reflexivity.
    + eexists. split; [reflexivity|]. split; reflexivity.
  - exists w. now rewrite List.app_nil_r.
Qed.

(** Whatever [validateResponse] does, it invokes no transport. *)
Lemma validateResponse_fetch_log this response w :
  fetch_log (snd (validateResponse call_fn JSON_parse this response w)) = fetch_log w.
Proof.
  unfold validateResponse, bind, lift, ret, try_catch.
  destruct (get_prop (route this) "responses") as [responses|]; [|reflexivity].
  destruct (get_prop responses (Str.of_Z (status response))) as [desc|]; [|reflexivity].
  destruct (truthy desc && typeof_is desc "object" && truthy (field desc "schema"));
    [|reflexivity].
  destruct (clone response) as [cloned|e]; [|reflexivity].
  destruct (json JSON_parse cloned) as [data|e]; [|reflexivity].
  destruct (createParseFn call_fn (field desc "schema")) as [validator|e]; [|reflexivity].
  destruct (validator data); reflexivity.
Qed.

(** C3, amended.  When the response descriptor of the received status code
    declares a schema and the body of the response has not been read
    before, [validateResponse] returns the response it was given, for
    every body: one that is not JSON, one the schema rejects, and a schema
    no parse function can be made of, all end in a warning.  So a call
    whose transport returned such a response resolves to that response. *)
Theorem response_validation_never_propagates :
  forall (this : HttpClientRequest) (response : Response) (responses desc : JsValue),
    get_prop (route this) "responses" = Ok responses ->
    get_prop responses (Str.of_Z (status response)) = Ok desc ->
    truthy desc && typeof_is desc "object" && truthy (field desc "schema") = true ->
    bodyUsed response = false ->
    (forall w, exists w',
        validateResponse call_fn JSON_parse this response w = (Ok response, w')
        /\ fetch_log w' = fetch_log w
        /\ warn_log w'
           = (warn_log w
              ++ match response_check call_fn JSON_parse (field desc "schema") response with
                 | Ok _ => []
                 | Err e => [e]
                 end)%list)
    /\ (forall args options w processedArgs finalUrl headers bh w1,
          validateRequest call_fn this (default_param args (JObj [])) = Ok processedArgs ->
          buildUrl this processedArgs = Ok finalUrl ->
          prepareHeaders call_fn processedArgs
            (deepMerge (baseOptions this) (default_param options (JObj []))) = Ok headers ->
          prepareBody JSON_parse JSON_stringify this processedArgs headers = Ok bh ->
          dispatch transport
            (deepMerge (baseOptions this) (default_param options (JObj [])))
            finalUrl (method this) (snd bh) (fst bh) w = (Ok response, w1) ->
          exists w2,
            execute call_fn transport JSON_parse JSON_stringify this args options w
            = (Ok response, w2)).
Proof.
  intros this response responses desc Hr Hd Hs Hu. split.
  - intros w.
    destruct (validateResponse_returns this response w responses desc Hr Hd Hu)
      as [w' [H1 [H2 H3]]].
    exists w'. rewrite Hs in H3. now repeat split.
  - intros args options w pa u h bh w1 Hv Hurl Hh Hb Hdisp.
    destruct (validateResponse_returns this response w1 responses desc Hr Hd Hu)
      as [w2 [H1 _]].
    exists w2. unfold execute, bind, lift, ret.
    rewrite Hv, Hurl, Hh, Hb, Hdisp, H1. reflexivity.
Qed.

(* ------------------------------------------------------------------ *)
(** *** What is dispatched *)

Lemma app_one_neq {A : Type} (l : list A) (x : A) : l <> (l ++ [x])%list.
Proof.
  intros H. apply (f_equal (@List.length A)) in H.
  rewrite List.length_app in H. cbn in H. lia.
Qed.

(** A run of [dispatch] that invokes the transport invokes it once, on the
    descriptor assembled from its arguments. *)
Lemma dispatch_log mergedOptions finalUrl m headers body w r w' f u init :
  dispatch transport mergedOptions finalUrl m headers body w = (r, w') ->
  fetch_log w' = (fetch_log w ++ [(f, u, init)])%list ->
  u = finalUrl
  /\ init = request_init m headers body (field mergedOptions "init").
Proof.
  unfold dispatch, bind, lift, throw, field.
  destruct (get_prop mergedOptions "fetch") as [fv|e].
  2:{ intros E L. injection E as _ <-. now apply app_one_neq in L. }
  destruct (get_prop mergedOptions "init") as [iv|e].
  2:{ intros E L. injection E as _ <-. now apply app_one_neq in L. }
  assert (K : forall g,
    fetch_log (mkWorld (fetch_log w ++ [(g, finalUrl, request_init m headers body iv)])%list
                 (warn_log w))
    = (fetch_log w ++ [(f, u, init)])%list ->
    u = finalUrl /\ init = request_init m headers body iv).
  { cbn [fetch_log]. intros g L. apply List.app_inv_head in L.
    injection L as _ <- <-. now split. }
  destruct fv; cbn [truthy];
    try (intros E L; injection E as _ <-; now apply (K None));
    try (intros E L; injection E as _ <-; now apply (K (Some id)));
    try (destruct b); try (destruct (negb _));
    intros E L; injection E as _ <-;
    try (now apply app_one_neq in L); now apply (K None).
Qed.

(** With a transport to call, [dispatch] calls it, once, on the URL and
    the descriptor. *)
Lemma dispatch_runs mergedOptions finalUrl m headers body w fv f :
  get_prop mergedOptions "fetch" = Ok fv ->
  fetch_used fv = Some f ->
  dispatch transport mergedOptions finalUrl m headers body w
  = (transport f finalUrl (request_init m headers body (field mergedOptions "init")),
     mkWorld
       (fetch_log w
        ++ [(f, finalUrl, request_init m headers body (field mergedOptions "init"))])%list
       (warn_log w)).
Proof.
  intros Hf Hu. unfold dispatch, bind, lift, throw, field. rewrite Hf.
  destruct (get_prop_total _ _ "init" _ Hf) as [iv ->].
  destruct fv; cbn [fetch_used truthy] in Hu |- *;
    repeat match type of Hu with
           | (if ?c then _ else _) = _ => destruct c
           end;
    try discriminate; injection Hu as <-; reflexivity.
Qed.

(** A call that invokes the transport went through every step before. *)
Lemma execute_dispatched this args options w r w' f u init :
  execute call_fn transport JSON_parse JSON_stringify this args options w = (r, w') ->
  fetch_log w' = (fetch_log w ++ [(f, u, init)])%list ->
  exists processedArgs headers bh,
    validateRequest call_fn this (default_param args (JObj [])) = Ok processedArgs
    /\ buildUrl this processedArgs = Ok u
    /\ prepareHeaders call_fn processedArgs
         (deepMerge (baseOptions this) (default_param options (JObj []))) = Ok headers
    /\ prepareBody JSON_parse JSON_stringify this processedArgs headers = Ok bh
    /\ init = request_init (method this) (snd bh) (fst bh)
                (field (deepMerge (baseOptions this) (default_param options (JObj [])))
                   "init").
Proof.
  unfold execute, bind, lift, ret.
  destruct (validateRequest call_fn this (default_param args (JObj []))) as [pa|e]
    eqn:Hv.
  2:{ intros E L. injection E as _ <-. now apply app_one_neq in L. }
  destruct (buildUrl this pa) as [fu|e] eqn:Hu.
  2:{ intros E L. injection E as _ <-. now apply app_one_neq in L. }
  destruct (prepareHeaders call_fn pa _) as [h|e] eqn:Hh.
  2:{ intros E L. injection E as _ <-. now apply app_one_neq in L. }
  destruct (prepareBody JSON_parse JSON_stringify this pa h) as [bh|e] eqn:Hb.
  2:{ intros E L. injection E as _ <-. now apply app_one_neq in L. }
  destruct (dispatch transport _ fu (method this) (snd bh) (fst bh) w)
    as [[response|e] w1] eqn:Hd.
  - intros E L.
    assert (L1 : fetch_log w' = fetch_log w1).
    { pose proof (validateResponse_fetch_log this response w1) as V.
      destruct (validateResponse call_fn JSON_parse this response w1) as [[v|e] w2];
        cbn [snd] in V; injection E as _ <-; exact V. }
    rewrite L1 in L. destruct (dispatch_log _ _ _ _ _ _ _ _ _ _ _ Hd L) as [-> ->].
    exists pa, h, bh. now repeat split.
  - intros E L. injection E as _ <-.
    destruct (dispatch_log _ _ _ _ _ _ _ _ _ _ _ Hd L) as [-> ->].
    exists pa, h, bh. now repeat split.
Qed.




(** The properties spread into the descriptor leave the assembled value of
    a name they do not hold, and replace the one of a name they hold. *)
Lemma fold_define_other (es : Fields) (k : string) :
  ~ In k (keys es) ->
  forall d : RequestInit,
    lookup k (List.fold_left (fun d kv => obj_define (fst kv) (IValue (snd kv)) d) es d)
    = lookup k d.
Proof.
  induction es as [|[k0 v0] es IH]; intros H d; [reflexivity|].
  cbn [keys List.map fst] in H. cbn [List.fold_left fst snd].
  rewrite IH by (intros Hin; apply H; now right).
  rewrite lookup_obj_define.
  destruct (String.eqb_spec k k0) as [->|_]; [|reflexivity].
  exfalso. apply H. now left.
Qed.

Lemma fold_define_lookup (es : Fields) :
  NoDup (keys es) ->
  forall (d : RequestInit) k v,
    lookup k es = Some v ->
    lookup k (List.fold_left (fun d kv => obj_define (fst kv) (IValue (snd kv)) d) es d)
    = Some (IValue v).
Proof.
  induction es as [|[k0 v0] es IH]; intros Hnd d k v Hl; [discriminate|].
  cbn [keys List.map fst] in Hnd. inversion Hnd as [|? ? Hk Hnd']; subst.
  cbn [List.fold_left fst snd]. cbn [lookup] in Hl.
  destruct (String.eqb_spec k k0) as [->|Hne].
  - injection Hl as ->. rewrite (fold_define_other es k0 Hk).
    now rewrite lookup_obj_define, String.eqb_refl.
  - now apply IH.
Qed.

Lemma request_init_assembled m headers body init k :
  has_key k (enumerable_entries init) = false ->
  lookup k (request_init m headers body init)
  = lookup k [("method", IValue (JStr m)); ("headers", IHeaders headers);
              ("body", IValue body)].
Proof.
  intros H. unfold request_init. apply fold_define_other. now apply has_key_In_false.
Qed.

Lemma request_init_replaced m headers body init k v :
  distinct_keys (enumerable_entries init) = true ->
  lookup k (enumerable_entries init) = Some v ->
  lookup k (request_init m headers body init) = Some (IValue v).
Proof.
  intros Hd H. unfold request_init. apply fold_define_lookup; [|exact H].
  now apply distinct_NoDup.
Qed.

(* ------------------------------------------------------------------ *)
(** *** Header precedence *)

Lemma headers_get_set (name k : string) (v : JsValue) (h : Headers) :
  headers_get name (headers_set k v h)
  = if String.eqb (Str.toLowerCase name) (Str.toLowerCase k)
    then Some (normalize_header_value (ToString v))
    else headers_get name h.
Proof. unfold headers_get, headers_set. apply lookup_obj_set. Qed.

(** Headers applied later win: after [entries] are applied on top of [h],
    a name carries the value [entries] give it, and the value of [h] only
    when [entries] do not set it. *)
Lemma set_all_get (name : string) (entries : Fields) (h : Headers) :
  headers_get name (set_all entries h)
  = match headers_get name (set_all entries []) with
    | Some v => Some v
    | None => headers_get name h
    end.
Proof.
  unfold set_all. revert h.
  induction entries as [|[k v] entries IH]; intros h; [reflexivity|].
  cbn [List.fold_left fst snd]. rewrite IH. rewrite (IH (headers_set k v [])).
  destruct (headers_get name
              (List.fold_left (fun h0 kv => headers_set (fst kv) (snd kv) h0) entries []));
    [reflexivity|].
  rewrite !headers_get_set.
  destruct (String.eqb (Str.toLowerCase name) (Str.toLowerCase k)); reflexivity.
Qed.











(* ------------------------------------------------------------------ *)
(** *** Array bodies *)

(** C10, amended.  For a request whose method is neither GET nor HEAD and
    whose processed body is an array, the body prepared is the JSON
    serialization of the array and the header collection is left as
    assembled from the per-call and the configured headers: content type
    inference gives nothing for an array, so no Content-Type is added.
    The descriptor a dispatching call hands over is made of that body and
    that collection, which are its [body] and [headers] unless the
    pass-through options hold an entry of that name, which takes its
    place.  A plain object body, the collection holding no Content-Type,
    gets Content-Type application/json. *)
Theorem array_body_no_content_type :
  forall (this : HttpClientRequest) (processedArgs : JsValue) (items : list JsValue),
    existsb (String.eqb (method this)) ["GET"; "HEAD"] = false ->
    get_prop processedArgs "body" = Ok (JArr items) ->
    getContentType JSON_parse (JArr items) = None
    /\ (forall headers,
          prepareBody JSON_parse JSON_stringify this processedArgs headers
          = Ok (JStr (JSON_stringify (JArr items)), headers))
    /\ (forall args options w r w' f u init,
          validateRequest call_fn this (default_param args (JObj [])) = Ok processedArgs ->
          execute call_fn transport JSON_parse JSON_stringify this args options w = (r, w') ->
          fetch_log w' = (fetch_log w ++ [(f, u, init)])%list ->
          exists headers,
            prepareHeaders call_fn processedArgs (merged_options this options) = Ok headers
            /\ init = request_init (method this) headers
                        (JStr (JSON_stringify (JArr items)))
                        (field (merged_options this options) "init")
            /\ (has_key "body"
                  (enumerable_entries (field (merged_options this options) "init"))
                = false ->
                lookup "body" init = Some (IValue (JStr (JSON_stringify (JArr items)))))
            /\ (has_key "headers"
                  (enumerable_entries (field (merged_options this options) "init"))
                = false ->
                lookup "headers" init = Some (IHeaders headers)))
    /\ (forall fields processedArgs' headers,
          get_prop processedArgs' "body" = Ok (JObj fields) ->
          headers_has "Content-Type" headers = false ->
          getContentType JSON_parse (JObj fields) = Some "application/json"
          /\ prepareBody JSON_parse JSON_stringify this processedArgs' headers
             = Ok (JStr (JSON_stringify (JObj fields)),
                   headers_set "Content-Type" (JStr "application/json") headers)).
Proof.
  intros this pa items Hm Hb.
  assert (P : forall headers,
             prepareBody JSON_parse JSON_stringify this pa headers
             = Ok (JStr (JSON_stringify (JArr items)), headers)).
  { intros headers. unfold prepareBody. rewrite Hb, Hm. cbn [rbind negb andb is_undefined].
    cbn [getContentType isObject serializeBody Array_isArray orb typeof_is typeof
         String.eqb Ascii.eqb Bool.eqb andb negb].
    now destruct (negb (headers_has "Content-Type" headers)). }
  split; [reflexivity|]. split; [exact P|]. split.
  - intros args options w r w' f u init Hv Hx Hlog.
    destruct (execute_dispatched this args options w r w' f u init Hx Hlog)
      as (pa' & h & bh & Hv' & _ & Hh & Hb' & ->).
    fold (merged_options this options) in Hh |- *.
    rewrite Hv in Hv'. injection Hv' as <-.
    rewrite P in Hb'. injection Hb' as <-. cbn [fst snd].
    exists h. split; [exact Hh|]. split; [reflexivity|]. split.
    + intros Hi. now rewrite request_init_assembled.
    + intros Hi. now rewrite request_init_assembled.
  - intros fields pa' headers Hb' Hhas. split; [reflexivity|].
    unfold prepareBody. rewrite Hb', Hm, Hhas. reflexivity.
Qed.
End Pipeline.

(* ------------------------------------------------------------------ *)
(** *** The properties at concrete calls *)

Lemma validation_failure_aborts_witness :
  execute Sample.call_fn Sample.transport Sample.JSON_parse Sample.JSON_stringify
    (Sample.request "post" [("body", Sample.rejecting_validator)] [] (JObj []))
    (JObj [("params", JObj [("id", JStr "7")]); ("body", JObj [("name", JStr "x")])])
    JUndefined Sample.world0
  = (Err (Thrown (JObj [("name", JStr "x")])), Sample.world0).
Proof.
  apply (proj2 (validation_failure_aborts
                  Sample.call_fn Sample.transport Sample.JSON_parse Sample.JSON_stringify
                  (Sample.request "post" [("body", Sample.rejecting_validator)] [] (JObj []))
                  (JObj [("params", JObj [("id", JStr "7")]);
                         ("body", JObj [("name", JStr "x")])])
                  JUndefined Sample.world0 "body" (Thrown (JObj [("name", JStr "x")]))
                  (or_intror (or_intror (or_introl eq_refl)))
                  (ex_intro _ Sample.rejecting_validator
                     (ex_intro _ (JObj [("name", JStr "x")])
                        (ex_intro _ (fun value => Sample.call_fn 2 JUndefined value)
                           (conj eq_refl (conj eq_refl (conj eq_refl
                              (conj eq_refl (conj eq_refl eq_refl)))))))))).
  intros s [<-|[<-|[]]]; reflexivity.
Defined.

Lemma response_validation_never_propagates_witness :
  exists w2,
    execute Sample.call_fn Sample.transport Sample.JSON_parse Sample.JSON_stringify
      (Sample.request "get" []
         [("200", JObj [("description", JStr "User found");
                        ("schema", Sample.rejecting_validator)])] (JObj []))
      (JObj [("params", JObj [("id", JStr "7")])]) JUndefined Sample.world0
    = (Ok (mkResponse 200 "not json" false), w2).
Proof.
  eapply (proj2 (response_validation_never_propagates
                   Sample.call_fn Sample.transport Sample.JSON_parse Sample.JSON_stringify
                   (Sample.request "get" []
                      [("200", JObj [("description", JStr "User found");
                                     ("schema", Sample.rejecting_validator)])] (JObj []))
                   (mkResponse 200 "not json" false) _ _ eq_refl eq_refl eq_refl eq_refl));
    lazy; reflexivity.
Defined.

(** C3 as stated fails: a transport that hands over a response whose body
    has been read makes the call reject after the request was sent, the
    schema accepting every body. *)
Lemma response_validation_consumed_counterexample :
  execute Sample.call_fn Sample2.consumed_transport Sample.JSON_parse
    Sample.JSON_stringify
    (Sample.request "get" []
       [("200", JObj [("schema", Sample.identity_validator)])] (JObj []))
    (JObj []) JUndefined Sample.world0
  = (Err (TypeError "Response body is already used"),
     mkWorld
       [(None, "https://api.example.com/users/:id",
         [("method", IValue (JStr "GET")); ("headers", IHeaders []);
          ("body", IValue JUndefined)])] []).
Proof. reflexivity. Qed.



Lemma array_body_no_content_type_witness :
  exists init,
    fetch_log
      (snd (execute Sample.call_fn Sample.transport Sample.JSON_parse Sample.JSON_stringify
              (Sample.request "post" [] [] (JObj []))
              (JObj [("body", JArr [])]) JUndefined Sample.world0))
    = [(None, "https://api.example.com/users/:id", init)]
    /\ lookup "body" init = Some (IValue (JStr "[]"))
    /\ lookup "headers" init = Some (IHeaders []).
Proof.
  eexists. split; [reflexivity|].
  destruct (proj1 (proj2 (proj2 (array_body_no_content_type
                     Sample.call_fn Sample.transport Sample.JSON_parse
                     Sample.JSON_stringify
                     (Sample.request "post" [] [] (JObj []))
                     (JObj [("body", JArr [])]) [] eq_refl eq_refl)))
              (JObj [("body", JArr [])]) JUndefined Sample.world0 _ _ None _ _
              eq_refl eq_refl eq_refl)
    as (headers & Hh & _ & Hb & Hhd).
  lazy in Hh. injection Hh as <-.
  split; [exact (Hb eq_refl) | exact (Hhd eq_refl)].
Defined.

(** C10 as stated fails: a [body] entry of the pass-through options takes
    the place of the serialized array in the descriptor dispatched. *)
Lemma array_body_init_counterexample :
  fetch_log
    (snd (execute Sample.call_fn Sample.transport Sample.JSON_parse Sample.JSON_stringify
            (Sample.request "post" [] [] (JObj []))
            (JObj [("body", JArr [])])
            (JObj [("init", JObj [("body", JStr "x")])]) Sample.world0))
  = [(None, "https://api.example.com/users/:id",
      [("method", IValue (JStr "POST")); ("headers", IHeaders []);
       ("body", IValue (JStr "x"))])].
Proof. reflexivity. Qed.

(* ================================================================== *)
(** ** Further properties: client-utils.ts *)
(* ================================================================== *)

Lemma starts_with_slash_strip (path : string) :
  starts_with_slash (strip_leading_slashes path) = false.
Proof.
  induction path as [|c path IH]; [reflexivity|].
  cbn [strip_leading_slashes]. destruct (Ascii.eqb c Str.slash) eqn:E; [exact IH|].
  unfold starts_with_slash. cbn [Str.head]. exact E.
Qed.

Lemma strip_leading_slashes_split (path : string) :
  exists n, path = Str.repeat Str.slash n ++ strip_leading_slashes path.
Proof.
  induction path as [|c path [n IH]]; [now exists 0%nat|].
  cbn [strip_leading_slashes]. destruct (Ascii.eqb_spec c Str.slash) as [->|_].
  - exists (S n). cbn [Str.repeat append]. now rewrite <- IH.
  - now exists 0%nat.
Qed.

Lemma all_slashes_repeat (s : string) :
  Str.all (Ascii.eqb Str.slash) s = true -> s = Str.repeat Str.slash (String.length s).
Proof.
  induction s as [|c s IH]; [reflexivity|].
  cbn [Str.all]. intros H. apply andb_prop in H as [Hc Hs].
  apply Ascii.eqb_eq in Hc. subst c. cbn [String.length Str.repeat]. now rewrite <- IH.
Qed.

Lemma strip_trailing_slashes_split (base : string) :
  ends_with_slash (strip_trailing_slashes base) = false
  /\ exists m, base = strip_trailing_slashes base ++ Str.repeat Str.slash m.
Proof.
  induction base as [|c base [IHe [m IHm]]]; [split; [reflexivity | now exists 0%nat]|].
  cbn [strip_trailing_slashes].
  destruct (slashes_to_end (String c base)) eqn:E.
  - split; [reflexivity|]. exists (String.length (String c base)).
    cbn [append]. now apply all_slashes_repeat.
  - split.
    + destruct (strip_trailing_slashes base) as [|d rest] eqn:Es.
      * unfold ends_with_slash. cbn [Str.last].
        cbn [append] in IHm. unfold slashes_to_end in E. cbn [Str.all] in E.
        destruct (Ascii.eqb_spec c Str.slash) as [->|_]; [|reflexivity].
        rewrite Ascii.eqb_refl in E. cbn [andb] in E.
        rewrite IHm in E. exfalso. clear -E.
        induction m as [|m IH]; [discriminate|].
        cbn [Str.repeat Str.all] in E. rewrite Ascii.eqb_refl in E. now apply IH.
      * unfold ends_with_slash in *. rewrite last_cons by discriminate. exact IHe.
    + exists m. cbn [append]. now rewrite <- IHm.
Qed.

(** X1.  For every base URL and every path, [mergePath] is the base URL
    without its trailing slashes, one [/], and the path without its leading
    slashes: the code unit before the separator is never a slash, nor is
    the one behind it, and nothing but slashes is removed. *)
Theorem mergePath_single_slash_everywhere :
  forall (base path : string),
    mergePath base path
    = strip_trailing_slashes base ++ "/" ++ strip_leading_slashes path
    /\ ends_with_slash (strip_trailing_slashes base) = false
    /\ starts_with_slash (strip_leading_slashes path) = false
    /\ (exists m, base = strip_trailing_slashes base ++ Str.repeat Str.slash m)
    /\ (exists n, path = Str.repeat Str.slash n ++ strip_leading_slashes path).
Proof.
  intros base path.
  destruct (strip_trailing_slashes_split base) as [He Hm].
  split; [unfold mergePath; apply append_assoc|].
  split; [exact He|]. split; [apply starts_with_slash_strip|].
  split; [exact Hm | apply strip_leading_slashes_split].
Qed.

Lemma count_append (p : ascii -> bool) (a b : string) :
  count p (a ++ b) = (count p a + count p b)%nat.
Proof. induction a as [|c a IH]; cbn [append count]; [reflexivity | rewrite IH; lia]. Qed.

Lemma count_none (p : ascii -> bool) (s : string) :
  Str.all (fun c => negb (p c)) s = true -> count p s = 0%nat.
Proof.
  induction s as [|c s IH]; [reflexivity|].
  cbn [Str.all count]. intros H. apply andb_prop in H as [Hc Hs].
  apply negb_true_iff in Hc. rewrite Hc. now rewrite IH.
Qed.

Lemma no_stop_no_boundary (s : string) :
  no_stop s = true -> Str.all (fun c => negb (is_boundary c)) s = true.
Proof.
  unfold no_stop. induction s as [|c s IH]; [reflexivity|].
  cbn [Str.all]. intros H. apply andb_prop in H as [Hc Hs].
  apply negb_true_iff in Hc. rewrite (stop_char_boundary c Hc). now rewrite IH.
Qed.

Lemma encode_uri_char_no_stop (c : ascii) : no_stop (encode_uri_char c) = true.
Proof. destruct c as [[] [] [] [] [] [] [] []]; reflexivity. Qed.

(** A percent-encoded value holds no [:], [/], [?] or [#]. *)
Lemma encodeURIComponent_no_stop (v : JsValue) : no_stop (encodeURIComponent v) = true.
Proof.
  unfold encodeURIComponent, encodeURIComponent_string, no_stop.
  induction (ToString v) as [|c s IH]; [reflexivity|].
  cbn [Str.concat_map]. rewrite all_append, IH.
  pose proof (encode_uri_char_no_stop c) as E. unfold no_stop in E. now rewrite E.
Qed.

Lemma strip_prefix_app (p s rest : string) :
  strip_prefix p s = Some rest -> s = p ++ rest.
Proof.
  revert s. induction p as [|a p IH]; intros s H.
  - cbn in H. now injection H as ->.
  - destruct s as [|b s]; [discriminate|]. cbn [strip_prefix] in H.
    destruct (Ascii.eqb_spec a b) as [->|_]; [|discriminate].
    cbn [append]. now rewrite (IH s H).
Qed.

(** One replacement round removes and adds no [/], [?] or [#]. *)
Lemma replace_scan_boundaries (key rep : string) :
  no_stop key = true -> no_stop rep = true ->
  forall n s, (String.length s <= n)%nat ->
    count is_boundary (replace_scan key rep 0 s) = count is_boundary s.
Proof.
  intros Hk Hr.
  assert (Ck : count is_boundary key = 0%nat)
    by now apply count_none, no_stop_no_boundary.
  assert (Cr : count is_boundary rep = 0%nat)
    by now apply count_none, no_stop_no_boundary.
  induction n as [|n IH]; intros s Hlen.
  - destruct s; [reflexivity | cbn in Hlen; lia].
  - destruct s as [|c s]; [reflexivity|].
    cbn [replace_scan]. destruct (param_match key (String c s)) eqn:M.
    + unfold param_match in M.
      destruct (strip_prefix (String Str.colon key) (String c s)) as [rest|] eqn:P;
        [|discriminate].
      apply strip_prefix_app in P. cbn [append] in P. injection P as -> ->.
      rewrite replace_scan_skip, !count_append, Cr.
      cbn [count]. rewrite count_append, Ck. cbn [is_boundary Ascii.eqb Bool.eqb orb].
      rewrite IH; [reflexivity|].
      cbn [String.length] in Hlen. rewrite append_length in Hlen. lia.
    + cbn [count]. rewrite IH; [reflexivity|]. cbn [String.length] in Hlen. lia.
Qed.

Lemma replaceUrlParams_fold_boundaries (params : Fields) (s : string) :
  plain_keys params = true ->
  count is_boundary (List.fold_left replaceUrlParams_step params s)
  = count is_boundary s.
Proof.
  revert s. induction params as [|[k v] params IH]; intros s Hk; [reflexivity|].
  cbn [plain_keys forallb fst] in Hk. apply andb_prop in Hk as [Hk Hks].
  cbn [List.fold_left replaceUrlParams_step]. rewrite (IH _ Hks).
  destruct (negb (is_undefined v)); [|reflexivity].
  unfold replace_param.
  apply (replace_scan_boundaries k _ (plain_name_no_stop k Hk)
           (encodeURIComponent_no_stop v) (String.length s) s).
  lia.
Qed.

(** X2.  Whatever the URL and whatever the values, substitution with plain
    keys leaves the number of [/], [?] and [#] of the URL as it was: a
    parameter value cannot add a path segment, a query or a fragment, and
    no separator of the template is consumed. *)
Theorem replaceUrlParams_keeps_separators :
  forall (s : string) (params : Fields),
    plain_keys params = true ->
    exists r,
      replaceUrlParams s (JObj params) = Ok r
      /\ count is_boundary r = count is_boundary s.
Proof.
  intros s params Hk. eexists. split.
  - unfold replaceUrlParams. cbn [Object_entries enumerable_entries rbind]. reflexivity.
  - now apply replaceUrlParams_fold_boundaries.
Qed.

Lemma replaceUrlParams_keeps_separators_witness :
  exists r,
    replaceUrlParams "/files/:name/raw" (JObj [("name", JStr "../../etc/passwd?x#y")])
    = Ok r
    /\ count is_boundary r = count is_boundary "/files/:name/raw".
Proof.
  exact (replaceUrlParams_keeps_separators "/files/:name/raw"
           [("name", JStr "../../etc/passwd?x#y")] eq_refl).
Defined.

Lemma fill_idempotent (params : Fields) (t : list Piece) :
  fill params (fill params t) = fill params t.
Proof.
  unfold fill. rewrite List.map_map. apply List.map_ext. intros [s|n]; [reflexivity|].
  cbn [fill_piece]. destruct (param_value n params) eqn:E; cbn [fill_piece];
    [reflexivity | now rewrite E].
Qed.

(** X3.  On a URL whose placeholders are bounded, substituting the same
    params a second time changes nothing: what a value contributes is never
    taken for a placeholder again. *)
Theorem replaceUrlParams_idempotent :
  forall (s : string) (params : Fields),
    placeholders_bounded s = true ->
    plain_keys params = true ->
    exists r,
      replaceUrlParams s (JObj params) = Ok r
      /\ replaceUrlParams r (JObj params) = Ok r.
Proof.
  intros s params Hb Hk. rewrite <- well_formed_pieces in Hb.
  exists (render (fill params (pieces s))).
  unfold replaceUrlParams. cbn [Object_entries enumerable_entries rbind].
  split.
  - rewrite <- (render_pieces s) at 1. now rewrite replaceUrlParams_render.
  - rewrite replaceUrlParams_render; [now rewrite fill_idempotent | exact Hk |].
    now apply well_formed_fill.
Qed.

Lemma replaceUrlParams_idempotent_witness :
  exists r,
    replaceUrlParams "/users/:id/:tab" (JObj [("id", JStr ":tab"); ("tab", JStr "x")])
    = Ok r
    /\ replaceUrlParams r (JObj [("id", JStr ":tab"); ("tab", JStr "x")]) = Ok r.
Proof.
  exact (replaceUrlParams_idempotent "/users/:id/:tab"
           [("id", JStr ":tab"); ("tab", JStr "x")] eq_refl eq_refl).
Defined.

(* ------------------------------------------------------------------ *)
(* ================================================================== *)
(** ** Further properties: libs/parser.ts *)
(* ================================================================== *)

Section AdapterConventions.

Variable call_fn : FunId -> JsValue -> JsValue -> Res JsValue.

(** X7.  On an object validator the first of [parseAsync], [parse],
    [validateSync], [create] that is a function is the one used, whatever
    else the object offers ([assert], the Standard Schema marker): the
    parse function calls it with the validator as receiver and hands on
    its outcome, value or error, as it is. *)
Theorem createParseFn_method_precedence :
  forall (fields : Fields) (f : FunId),
    first_method (JObj fields) method_order = Some f ->
    exists parse,
      createParseFn call_fn (JObj fields) = Ok parse
      /\ forall input, parse input = call_fn f (JObj fields) input.
Proof.
  intros fields f H. unfold createParseFn. cbn [prop_in rbind].
  unfold method_order in H. cbn [first_method] in H.
  destruct (method_of (JObj fields) "assert") as [a|];
    destruct (method_of (JObj fields) "parseAsync") as [f1|];
    try (injection H as ->; eexists; split; [reflexivity | intros; reflexivity]);
    destruct (method_of (JObj fields) "parse") as [f2|];
    try (injection H as ->; eexists; split; [reflexivity | intros; reflexivity]);
    destruct (method_of (JObj fields) "validateSync") as [f3|];
    try (injection H as ->; eexists; split; [reflexivity | intros; reflexivity]);
    destruct (method_of (JObj fields) "create") as [f4|];
    try (injection H as ->; eexists; split; [reflexivity | intros; reflexivity]);
    discriminate.
Qed.

(** X8.  An object validator with [assert] and none of the four parse
    methods is wrapped: the parse function runs the assertion and returns
    the input itself, not what the assertion returned; an error of the
    assertion is handed on as it is. *)
Theorem createParseFn_assert_only :
  forall (fields : Fields) (a : FunId),
    first_method (JObj fields) method_order = None ->
    method_of (JObj fields) "assert" = Some a ->
    exists parse,
      createParseFn call_fn (JObj fields) = Ok parse
      /\ forall input,
           parse input
           = match call_fn a (JObj fields) input with
             | Ok _ => Ok input
             | Err e => Err e
             end.
Proof.
  intros fields a H Ha. unfold createParseFn. cbn [prop_in rbind].
  unfold method_order in H. cbn [first_method] in H. rewrite Ha.
  destruct (method_of (JObj fields) "parseAsync"); [discriminate|].
  destruct (method_of (JObj fields) "parse"); [discriminate|].
  destruct (method_of (JObj fields) "validateSync"); [discriminate|].
  destruct (method_of (JObj fields) "create"); [discriminate|].
  eexists. split; [reflexivity|]. intros input. cbn beta.
  destruct (call_fn a (JObj fields) input); reflexivity.
Qed.

(** X9.  A callable validator.  With an [assert] method it is the
    assertion that is called, with the validator as receiver, and what the
    assertion returns (or throws) is the result: the input is not put in
    its place, as it is for an object that has [assert] only.  Without
    [assert] and without the Standard Schema marker the validator itself
    is called, without receiver, even when it also carries parse methods. *)
Theorem createParseFn_callable :
  forall (id : FunId) (props : Fields),
    (forall a, method_of (JFun id props) "assert" = Some a ->
       exists parse,
         createParseFn call_fn (JFun id props) = Ok parse
         /\ forall input, parse input = call_fn a (JFun id props) input)
    /\ (method_of (JFun id props) "assert" = None ->
        has_key "~standard" props = false ->
        exists parse,
          createParseFn call_fn (JFun id props) = Ok parse
          /\ forall input, parse input = call_fn id JUndefined input).
Proof.
  intros id props. split.
  - intros a Ha. unfold createParseFn. cbn [prop_in rbind]. rewrite Ha.
    eexists. split; [reflexivity | intros; reflexivity].
  - intros Ha Hs. unfold createParseFn. cbn [prop_in rbind]. rewrite Ha, Hs.
    eexists. split; [reflexivity | intros; reflexivity].
Qed.

(** X10.  [createParseFn] fails in two ways only, both before any
    validator code runs: with the TypeError of the [in] operator on a
    primitive that is not [null], and with the error "Could not find a
    compatible parser method" on an object that has none of the five
    methods as a function and no Standard Schema marker. *)
Theorem createParseFn_failure :
  forall (schema : JsValue) (e : JsError),
    createParseFn call_fn schema = Err e ->
    (prop_in "~standard" schema = Err e /\ isObject schema = false)
    \/ (e = PlainError "Could not find a compatible parser method"
        /\ typeof_is schema "object" = true
        /\ prop_in "~standard" schema = Ok false
        /\ first_method schema method_order = None
        /\ method_of schema "assert" = None).
Proof.
  intros schema e H. unfold createParseFn in H.
  unfold method_order. cbn [first_method].
  destruct (prop_in "~standard" schema) as [std|e'] eqn:Ein.
  - right.
    destruct schema; try discriminate; cbn [rbind] in H;
      destruct (method_of _ "assert") as [a|]; try discriminate;
      try (destruct std; try discriminate);
      destruct (method_of _ "parseAsync"); try discriminate;
      destruct (method_of _ "parse"); try discriminate;
      destruct (method_of _ "validateSync"); try discriminate;
      destruct (method_of _ "create"); try discriminate;
      try (destruct std; try discriminate);
      injection H as <-; repeat split.
  - left.
    destruct (object_like schema) eqn:Eo.
    { destruct (prop_in_object_like "~standard" schema Eo) as [b Hb]. congruence. }
    destruct schema; try discriminate; cbn [rbind] in H;
      injection H as <-; split; reflexivity.
Qed.

End AdapterConventions.

Lemma createParseFn_method_precedence_witness :
  exists parse,
    createParseFn Sample.call_fn Sample2.zod_like = Ok parse
    /\ forall input, parse input = Ok input.
Proof.
  exact (createParseFn_method_precedence Sample.call_fn
           [("parse", JFun 2 []); ("parseAsync", JFun 1 []);
            ("~standard", JObj [("version", JNum 1); ("validate", JFun 3 [])])]
           1%nat eq_refl).
Defined.

Lemma createParseFn_assert_only_witness :
  exists parse,
    createParseFn Sample.call_fn
      (JObj [("assert", JFun 5 []); ("validate", JFun 2 [])]) = Ok parse
    /\ forall input,
         parse input
         = match Sample.call_fn 5 (JObj [("assert", JFun 5 []); ("validate", JFun 2 [])])
                   input with
           | Ok _ => Ok input
           | Err e => Err e
           end.
Proof.
  exact (createParseFn_assert_only Sample.call_fn
           [("assert", JFun 5 []); ("validate", JFun 2 [])] 5%nat eq_refl eq_refl).
Defined.

Lemma createParseFn_callable_witness :
  exists parse,
    createParseFn Sample.call_fn (JFun 2 [("assert", JFun 4 [])]) = Ok parse
    /\ forall input, parse input = Ok (JObj [("A", JStr "2")]).
Proof.
  exact (proj1 (createParseFn_callable Sample.call_fn 2%nat [("assert", JFun 4 [])])
           4%nat eq_refl).
Defined.

Lemma createParseFn_failure_witness :
  createParseFn Sample.call_fn (JObj [("validate", JFun 1 [])])
  = Err (PlainError "Could not find a compatible parser method").
Proof.
  destruct (createParseFn_failure Sample.call_fn (JObj [("validate", JFun 1 [])])
              (PlainError "Could not find a compatible parser method") eq_refl)
    as [[H _]|[_ _]]; [discriminate H | reflexivity].
Defined.

(* ================================================================== *)
(** ** Further properties: the client tree of any object *)
(* ================================================================== *)

Lemma property_order_tail (x : string) (l : list string) :
  property_order (x :: l) = true -> property_order l = true.
Proof. cbn [property_order]. intros H. now apply andb_prop in H as [_ H]. Qed.

Lemma property_order_remove (a b : list string) (x : string) :
  property_order (a ++ x :: b)%list = true -> property_order (a ++ b)%list = true.
Proof.
  induction a as [|y a IH]; cbn [List.app]; [apply property_order_tail|].
  cbn [property_order]. intros H. apply andb_prop in H as [H0 H].
  rewrite (IH H), andb_true_r. rewrite forallb_forall in *.
  intros z Hz. apply H0. apply List.in_app_or in Hz as [Hz|Hz]; apply List.in_or_app;
    [now left | right; now right].
Qed.

(** As long as the prototype of the client is untouched, an assignment
    under a name other than [__proto__] defines the own property. *)
Lemma client_assign_plain (key : string) (c : Client) (cs : list (string * Client)) :
  String.eqb key proto_key = false ->
  client_assign key c (None, cs) = Ok (None, obj_define key c cs).
Proof.
  intros H. unfold client_assign. rewrite H. cbn [andb fst snd].
  now rewrite andb_false_r.
Qed.

Lemma client_step_outcome (rec : Res Client) (baseUrl baseOptions : JsValue)
  (key : string) (value : JsValue) (cs : list (string * Client)) :
  String.eqb key proto_key = false ->
  (isObject value = true -> isRouteDefinition value = false -> exists c, rec = Ok c) ->
  exists cs',
    client_step rec baseUrl baseOptions key value (None, cs) = Ok (None, cs')
    /\ (qualifies value = false -> cs' = cs)
    /\ (qualifies value = true ->
        exists c,
          cs' = obj_define key c cs
          /\ (if isRouteDefinition value
              then c = createEndpoint baseUrl value baseOptions
              else rec = Ok c)).
Proof.
  intros Hk Hrec. unfold client_step, qualifies.
  destruct (isRouteDefinition value) eqn:Er; cbn [orb].
  - rewrite (client_assign_plain _ _ _ Hk).
    eexists. split; [reflexivity|]. split; [discriminate|].
    intros _. eexists. split; reflexivity.
  - destruct (isObject value) eqn:Eo.
    + destruct (Hrec eq_refl eq_refl) as [c ->]. cbn [rbind].
      rewrite (client_assign_plain _ _ _ Hk).
      eexists. split; [reflexivity|]. split; [discriminate|].
      intros _. exists c. split; reflexivity.
    + eexists. split; [reflexivity|]. split; [reflexivity | discriminate].
Qed.

(** The loop of [createClientFromRouteMap] over entries none of which is
    named [__proto__]: it ends without error once the nested calls do,
    leaves the prototype of the client alone, gives keys to qualifying
    values only, and a key of a qualifying value holds what was built of
    the value. *)
Lemma client_loop_any (baseUrl baseOptions : JsValue) (fs : Fields) :
  Forall (fun kv =>
            isObject (snd kv) = true ->
            isRouteDefinition (snd kv) = false ->
            exists c, createClientFromRouteMap (snd kv) baseUrl baseOptions = Ok c) fs ->
  ~ In proto_key (keys fs) ->
  forall cs,
    exists cs',
      (fix loop (src : Fields) (client : ClientState) :=
         match src with
         | [] => Ok client
         | (key, value) :: src' =>
             rbind (client_step (createClientFromRouteMap value baseUrl baseOptions)
                      baseUrl baseOptions key value client)
                   (fun client => loop src' client)
         end) fs (None, cs) = Ok (None, cs')
      /\ (forall k, ~ In k (keys fs) -> lookup k cs' = lookup k cs)
      /\ (forall k, In k (keys cs') ->
            In k (keys cs) \/ exists v, In (k, v) fs /\ qualifies v = true)
      /\ (NoDup (keys fs) ->
          forall k v, lookup k fs = Some v -> qualifies v = true ->
            exists c,
              lookup k cs' = Some c
              /\ (if isRouteDefinition v
                  then c = createEndpoint baseUrl v baseOptions
                  else createClientFromRouteMap v baseUrl baseOptions = Ok c))
      /\ (NoDup (keys fs) ->
          (forall k, In k (keys fs) -> ~ In k (keys cs)) ->
          property_order (keys cs ++ keys fs)%list = true ->
          keys cs'
          = (keys cs ++ keys (List.filter (fun kv => qualifies (snd kv)) fs))%list).
Proof.
  intros HF. induction fs as [|[k0 v0] fs IH]; intros Hnp cs.
  - exists cs. split; [reflexivity|]. split; [reflexivity|]. split; [now left|].
    split; [discriminate|]. intros _ _ _. cbn. now rewrite List.app_nil_r.
  - inversion HF as [|? ? Hv HF']; subst. cbn [snd] in Hv.
    cbn [keys List.map fst] in Hnp.
    assert (Hk0 : String.eqb k0 proto_key = false).
    { apply String.eqb_neq. intros ->. apply Hnp. now left. }
    destruct (client_step_outcome
                (createClientFromRouteMap v0 baseUrl baseOptions)
                baseUrl baseOptions k0 v0 cs Hk0 Hv) as [cs1 [Hstep [Hno Hyes]]].
    rewrite Hstep. cbn [rbind].
    destruct (IH HF' (fun H => Hnp (or_intror H)) cs1)
      as [cs' [Hloop [Hown [Hin [Hget Hkeys]]]]].
    exists cs'. split; [exact Hloop|]. cbn [keys List.map fst].
    split; [|split; [|split]].
    + intros k Hk. rewrite Hown by (intros H; apply Hk; now right).
      destruct (qualifies v0) eqn:Eq; [|now rewrite (Hno eq_refl)].
      destruct (Hyes eq_refl) as [c [-> _]]. rewrite lookup_obj_define.
      destruct (String.eqb_spec k k0) as [->|_]; [|reflexivity].
      exfalso. apply Hk. now left.
    + intros k Hk. destruct (Hin k Hk) as [Hc|[v' [Hv' Hq]]].
      * destruct (qualifies v0) eqn:Eq.
        -- destruct (Hyes eq_refl) as [c [-> _]].
           apply has_key_In in Hc. rewrite has_key_obj_define in Hc.
           destruct (String.eqb_spec k k0) as [->|Hne].
           ++ right. exists v0. split; [now left | exact Eq].
           ++ left. now apply has_key_In.
        -- rewrite (Hno eq_refl) in Hc. now left.
      * right. exists v'. split; [now right | exact Hq].
    + intros Hnd k v Hl Hq. inversion Hnd as [|? ? Hk0' Hnd']; subst.
      cbn [lookup] in Hl. destruct (String.eqb_spec k k0) as [->|Hne].
      * injection Hl as ->. destruct (Hyes Hq) as [c [-> Hc]].
        exists c. split; [|exact Hc].
        rewrite (Hown k0 Hk0'). now rewrite lookup_obj_define, String.eqb_refl.
      * now apply (Hget Hnd').
    + intros Hnd Hfresh Hord. inversion Hnd as [|? ? Hk0' Hnd']; subst.
      cbn [List.filter snd].
      destruct (qualifies v0) eqn:Eq.
      * destruct (Hyes eq_refl) as [c [-> _]].
        assert (D : obj_define k0 c cs = (cs ++ [(k0, c)])%list).
        { apply obj_define_last.
          - destruct (has_key k0 cs) eqn:E; [|reflexivity].
            apply has_key_In in E. exfalso. apply (Hfresh k0); [now left | exact E].
          - apply (property_order_app _ (keys fs)).
            rewrite <- List.app_assoc. exact Hord. }
        rewrite D in *. rewrite Hkeys; [| exact Hnd' | |].
        -- rewrite keys_app. cbn [keys List.map fst]. now rewrite <- List.app_assoc.
        -- intros k Hk Hc. rewrite keys_app in Hc.
           apply List.in_app_or in Hc as [Hc|[<-|[]]]; [|contradiction].
           apply (Hfresh k); [now right | exact Hc].
        -- rewrite keys_app. cbn [keys List.map fst]. rewrite <- List.app_assoc.
           exact Hord.
      * rewrite (Hno eq_refl) in *. apply (Hkeys Hnd').
        -- intros k Hk. apply Hfresh. now right.
        -- now apply property_order_remove in Hord.
Qed.

Lemma createClientFromRouteMap_total (baseUrl baseOptions : JsValue) :
  forall v,
    isObject v = true ->
    no_proto_key v = true ->
    exists c, createClientFromRouteMap v baseUrl baseOptions = Ok c.
Proof.
  intros v. rewrite createClientFromRouteMap_default.
  generalize (default_param_object baseOptions).
  generalize (default_param baseOptions (JObj [])). clear baseOptions.
  intros baseOptions Hopt.
  assert (L : forall fs,
             Forall (fun kv =>
                       isObject (snd kv) = true ->
                       no_proto_key (snd kv) = true ->
                       exists c,
                         createClientFromRouteMap (snd kv) baseUrl baseOptions = Ok c) fs ->
             negb (has_key proto_key fs) && forallb (fun kv => no_proto_key (snd kv)) fs
             = true ->
             exists c, createClientFromRouteMap (JObj fs) baseUrl baseOptions = Ok c).
  { intros fs IH Hp. apply andb_prop in Hp as [Hnp Hp].
    apply negb_true_iff in Hnp. rewrite forallb_forall in Hp.
    assert (HF : Forall (fun kv =>
                   isObject (snd kv) = true ->
                   isRouteDefinition (snd kv) = false ->
                   exists c,
                     createClientFromRouteMap (snd kv) baseUrl baseOptions = Ok c) fs).
    { rewrite List.Forall_forall in *. intros kv Hin Ho _.
      exact (IH kv Hin Ho (Hp kv Hin)). }
    destruct (client_loop_any baseUrl baseOptions fs HF (has_key_In_false _ _ Hnp) [])
      as [cs' [Hloop _]].
    cbn [createClientFromRouteMap]. rewrite Hopt, Hloop. cbn [rbind].
    eexists. reflexivity. }
  induction v as [v Hv | items IH | fs IH | id fs IH | p fs IHp IH] using JsValue_ind;
    intros Ho Hp; try discriminate.
  - destruct v; try discriminate; eexists; reflexivity.
  - cbn [no_proto_key] in Hp. now apply L.
  - cbn [no_proto_key] in Hp. destruct (L fs IH Hp) as [c Hc]. exists c.
    rewrite <- Hc. cbn [createClientFromRouteMap]. reflexivity.
Qed.

(** X22.  On an object that has no key [__proto__] at any depth,
    [createClientFromRouteMap] ends without error and leaves the prototype
    of the client alone.  The client it builds has a key only where the
    value is a route definition by the run-time test or another object;
    values that are neither (strings, numbers, null, arrays, functions)
    are passed over in silence.  With pairwise different keys, listed in
    property order, the keys of the client are those of the qualifying
    entries, in their order. *)
Theorem client_tree_of_any_object :
  forall (fields : Fields) (baseUrl baseOptions : JsValue),
    no_proto_key (JObj fields) = true ->
    exists cs,
      createClientFromRouteMap (JObj fields) baseUrl baseOptions
      = Ok (ClientObj None cs)
      /\ (forall k, In k (keys cs) -> exists v, In (k, v) fields /\ qualifies v = true)
      /\ (distinct_keys fields = true ->
          property_order (keys fields) = true ->
          keys cs = keys (List.filter (fun kv => qualifies (snd kv)) fields)).
Proof.
  intros fields baseUrl baseOptions Hp.
  rewrite createClientFromRouteMap_default.
  assert (Hopt := default_param_object baseOptions).
  set (opts := default_param baseOptions (JObj [])) in *.
  cbn [no_proto_key] in Hp. apply andb_prop in Hp as [Hnp Hp].
  apply negb_true_iff in Hnp. rewrite forallb_forall in Hp.
  assert (HF : Forall (fun kv =>
                 isObject (snd kv) = true ->
                 isRouteDefinition (snd kv) = false ->
                 exists c, createClientFromRouteMap (snd kv) baseUrl opts = Ok c) fields).
  { apply List.Forall_forall. intros kv Hin Ho _.
    apply createClientFromRouteMap_total; [exact Ho | exact (Hp kv Hin)]. }
  destruct (client_loop_any baseUrl opts fields HF (has_key_In_false _ _ Hnp) [])
    as [cs' [Hloop [_ [Hin [_ Hkeys]]]]].
  exists cs'. cbn [createClientFromRouteMap].
  rewrite Hopt, Hloop. cbn [rbind].
  split; [reflexivity|]. split.
  - intros k Hk. destruct (Hin k Hk) as [[]|H]. exact H.
  - intros Hd Ho. apply Hkeys; [now apply distinct_NoDup | intros k _ [] | exact Ho].
Qed.

Lemma client_tree_of_any_object_witness :
  exists cs,
    createClientFromRouteMap
      (JObj [("version", JStr "v1");
             ("users", JObj [("get", Sample.route "get" [] []); ("limit", JNum 5)]);
             ("list", JArr []);
             ("ping", Sample.route "head" [] [])])
      (JStr "https://api.example.com") JUndefined
    = Ok (ClientObj None cs)
    /\ keys cs = ["users"; "ping"].
Proof.
  destruct (client_tree_of_any_object
              [("version", JStr "v1");
               ("users", JObj [("get", Sample.route "get" [] []); ("limit", JNum 5)]);
               ("list", JArr []);
               ("ping", Sample.route "head" [] [])]
              (JStr "https://api.example.com") JUndefined eq_refl) as [cs [H [_ Hk]]].
  exists cs. split; [exact H | exact (Hk eq_refl eq_refl)].
Defined.


(* ================================================================== *)
(** ** Further properties: client.ts *)
(* ================================================================== *)

Section Requests.

Variable call_fn : FunId -> JsValue -> JsValue -> Res JsValue.
Variable transport : option FunId -> string -> RequestInit -> Res Response.
Variable JSON_parse : string -> Res JsValue.
Variable JSON_stringify : JsValue -> string.


Lemma declared_validator_defined (this : HttpClientRequest) (slot : string) :
  is_nullish (route this) = false -> exists schema, declared_validator this slot = Ok schema.
Proof.
  intros H. unfold declared_validator.
  destruct (get_prop_defined (route this) "request" H) as [r ->]. cbn [rbind].
  destruct (is_nullish r) eqn:E; [now eexists | now apply get_prop_defined].
Qed.

Lemma validateSlot_omitted this args slot processedArgs :
  is_nullish (route this) = false ->
  get_prop args slot = Ok JUndefined ->
  validateSlot call_fn this args slot processedArgs = Ok processedArgs.
Proof.
  intros Hr Ha. destruct (declared_validator_defined this slot Hr) as [schema Hs].
  rewrite (validateSlot_cases call_fn this args slot processedArgs schema JUndefined Hs Ha).
  cbn [is_undefined negb truthy]. now rewrite andb_false_r.
Qed.

(** X11.  A slot the caller leaves out is not validated: whatever the
    route declares, even a validator that rejects every input, a call
    without any of the four slots gets empty processed arguments and no
    validator is run. *)
Theorem omitted_slots_are_not_validated :
  forall (this : HttpClientRequest) (args : JsValue),
    is_nullish (route this) = false ->
    (forall slot, In slot slots -> get_prop args slot = Ok JUndefined) ->
    validateRequest call_fn this args = Ok (JObj []).
Proof.
  intros this args Hr Ha.
  assert (S : forall slot pa, In slot slots ->
                validateSlot call_fn this args slot pa = Ok pa).
  { intros slot pa Hin. apply validateSlot_omitted; [exact Hr | now apply Ha]. }
  unfold validateRequest.
  rewrite (S "params" _ (or_introl eq_refl)). cbn [rbind].
  rewrite (S "query" _ (or_intror (or_introl eq_refl))). cbn [rbind].
  rewrite (S "body" _ (or_intror (or_intror (or_introl eq_refl)))). cbn [rbind].
  rewrite (S "headers" _ (or_intror (or_intror (or_intror (or_introl eq_refl))))).
  reflexivity.
Qed.

Lemma slot_value_supplied this args slot v :
  slot_value call_fn this args slot = Ok (Some v) ->
  exists arg, get_prop args slot = Ok arg /\ is_undefined arg = false.
Proof.
  unfold slot_value.
  destruct (declared_validator this slot) as [schema|]; cbn [rbind]; [|discriminate].
  destruct (get_prop args slot) as [arg|]; cbn [rbind]; [|discriminate].
  intros H. exists arg. split; [reflexivity|].
  destruct (is_undefined arg) eqn:E; [|reflexivity].
  rewrite andb_false_r in H. destruct arg; discriminate.
Qed.

(** X12.  The processed arguments are an object whose keys are request
    slots, each at most once and in the order params, query, body, headers,
    and every slot they hold is one the caller supplied: nothing is
    defaulted or invented. *)
Theorem processed_arguments_shape :
  forall (this : HttpClientRequest) (args processedArgs : JsValue),
    validateRequest call_fn this args = Ok processedArgs ->
    exists fields,
      processedArgs = JObj fields
      /\ keys fields = List.filter (fun slot => has_key slot fields) slots
      /\ (forall slot v,
            lookup slot fields = Some v ->
            exists arg, get_prop args slot = Ok arg /\ is_undefined arg = false).
Proof.
  intros this args pa H.
  destruct (validateRequest_slots call_fn this args pa H) as [fields [-> Hs]].
  exists fields. split; [reflexivity|].
  assert (K : keys fields = List.filter (fun slot => has_key slot fields) slots).
  { clear Hs. unfold validateRequest in H. rewrite !validateSlot_slot_value in H.
    destruct (slot_value call_fn this args "params") as [[p|]|]; cbn [rbind] in H;
      try discriminate;
      rewrite !validateSlot_slot_value in H;
      destruct (slot_value call_fn this args "query") as [[q|]|]; cbn [rbind] in H;
      try discriminate;
      rewrite !validateSlot_slot_value in H;
      destruct (slot_value call_fn this args "body") as [[b|]|]; cbn [rbind] in H;
      try discriminate;
      rewrite !validateSlot_slot_value in H;
      destruct (slot_value call_fn this args "headers") as [[h|]|]; cbn [rbind] in H;
      try discriminate;
      injection H as <-; reflexivity. }
  split; [exact K|].
  intros slot v Hl.
  assert (Hin : In slot slots).
  { apply lookup_In in Hl. apply (List.in_map fst) in Hl. cbn [fst] in Hl.
    fold (keys fields) in Hl. rewrite K in Hl. now apply List.filter_In in Hl as [Hl _]. }
  specialize (Hs slot Hin). rewrite Hl in Hs. now apply slot_value_supplied in Hs.
Qed.

(* ------------------------------------------------------------------ *)
(** *** Bodies and content types *)

(** X13.  A request whose method is GET or HEAD carries no body of the
    caller's: the descriptor a dispatching call hands over is made of the
    headers as assembled and the body [undefined], whatever body the
    arguments carry.  Only an entry [body] of the pass-through options can
    put a body into the descriptor. *)
Theorem get_and_head_carry_no_body :
  forall (this : HttpClientRequest) (args options : JsValue) (w w' : World)
         (r : Res Response) (f : option FunId) (u : string) (init : RequestInit),
    existsb (String.eqb (method this)) ["GET"; "HEAD"] = true ->
    execute call_fn transport JSON_parse JSON_stringify this args options w = (r, w') ->
    fetch_log w' = (fetch_log w ++ [(f, u, init)])%list ->
    exists processedArgs headers,
      validateRequest call_fn this (default_param args (JObj [])) = Ok processedArgs
      /\ prepareHeaders call_fn processedArgs (merged_options this options) = Ok headers
      /\ init = request_init (method this) headers JUndefined
                  (field (merged_options this options) "init")
      /\ (has_key "body"
            (enumerable_entries (field (merged_options this options) "init")) = false ->
          lookup "body" init = Some (IValue JUndefined))
      /\ (has_key "headers"
            (enumerable_entries (field (merged_options this options) "init")) = false ->
          lookup "headers" init = Some (IHeaders headers)).
Proof.
  intros this args options w w' r f u init Hm Hx Hlog.
  destruct (execute_dispatched call_fn transport JSON_parse JSON_stringify
              this args options w r w' f u init Hx Hlog)
    as (pa & h & bh & Hv & _ & Hh & Hb & ->).
  fold (merged_options this options) in Hh |- *.
  unfold prepareBody in Hb. rewrite Hm in Hb.
  destruct (get_prop pa "body") as [b|]; cbn [rbind negb andb] in Hb; [|discriminate].
  injection Hb as <-. cbn [fst snd].
  exists pa, h. split; [exact Hv|]. split; [exact Hh|]. split; [reflexivity|]. split.
  - intros Hi. now rewrite request_init_assembled.
  - intros Hi. now rewrite request_init_assembled.
Qed.

(** X14.  A Content-Type header that is already in the collection, under
    any spelling of its name, is never replaced by the inferred one: the
    body step leaves the whole collection as it is. *)
Theorem explicit_content_type_is_kept :
  forall (this : HttpClientRequest) (processedArgs : JsValue) (name : string)
         (value : JsValue) (headers : Headers) (bh : JsValue * Headers),
    Str.toLowerCase name = "content-type" ->
    prepareBody JSON_parse JSON_stringify this processedArgs
      (headers_set name value headers) = Ok bh ->
    snd bh = headers_set name value headers.
Proof.
  intros this pa name value headers bh Hn Hb.
  assert (Hhas : headers_has "Content-Type" (headers_set name value headers) = true).
  { unfold headers_has, headers_set, has_key. rewrite lookup_obj_set, Hn. reflexivity. }
  unfold prepareBody in Hb. rewrite Hhas in Hb.
  destruct (get_prop pa "body") as [b|]; cbn [rbind] in Hb; [|discriminate].
  destruct (negb (existsb (String.eqb (method this)) ["GET"; "HEAD"])
            && negb (is_undefined b)); cbn [negb] in Hb; now injection Hb as <-.
Qed.

(** X15.  What the body step does with each kind of body on a request that
    may carry one, no Content-Type being set yet.  Binary payloads (Blob,
    ArrayBuffer) are sent as they are and labelled application/json;
    multipart form data is sent as it is and gets no Content-Type; URL
    encoded form data is sent as it is with its own type; a string is sent
    as it is, labelled application/json if it parses as JSON and
    text/plain if not; numbers and booleans are sent as their text without
    a Content-Type; [null] gives no body and no Content-Type. *)
Theorem body_kinds :
  forall (this : HttpClientRequest) (processedArgs body : JsValue) (headers : Headers),
    existsb (String.eqb (method this)) ["GET"; "HEAD"] = false ->
    get_prop processedArgs "body" = Ok body ->
    headers_has "Content-Type" headers = false ->
    prepareBody JSON_parse JSON_stringify this processedArgs headers
    = Ok match body with
         | JBlob _ | JArrayBuffer _ =>
             (body, headers_set "Content-Type" (JStr "application/json") headers)
         | JFormData _ => (body, headers)
         | JURLSearchParams _ =>
             (body, headers_set "Content-Type"
                      (JStr "application/x-www-form-urlencoded") headers)
         | JStr s =>
             (body, headers_set "Content-Type"
                      (JStr (match JSON_parse s with
                             | Ok _ => "application/json"
                             | Err _ => "text/plain"
                             end)) headers)
         | JNum _ | JBool _ | JFun _ _ => (JStr (ToString body), headers)
         | JArr _ => (JStr (JSON_stringify body), headers)
         | JObj _ | JProto _ _ =>
             (JStr (JSON_stringify body),
              headers_set "Content-Type" (JStr "application/json") headers)
         | JNull | JUndefined => (JUndefined, headers)
         end.
Proof.
  intros this pa body headers Hm Hb Hhas.
  unfold prepareBody. rewrite Hb, Hm, Hhas. cbn [rbind negb andb].
  destruct body; try reflexivity.
  cbn [is_undefined negb getContentType serializeBody].
  destruct (JSON_parse s); reflexivity.
Qed.

(* ------------------------------------------------------------------ *)
(** *** Transport and response *)

Lemma dispatch_world mergedOptions finalUrl m headers body w :
  let w1 := snd (dispatch transport mergedOptions finalUrl m headers body w) in
  warn_log w1 = warn_log w
  /\ (fetch_log w1 = fetch_log w
      \/ exists call, fetch_log w1 = (fetch_log w ++ [call])%list).
Proof.
  unfold dispatch, bind, lift, throw.
  destruct (get_prop mergedOptions "fetch") as [fv|]; [|cbn; tauto].
  destruct (get_prop mergedOptions "init") as [iv|]; [|cbn; tauto].
  destruct fv; cbn [truthy snd warn_log fetch_log];
    try (split; [reflexivity | right; eexists; reflexivity]);
    try (destruct b); try (destruct (negb _));
    cbn [snd warn_log fetch_log];
    try (split; [reflexivity | right; eexists; reflexivity]);
    split; try reflexivity; now left.
Qed.

Lemma validateResponse_world this response w :
  let w' := snd (validateResponse call_fn JSON_parse this response w) in
  fetch_log w' = fetch_log w
  /\ (warn_log w' = warn_log w \/ exists e, warn_log w' = (warn_log w ++ [e])%list).
Proof.
  split; [apply validateResponse_fetch_log|].
  unfold validateResponse, bind, lift, ret, try_catch, console_warn.
  destruct (get_prop (route this) "responses") as [responses|]; [|now left].
  destruct (get_prop responses (Str.of_Z (status response))) as [desc|]; [|now left].
  destruct (truthy desc && typeof_is desc "object" && truthy (field desc "schema"));
    [|now left].
  destruct (clone response) as [cloned|e]; [|now left].
  destruct (json JSON_parse cloned) as [data|e];
    [|right; eexists; reflexivity].
  destruct (createParseFn call_fn (field desc "schema")) as [validator|e];
    [|right; eexists; reflexivity].
  destruct (validator data); [now left | right; eexists; reflexivity].
Qed.

(** X16.  One call invokes the transport at most once and writes at most
    one warning, whatever happens: there is no retry, and an earlier log is
    never rewritten. *)
Theorem execute_invokes_transport_at_most_once :
  forall (this : HttpClientRequest) (args options : JsValue) (w : World),
    (fetch_log (snd (execute call_fn transport JSON_parse JSON_stringify
                       this args options w)) = fetch_log w
     \/ exists call,
          fetch_log (snd (execute call_fn transport JSON_parse JSON_stringify
                            this args options w))
          = (fetch_log w ++ [call])%list)
    /\ (warn_log (snd (execute call_fn transport JSON_parse JSON_stringify
                         this args options w)) = warn_log w
        \/ exists e,
             warn_log (snd (execute call_fn transport JSON_parse JSON_stringify
                              this args options w))
             = (warn_log w ++ [e])%list).
Proof.
  intros this args options w. unfold execute, bind, lift, ret.
  destruct (validateRequest call_fn this (default_param args (JObj []))) as [pa|];
    [|cbn; tauto].
  destruct (buildUrl this pa) as [u|]; [|cbn; tauto].
  destruct (prepareHeaders call_fn pa _) as [h|]; [|cbn; tauto].
  destruct (prepareBody JSON_parse JSON_stringify this pa h) as [bh|]; [|cbn; tauto].
  pose proof (dispatch_world
                (deepMerge (baseOptions this) (default_param options (JObj [])))
                u (method this) (snd bh) (fst bh) w) as D.
  destruct (dispatch transport _ u (method this) (snd bh) (fst bh) w)
    as [[response|e] w1]; cbn [snd] in D; destruct D as [Dw Df].
  - pose proof (validateResponse_world this response w1) as V.
    destruct (validateResponse call_fn JSON_parse this response w1) as [[v|e] w2];
      cbn [snd] in *; destruct V as [Vf Vw]; rewrite Vf, <- Dw; tauto.
  - cbn [snd]. rewrite Dw. tauto.
Qed.

(** X17.  An error of the dispatch step (the transport rejecting, or the
    configured [fetch] not being a function) is the outcome of the call as
    it is: no response validation is attempted and no warning written. *)
Theorem transport_error_propagates :
  forall (this : HttpClientRequest) (args options : JsValue) (w w1 : World)
         (processedArgs : JsValue) (finalUrl : string) (headers : Headers)
         (bh : JsValue * Headers) (e : JsError),
    validateRequest call_fn this (default_param args (JObj [])) = Ok processedArgs ->
    buildUrl this processedArgs = Ok finalUrl ->
    prepareHeaders call_fn processedArgs
      (deepMerge (baseOptions this) (default_param options (JObj []))) = Ok headers ->
    prepareBody JSON_parse JSON_stringify this processedArgs headers = Ok bh ->
    dispatch transport (deepMerge (baseOptions this) (default_param options (JObj [])))
      finalUrl (method this) (snd bh) (fst bh) w = (Err e, w1) ->
    execute call_fn transport JSON_parse JSON_stringify this args options w = (Err e, w1)
    /\ warn_log w1 = warn_log w.
Proof.
  intros this args options w w1 pa u h bh e Hv Hu Hh Hb Hd. split.
  - unfold execute, bind, lift. now rewrite Hv, Hu, Hh, Hb, Hd.
  - pose proof (dispatch_world
                  (deepMerge (baseOptions this) (default_param options (JObj [])))
                  u (method this) (snd bh) (fst bh) w) as D.
    rewrite Hd in D. now destruct D.
Qed.

(** X18.  When the status received has no response descriptor, or the
    descriptor is a description string, or it declares no schema (or the
    null marker), the response is returned at once: its body is not
    decoded, nothing is validated and nothing is warned. *)
Theorem response_without_schema_is_not_checked :
  forall (this : HttpClientRequest) (response : Response) (w : World)
         (responses desc : JsValue),
    get_prop (route this) "responses" = Ok responses ->
    get_prop responses (Str.of_Z (status response)) = Ok desc ->
    truthy desc && typeof_is desc "object" && truthy (field desc "schema") = false ->
    validateResponse call_fn JSON_parse this response w = (Ok response, w).
Proof.
  intros this response w responses desc Hr Hd Hs.
  unfold validateResponse, bind, lift, ret. now rewrite Hr, Hd, Hs.
Qed.

(** X19.  The run-time test for a route definition lets [responses: null]
    pass ([typeof null] is ["object"]); on such a route response
    validation fails with a TypeError for every response, outside the
    [try] block, so a call rejects although the transport answered. *)
Theorem null_responses_reject_after_dispatch :
  forall (fields : Fields) (p m : string),
    lookup "path" fields = Some (JStr p) ->
    lookup "method" fields = Some (JStr m) ->
    lookup "responses" fields = Some JNull ->
    isRouteDefinition (JObj fields) = true
    /\ forall (this : HttpClientRequest) (response : Response) (w : World),
         route this = JObj fields ->
         validateResponse call_fn JSON_parse this response w
         = (Err (TypeError "Cannot read properties of undefined or null"), w).
Proof.
  intros fields p m Hp Hm Hr. split.
  - unfold isRouteDefinition, field. cbn [get_prop isObject]. now rewrite Hp, Hm, Hr.
  - intros this response w Ht. unfold validateResponse, bind, lift.
    rewrite Ht. cbn [get_prop]. now rewrite Hr.
Qed.

(** X24.  The response is cloned before the [try] block is entered: when
    the descriptor of the status received declares a schema and the body
    of the response has been read already, response validation fails with
    the TypeError of [clone], nothing is warned, and the call rejects. *)
Theorem consumed_response_rejects :
  forall (this : HttpClientRequest) (response : Response) (w : World)
         (responses desc : JsValue),
    get_prop (route this) "responses" = Ok responses ->
    get_prop responses (Str.of_Z (status response)) = Ok desc ->
    truthy desc && typeof_is desc "object" && truthy (field desc "schema") = true ->
    bodyUsed response = true ->
    validateResponse call_fn JSON_parse this response w
    = (Err (TypeError "Response body is already used"), w).
Proof.
  intros this response w responses desc Hr Hd Hs Hu.
  unfold validateResponse, bind, lift, clone. now rewrite Hr, Hd, Hs, Hu.
Qed.

(* ------------------------------------------------------------------ *)
(** *** Options *)

(** X20.  A [fetch] given in the per-call options replaces the configured
    one for that call; given as [undefined] it switches the configured one
    off, and the ambient [fetch] is used. *)
Theorem per_call_fetch_overrides :
  forall (base opts : Fields) (u m : string) (headers : Headers) (body : JsValue)
         (w : World),
    distinct_keys opts = true ->
    (forall id props,
        lookup "fetch" opts = Some (JFun id props) ->
        fst (dispatch transport (deepMerge (JObj base) (JObj opts)) u m headers body w)
        = transport (Some id) u
            (request_init m headers body
               (field (deepMerge (JObj base) (JObj opts)) "init")))
    /\ (lookup "fetch" opts = Some JUndefined ->
        fst (dispatch transport (deepMerge (JObj base) (JObj opts)) u m headers body w)
        = transport None u
            (request_init m headers body
               (field (deepMerge (JObj base) (JObj opts)) "init"))).
Proof.
  intros base opts u m headers body w Hd. apply distinct_NoDup in Hd.
  assert (F : forall v, lookup "fetch" opts = Some v -> isObject v = false ->
            get_prop (deepMerge (JObj base) (JObj opts)) "fetch" = Ok v).
  { intros v Hl Hv. rewrite deepMerge_objects. apply get_prop_to_value_own.
    now apply (fold_merge_own opts Hd). }
  split.
  - intros id props Hl.
    now rewrite (dispatch_runs transport _ u m headers body w _ (Some id)
                   (F _ Hl eq_refl) eq_refl).
  - intros Hl.
    now rewrite (dispatch_runs transport _ u m headers body w _ None
                   (F _ Hl eq_refl) eq_refl).
Qed.

(** X25.  The pass-through options are spread into the request
    descriptor behind [method], [headers] and [body]: an entry of theirs
    reaches the transport under its name with its value, and one named
    [method], [headers] or [body] takes the place of what the call
    assembled. *)
Theorem init_entries_reach_transport :
  forall (this : HttpClientRequest) (args options : JsValue) (w w' : World)
         (r : Res Response) (f : option FunId) (u : string) (init : RequestInit)
         (k : string) (v : JsValue),
    distinct_keys (enumerable_entries (field (merged_options this options) "init")) = true ->
    lookup k (enumerable_entries (field (merged_options this options) "init")) = Some v ->
    execute call_fn transport JSON_parse JSON_stringify this args options w = (r, w') ->
    fetch_log w' = (fetch_log w ++ [(f, u, init)])%list ->
    lookup k init = Some (IValue v).
Proof.
  intros this args options w w' r f u init k v Hd Hl Hx Hlog.
  destruct (execute_dispatched call_fn transport JSON_parse JSON_stringify
              this args options w r w' f u init Hx Hlog)
    as (pa & h & bh & _ & _ & _ & _ & ->).
  fold (merged_options this options). now apply request_init_replaced.
Qed.

End Requests.

Lemma omitted_slots_are_not_validated_witness :
  validateRequest Sample.call_fn
    (Sample.request "post"
       [("params", Sample.rejecting_validator); ("body", Sample.rejecting_validator)]
       [] (JObj []))
    (JObj [])
  = Ok (JObj []).
Proof.
  exact (omitted_slots_are_not_validated Sample.call_fn
           (Sample.request "post"
              [("params", Sample.rejecting_validator);
               ("body", Sample.rejecting_validator)] [] (JObj []))
           (JObj []) eq_refl (fun slot _ => eq_refl)).
Defined.

Lemma processed_arguments_shape_witness :
  exists fields,
    JObj [("query", JObj [("a", JNum 1)]); ("body", JNum 7)] = JObj fields
    /\ keys fields = List.filter (fun slot => has_key slot fields) slots
    /\ (forall slot v,
          lookup slot fields = Some v ->
          exists arg,
            get_prop (JObj [("body", JNum 7); ("query", JObj [("a", JNum 1)]);
                            ("extra", JBool true)]) slot = Ok arg
            /\ is_undefined arg = false).
Proof.
  exact (processed_arguments_shape Sample.call_fn
           (Sample.request "post" [("body", Sample.identity_validator)] [] (JObj []))
           (JObj [("body", JNum 7); ("query", JObj [("a", JNum 1)]);
                  ("extra", JBool true)])
           (JObj [("query", JObj [("a", JNum 1)]); ("body", JNum 7)]) eq_refl).
Defined.

Lemma get_and_head_carry_no_body_witness :
  exists init,
    fetch_log
      (snd (execute Sample.call_fn Sample.transport Sample.JSON_parse Sample.JSON_stringify
              (Sample.request "get" [] [] (JObj []))
              (JObj [("body", JObj [("name", JStr "x")])]) JUndefined Sample.world0))
    = [(None, "https://api.example.com/users/:id", init)]
    /\ lookup "body" init = Some (IValue JUndefined).
Proof.
  eexists. split; [reflexivity|].
  destruct (get_and_head_carry_no_body
              Sample.call_fn Sample.transport Sample.JSON_parse Sample.JSON_stringify
              (Sample.request "get" [] [] (JObj []))
              (JObj [("body", JObj [("name", JStr "x")])]) JUndefined
              Sample.world0 _ _ None _ _ eq_refl eq_refl eq_refl)
    as (pa & headers & _ & _ & _ & Hb & _).
  exact (Hb eq_refl).
Defined.

Lemma explicit_content_type_is_kept_witness :
  snd (JStr "[1]", headers_set "CONTENT-TYPE" (JStr "text/csv") [])
  = headers_set "CONTENT-TYPE" (JStr "text/csv") [].
Proof.
  exact (explicit_content_type_is_kept Sample.JSON_parse Sample.JSON_stringify
           (Sample.request "post" [] [] (JObj []))
           (JObj [("body", JObj [("name", JStr "x")])])
           "CONTENT-TYPE" (JStr "text/csv") []
           (JStr "[1]", headers_set "CONTENT-TYPE" (JStr "text/csv") [])
           eq_refl eq_refl).
Defined.

Lemma body_kinds_witness :
  prepareBody Sample.JSON_parse Sample.JSON_stringify
    (Sample.request "put" [] [] (JObj [])) (JObj [("body", JBlob "binary")]) []
  = Ok (JBlob "binary", [("content-type", "application/json")]).
Proof.
  exact (body_kinds Sample.JSON_parse Sample.JSON_stringify
           (Sample.request "put" [] [] (JObj [])) (JObj [("body", JBlob "binary")])
           (JBlob "binary") [] eq_refl eq_refl eq_refl).
Defined.

Lemma transport_error_propagates_witness :
  exists w1,
    execute Sample.call_fn Sample2.failing_transport Sample.JSON_parse
      Sample.JSON_stringify
      (Sample.request "get" [] [] (JObj [])) JUndefined JUndefined Sample.world0
    = (Err (TypeError "Failed to fetch"), w1)
    /\ warn_log w1 = warn_log Sample.world0.
Proof.
  eexists.
  eapply (transport_error_propagates
            Sample.call_fn Sample2.failing_transport Sample.JSON_parse
            Sample.JSON_stringify
            (Sample.request "get" [] [] (JObj [])) JUndefined JUndefined Sample.world0);
    lazy; reflexivity.
Defined.

Lemma response_without_schema_is_not_checked_witness :
  validateResponse Sample.call_fn Sample.JSON_parse
    (Sample.request "get" [] [("200", JStr "User found")] (JObj []))
    (mkResponse 200 "not json" false) Sample.world0
  = (Ok (mkResponse 200 "not json" false), Sample.world0).
Proof.
  exact (response_without_schema_is_not_checked Sample.call_fn Sample.JSON_parse
           (Sample.request "get" [] [("200", JStr "User found")] (JObj []))
           (mkResponse 200 "not json" false) Sample.world0
           (JObj [("200", JStr "User found")]) (JStr "User found")
           eq_refl eq_refl eq_refl).
Defined.

Lemma null_responses_reject_after_dispatch_witness :
  isRouteDefinition
    (JObj [("path", JStr "/users"); ("method", JStr "get"); ("responses", JNull)])
  = true.
Proof.
  exact (proj1 (null_responses_reject_after_dispatch Sample.call_fn Sample.JSON_parse
                  [("path", JStr "/users"); ("method", JStr "get"); ("responses", JNull)]
                  "/users" "get" eq_refl eq_refl eq_refl)).
Defined.

Lemma consumed_response_rejects_witness :
  validateResponse Sample.call_fn Sample.JSON_parse
    (Sample.request "get" []
       [("200", JObj [("schema", Sample.identity_validator)])] (JObj []))
    (mkResponse 200 "{}" true) Sample.world0
  = (Err (TypeError "Response body is already used"), Sample.world0).
Proof.
  exact (consumed_response_rejects Sample.call_fn Sample.JSON_parse
           (Sample.request "get" []
              [("200", JObj [("schema", Sample.identity_validator)])] (JObj []))
           (mkResponse 200 "{}" true) Sample.world0 _ _
           eq_refl eq_refl eq_refl eq_refl).
Defined.

Lemma per_call_fetch_overrides_witness :
  fst (dispatch Sample.transport
         (deepMerge (JObj [("fetch", JFun 7 []); ("init", JObj [("mode", JStr "cors")])])
            (JObj [("fetch", JFun 9 [])]))
         "https://api.example.com/users" "GET" [] JUndefined Sample.world0)
  = Sample.transport (Some 9%nat) "https://api.example.com/users"
      (request_init "GET" [] JUndefined
         (field
            (deepMerge
               (JObj [("fetch", JFun 7 []); ("init", JObj [("mode", JStr "cors")])])
               (JObj [("fetch", JFun 9 [])])) "init")).
Proof.
  exact (proj1 (per_call_fetch_overrides Sample.transport
                  [("fetch", JFun 7 []); ("init", JObj [("mode", JStr "cors")])]
                  [("fetch", JFun 9 [])]
                  "https://api.example.com/users" "GET" [] JUndefined Sample.world0
                  eq_refl) 9%nat [] eq_refl).
Defined.


Lemma init_entries_reach_transport_witness :
  exists init,
    fetch_log
      (snd (execute Sample.call_fn Sample.transport Sample.JSON_parse Sample.JSON_stringify
              (Sample.request "post" [] [] (JObj []))
              (JObj [("body", JObj [("name", JStr "x")])])
              (JObj [("init", JObj [("mode", JStr "cors"); ("body", JStr "raw")])])
              Sample.world0))
    = [(None, "https://api.example.com/users/:id", init)]
    /\ lookup "mode" init = Some (IValue (JStr "cors"))
    /\ lookup "body" init = Some (IValue (JStr "raw")).
Proof.
  eexists. split; [reflexivity|].
  split;
    [ exact (init_entries_reach_transport
               Sample.call_fn Sample.transport Sample.JSON_parse Sample.JSON_stringify
               (Sample.request "post" [] [] (JObj []))
               (JObj [("body", JObj [("name", JStr "x")])])
               (JObj [("init", JObj [("mode", JStr "cors"); ("body", JStr "raw")])])
               Sample.world0 _ _ None _ _ "mode" (JStr "cors")
               eq_refl eq_refl eq_refl eq_refl)
    | exact (init_entries_reach_transport
               Sample.call_fn Sample.transport Sample.JSON_parse Sample.JSON_stringify
               (Sample.request "post" [] [] (JObj []))
               (JObj [("body", JObj [("name", JStr "x")])])
               (JObj [("init", JObj [("mode", JStr "cors"); ("body", JStr "raw")])])
               Sample.world0 _ _ None _ _ "body" (JStr "raw")
               eq_refl eq_refl eq_refl eq_refl) ].
Defined.
